(** * AQWWebLogger: the bridge server's connection and protocol layer

    A shallow embedding of server.js (the TCP/WebSocket bridge): the
    handshake (HMAC challenge/response), the per-line dispatch of the TCP
    'data' handler, the status diff engine (deepCompare, getChangedFields,
    handleStatusUpdate), the bounded logs (addClientLog, addMasterLog), the
    liveness timers and the username poller.

    Conventions of the embedding.
    - The global maps of server.js (tcpClients, clientLogs, clientNames, ...)
      are the fields of one [State] record; every function of the source that
      mutates them is a function [State -> State] here.
    - A JavaScript string is a Rocq [string]: the bytes of its UTF-8 form.
    - [Date.now()], [new Date().toISOString()] and [toLocaleTimeString] are
      read from a [Clock] value handed to each callback.
    - The objects given to [broadcastToBrowsers] are recorded, in order, in
      the [published] field; the text written to a socket in [written].
    - Node's own library (crypto, Buffer, String.prototype) is modelled next
      to the code that calls it, in the modules [Crypto] and [JsString]. *)

From Stdlib Require Import ZArith QArith Qcanon String Ascii List Lia.
From stdpp Require Import base numbers list strings gmap pretty.
Import ListNotations.
Local Open Scope Z_scope.

(** ** Node's crypto and Buffer primitives *)

Module Crypto.

(** Bytes are integers in [0, 256); a Buffer is a list of them. *)
Definition byte_of_ascii (a : ascii) : Z := Z.of_N (N_of_ascii a).
Definition utf8 (s : string) : list Z := map byte_of_ascii (list_ascii_of_string s).

(** [buf.toString('hex')] and [.digest('hex')]: two lower-case digits a byte. *)
Definition hex_digit (n : Z) : ascii :=
  ascii_of_N (Z.to_N (if decide (n < 10) then 48 + n else 87 + n)).

Fixpoint hex_encode (bs : list Z) : string :=
  match bs with
  | [] => EmptyString
  | b :: r => String (hex_digit (Z.shiftr b 4)) (String (hex_digit (Z.land b 15)) (hex_encode r))
  end.

(** The value of one hex digit, either case; [None] for any other character. *)
Definition unhex (a : ascii) : option Z :=
  let c := byte_of_ascii a in
  if decide (48 <= c <= 57) then Some (c - 48)
  else if decide (97 <= c <= 102) then Some (c - 87)
  else if decide (65 <= c <= 70) then Some (c - 55)
  else None.

(** [Buffer.from(s, 'hex')]: decodes pairs of digits and stops, keeping what
    it has, at the first pair that is not two hex digits; a trailing single
    character is dropped. It never throws. *)
Fixpoint Buffer_from_hex (s : string) : list Z :=
  match s with
  | String a (String b r) =>
      match unhex a, unhex b with
      | Some x, Some y => (16 * x + y) :: Buffer_from_hex r
      | _, _ => []
      end
  | _ => []
  end.

(** Big-endian 32-bit words of a byte list. *)
Fixpoint words_of_bytes (bs : list Z) : list Z :=
  match bs with
  | b0 :: b1 :: b2 :: b3 :: r =>
      (Z.shiftl b0 24 + Z.shiftl b1 16 + Z.shiftl b2 8 + b3) :: words_of_bytes r
  | _ => []
  end.

(** SHA-256 (FIPS 180-4) on 32-bit words with the wrap-around written out. *)
Definition add32 (a b : Z) : Z := (a + b) mod 2 ^ 32.
Definition rotr (n x : Z) : Z :=
  Z.lor (Z.shiftr x n) (Z.land (Z.shiftl x (32 - n)) 4294967295).
Definition Ch (x y z : Z) : Z :=
  Z.lxor (Z.land x y) (Z.land (Z.lxor x 4294967295) z).
Definition Maj (x y z : Z) : Z :=
  Z.lxor (Z.lxor (Z.land x y) (Z.land x z)) (Z.land y z).
Definition bsig0 (x : Z) : Z := Z.lxor (Z.lxor (rotr 2 x) (rotr 13 x)) (rotr 22 x).
Definition bsig1 (x : Z) : Z := Z.lxor (Z.lxor (rotr 6 x) (rotr 11 x)) (rotr 25 x).
Definition ssig0 (x : Z) : Z := Z.lxor (Z.lxor (rotr 7 x) (rotr 18 x)) (Z.shiftr x 3).
Definition ssig1 (x : Z) : Z := Z.lxor (Z.lxor (rotr 17 x) (rotr 19 x)) (Z.shiftr x 10).

Local Open Scope string_scope.
(** The round constants: the first 32 bits of the fractional parts of the
    cube roots of the first 64 primes, read from their hex form. *)
Definition K256 : list Z :=
  Eval vm_compute in
    words_of_bytes (Buffer_from_hex
      ("428a2f9871374491b5c0fbcfe9b5dba53956c25b59f111f1923f82a4ab1c5ed5"
       ++ "d807aa9812835b01243185be550c7dc372be5d7480deb1fe9bdc06a7c19bf174"
       ++ "e49b69c1efbe47860fc19dc6240ca1cc2de92c6f4a7484aa5cb0a9dc76f988da"
       ++ "983e5152a831c66db00327c8bf597fc7c6e00bf3d5a7914706ca635114292967"
       ++ "27b70a852e1b21384d2c6dfc53380d13650a7354766a0abb81c2c92e92722c85"
       ++ "a2bfe8a1a81a664bc24b8b70c76c51a3d192e819d6990624f40e3585106aa070"
       ++ "19a4c1161e376c082748774c34b0bcb5391c0cb34ed8aa4a5b9cca4f682e6ff3"
       ++ "748f82ee78a5636f84c878148cc7020890befffaa4506cebbef9a3f7c67178f2")).

Local Close Scope string_scope.

Record hstate := HState { ha : Z; hb : Z; hc : Z; hd : Z; he : Z; hf : Z; hg : Z; hh : Z }.

(** The initial hash value, from the square roots of the first 8 primes. *)
Definition H0 : hstate :=
  Eval vm_compute in
    match words_of_bytes (Buffer_from_hex
            "6a09e667bb67ae853c6ef372a54ff53a510e527f9b05688c1f83d9ab5be0cd19") with
    | [a; b; c; d; e; f; g; h] => HState a b c d e f g h
    | _ => HState 0 0 0 0 0 0 0 0
    end.

Definition be32 (x : Z) : list Z :=
  [Z.land (Z.shiftr x 24) 255; Z.land (Z.shiftr x 16) 255; Z.land (Z.shiftr x 8) 255; Z.land x 255].

(** The message schedule, newest word first while it is extended. *)
Fixpoint extend (n : nat) (w : list Z) : list Z :=
  match n with
  | O => w
  | S n' =>
      let g i := nth i w 0 in
      extend n' (add32 (add32 (ssig1 (g 1%nat)) (g 6%nat))
                       (add32 (ssig0 (g 14%nat)) (g 15%nat)) :: w)
  end.

Definition schedule (block : list Z) : list Z :=
  rev (extend 48 (rev (words_of_bytes block))).

Definition round (s : hstate) (kw : Z * Z) : hstate :=
  let t1 := add32 (add32 (add32 (hh s) (bsig1 (he s)))
                         (add32 (Ch (he s) (hf s) (hg s)) (fst kw))) (snd kw) in
  let t2 := add32 (bsig0 (ha s)) (Maj (ha s) (hb s) (hc s)) in
  HState (add32 t1 t2) (ha s) (hb s) (hc s) (add32 (hd s) t1) (he s) (hf s) (hg s).

Definition compress (s : hstate) (block : list Z) : hstate :=
  let r := fold_left round (combine K256 (schedule block)) s in
  HState (add32 (ha s) (ha r)) (add32 (hb s) (hb r)) (add32 (hc s) (hc r)) (add32 (hd s) (hd r))
         (add32 (he s) (he r)) (add32 (hf s) (hf r)) (add32 (hg s) (hg r)) (add32 (hh s) (hh r)).

Definition pad (msg : list Z) : list Z :=
  let l := Z.of_nat (length msg) in
  msg ++ [128] ++ repeat 0 (Z.to_nat ((55 - l) mod 64))
      ++ be32 (Z.shiftr (8 * l) 32) ++ be32 (Z.land (8 * l) 4294967295).

Fixpoint blocks (fuel : nat) (bs : list Z) : list (list Z) :=
  match fuel with
  | O => []
  | S f => match bs with
           | [] => []
           | _ => take 64 bs :: blocks f (drop 64 bs)
           end
  end.

Definition digest_bytes (s : hstate) : list Z :=
  be32 (ha s) ++ be32 (hb s) ++ be32 (hc s) ++ be32 (hd s) ++
  be32 (he s) ++ be32 (hf s) ++ be32 (hg s) ++ be32 (hh s).

Definition sha256 (msg : list Z) : list Z :=
  let p := pad msg in
  digest_bytes (fold_left compress (blocks (length p) p) H0).

(** HMAC (RFC 2104) with SHA-256: [crypto.createHmac('sha256', key)
    .update(msg).digest()]. *)
Definition hmac_sha256 (key msg : list Z) : list Z :=
  let k0 := if decide (64 < length key)%nat then sha256 key else key in
  let k := k0 ++ repeat 0 (64 - length k0)%nat in
  sha256 (map (Z.lxor 92) k ++ sha256 (map (Z.lxor 54) k ++ msg)).

(** What a call either returns or throws. *)
Inductive Exception :=
| RangeError (code : string)
| TypeError (message : string).

Inductive Completion (A : Type) :=
| Normal (a : A)
| Throw (e : Exception).
Arguments Normal {A} a.
Arguments Throw {A} e.

(** The comparison loop of [crypto.timingSafeEqual] (OpenSSL's
    [CRYPTO_memcmp]): every byte pair is folded into the accumulator, there
    is no exit before the end. *)
Fixpoint CRYPTO_memcmp (a b : list Z) (acc : Z) : Z :=
  match a, b with
  | x :: a', y :: b' => CRYPTO_memcmp a' b' (Z.lor acc (Z.lxor x y))
  | _, _ => acc
  end.

(** [crypto.timingSafeEqual(a, b)]: throws a RangeError when the byte lengths
    differ, otherwise compares all bytes. *)
Definition timingSafeEqual (a b : list Z) : Completion bool :=
  if decide (length a = length b)
  then Normal (bool_decide (CRYPTO_memcmp a b 0 = 0))
  else Throw (RangeError "ERR_CRYPTO_TIMING_SAFE_EQUAL_LENGTH").

End Crypto.
Export Crypto.

(** ** The handshake utilities of server.js *)

(** [crypto.randomBytes(32).toString('hex')]: the 32 random bytes are an
    input of the model. *)
Definition generateChallenge (random32 : list Z) : string := hex_encode random32.

Definition computeHandshakeResponse (challenge secret : string) : string :=
  hex_encode (hmac_sha256 (utf8 secret) (utf8 challenge)).

Definition isValidHandshakeResponse (challenge response secret : string) : Completion bool :=
  let expectedResponse := computeHandshakeResponse challenge secret in
  timingSafeEqual (Buffer_from_hex response) (Buffer_from_hex expectedResponse).

(** ** The String.prototype methods the server calls *)

Module JsString.
Local Open Scope string_scope.

Definition bytes_of_string (s : string) : list Z := utf8 s.
Definition string_of_bytes (bs : list Z) : string :=
  string_of_list_ascii (map (fun b => ascii_of_N (Z.to_N b)) bs).

(** [s.startsWith(p)] *)
Definition startsWith (s p : string) : bool := String.prefix p s.

(** [s.substring(n)] for an offset inside an ASCII prefix. *)
Fixpoint substring_from (n : nat) (s : string) : string :=
  match n, s with
  | O, _ => s
  | S n', String _ r => substring_from n' r
  | S _, EmptyString => EmptyString
  end.

(** The white space of ECMAScript (WhiteSpace and LineTerminator), by the
    bytes of its UTF-8 form: one, two or three bytes. *)
Definition ws1 (b : Z) : bool := bool_decide (b ∈ [9; 10; 11; 12; 13; 32]).
Definition ws2 (b c : Z) : bool := bool_decide (b = 194 ∧ c = 160).
Definition ws3 (b c d : Z) : bool :=
  bool_decide ((b, c, d) ∈ [(225, 154, 128); (226, 129, 159); (227, 128, 128);
                            (239, 187, 191); (226, 128, 168); (226, 128, 169);
                            (226, 128, 175)])
  || bool_decide (b = 226 ∧ c = 128 ∧ 128 <= d <= 138).

(** Length in bytes of the white space character a byte list starts with;
    0 when it starts with none. *)
Definition ws_head (bs : list Z) : nat :=
  match bs with
  | b :: r =>
      if ws1 b then 1%nat
      else match r with
           | c :: r' =>
               if ws2 b c then 2%nat
               else match r' with
                    | d :: _ => if ws3 b c d then 3%nat else 0%nat
                    | [] => 0%nat
                    end
           | [] => 0%nat
           end
  | [] => 0%nat
  end.

(** The same, read from the end: [rbs] is the byte list reversed. *)
Definition ws_last (rbs : list Z) : nat :=
  match rbs with
  | b :: r =>
      if ws1 b then 1%nat
      else match r with
           | c :: r' =>
               if ws2 c b then 2%nat
               else match r' with
                    | d :: _ => if ws3 d c b then 3%nat else 0%nat
                    | [] => 0%nat
                    end
           | [] => 0%nat
           end
  | [] => 0%nat
  end.

Fixpoint strip (head : list Z -> nat) (fuel : nat) (bs : list Z) : list Z :=
  match fuel with
  | O => bs
  | S f => match head bs with
           | O => bs
           | n => strip head f (drop n bs)
           end
  end.

(** [s.trim()] *)
Definition trim (s : string) : string :=
  let b := bytes_of_string s in
  let b1 := strip ws_head (length b) b in
  string_of_bytes (rev (strip ws_last (length b1) (rev b1))).

(** [s.toLowerCase()] on the ASCII letters (its result is only ever compared
    with the literal [true], which no other letter lower-cases into). *)
Definition lower_ascii (a : ascii) : ascii :=
  let c := byte_of_ascii a in
  if decide (65 <= c <= 90) then ascii_of_N (Z.to_N (c + 32)) else a.

Fixpoint toLowerCase (s : string) : string :=
  match s with
  | EmptyString => EmptyString
  | String a r => String (lower_ascii a) (toLowerCase r)
  end.

(** [s.split(':')] *)
Fixpoint split_colon (s : string) : list string :=
  match s with
  | EmptyString => [EmptyString]
  | String c r =>
      if Ascii.eqb c ":" then EmptyString :: split_colon r
      else match split_colon r with
           | h :: t => String c h :: t
           | [] => [String c EmptyString]
           end
  end.

(** GetSubstitution of ECMAScript for a string pattern (no capture groups):
    in the replacement text, [$$] is a dollar sign, [$&] the matched text,
    [$`] the text before the match and [$'] the text after it; a dollar sign
    followed by anything else stands for itself. *)
Fixpoint GetSubstitution (repl matched before after : string) : string :=
  match repl with
  | EmptyString => EmptyString
  | String a t =>
      if Ascii.eqb a "$" then
        match t with
        | String c r =>
            if Ascii.eqb c "$" then String "$" (GetSubstitution r matched before after)
            else if Ascii.eqb c "&" then matched ++ GetSubstitution r matched before after
            else if Ascii.eqb c "`" then before ++ GetSubstitution r matched before after
            else if Ascii.eqb c "'" then after ++ GetSubstitution r matched before after
            else String "$" (GetSubstitution t matched before after)
        | EmptyString => String "$" EmptyString
        end
      else String a (GetSubstitution t matched before after)
  end.

(** [s.replace(search, repl)] with a string pattern: only the first
    occurrence is replaced, and the replacement text is expanded. *)
Definition replace (s search repl : string) : string :=
  match String.index 0 search s with
  | None => s
  | Some i =>
      let before := String.substring 0 i s in
      let after := substring_from (i + String.length search) s in
      before ++ GetSubstitution repl search before after ++ after
  end.

(** The replacement the caller of [replace] means: the first occurrence of
    [search] becomes [repl], letter for letter. *)
Definition replace_first_literal (s search repl : string) : string :=
  match String.index 0 search s with
  | None => s
  | Some i =>
      String.substring 0 i s ++ repl ++ substring_from (i + String.length search) s
  end.

End JsString.
Export JsString.

(** ** JavaScript values *)

(** The values [JSON.parse] produces, and [undefined]. A number is the
    rational it denotes (JSON has no NaN, and [-0 === 0]). An object is the
    list of its own enumerable properties in the order of [Object.keys], each
    key once; an array is an object whose keys are its indices, with the flag
    set. *)
#[local] Unset Elimination Schemes.
Inductive JVal :=
| JUndefined
| JNull
| JBool (b : bool)
| JNum (q : Qc)
| JStr (s : string)
| JObj (isArray : bool) (props : list (string * JVal)).
#[local] Set Elimination Schemes.

Definition typeof (v : JVal) : string :=
  match v with
  | JUndefined => "undefined"
  | JNull => "object"
  | JBool _ => "boolean"
  | JNum _ => "number"
  | JStr _ => "string"
  | JObj _ _ => "object"
  end.

(** ToBoolean: what [!v], [v && ...] and [v || ...] test. *)
Definition truthy (v : JVal) : bool :=
  match v with
  | JUndefined | JNull => false
  | JBool b => b
  | JNum q => negb (Qc_eq_bool q (Q2Qc 0))
  | JStr s => negb (String.eqb s EmptyString)
  | JObj _ _ => true
  end.

(** [v == null] *)
Definition nullish (v : JVal) : bool :=
  match v with
  | JUndefined | JNull => true
  | _ => false
  end.

(** [a === b]. On two objects [===] compares references, which the values
    here do not carry: it is taken as false (two distinct objects).
    [deepCompare], its only user, then compares the properties, and returns
    true on an object and itself all the same (lemma [deepCompare_refl]). *)
Definition strict_equals (a b : JVal) : bool :=
  match a, b with
  | JUndefined, JUndefined => true
  | JNull, JNull => true
  | JBool x, JBool y => Bool.eqb x y
  | JNum x, JNum y => Qc_eq_bool x y
  | JStr x, JStr y => String.eqb x y
  | _, _ => false
  end.

Fixpoint lookup_prop {A : Type} (key : string) (props : list (string * A)) : option A :=
  match props with
  | [] => None
  | (k, v) :: r => if String.eqb key k then Some v else lookup_prop key r
  end.

(** The own enumerable properties: of a string, its characters by index
    (code units are bytes for ASCII text). *)
Definition own_props (v : JVal) : list (string * JVal) :=
  match v with
  | JObj _ props => props
  | JStr s => imap (fun i c => (pretty i, JStr (String c EmptyString))) (list_ascii_of_string s)
  | _ => []
  end.

Definition Object_keys (v : JVal) : list string := map fst (own_props v).

(** [v[key]] and [v?.[key]]: an own property, the [length] of an array or a
    string, and [undefined] otherwise. Members inherited from a prototype
    also read as [undefined] here; like [undefined], none of them is equal
    to a JSON value. *)
Definition get_prop (v : JVal) (key : string) : JVal :=
  match lookup_prop key (own_props v) with
  | Some x => x
  | None =>
      match v with
      | JObj true props =>
          if String.eqb key "length" then JNum (Q2Qc (inject_Z (Z.of_nat (length props))))
          else JUndefined
      | JStr s =>
          if String.eqb key "length" then JNum (Q2Qc (inject_Z (Z.of_nat (String.length s))))
          else JUndefined
      | _ => JUndefined
      end
  end.

(** [keys.includes(key)] *)
Definition includes (keys : list string) (key : string) : bool :=
  existsb (String.eqb key) keys.

(** [{ ...v }] *)
Definition spread (v : JVal) : JVal := JObj false (own_props v).

(** [{ ...o, key: x }] and [o[key] = x]: the value is replaced where the key
    stands, a new key goes last. *)
Fixpoint set_prop (key : string) (x : JVal) (props : list (string * JVal)) : list (string * JVal) :=
  match props with
  | [] => [(key, x)]
  | (k, v) :: r => if String.eqb key k then (k, x) :: r else (k, v) :: set_prop key x r
  end.

(** ** The diff engine of server.js *)

(** Deep compare function for state diffing. The loop over [keys1] runs over
    the own properties of [obj1], so that [obj1[key]] is the value listed
    beside [key]. *)
Fixpoint deepCompare (obj1 obj2 : JVal) {struct obj1} : bool :=
  if strict_equals obj1 obj2 then true
  else if nullish obj1 || nullish obj2 then false
  else if negb (String.eqb (typeof obj1) (typeof obj2)) then false
  else
    match obj1 with
    | JObj _ props1 =>
        let keys2 := Object_keys obj2 in
        if negb (length props1 =? length keys2)%nat then false
        else
          (fix loop (ps : list (string * JVal)) : bool :=
             match ps with
             | [] => true
             | (key, v1) :: ps' =>
                 if negb (includes keys2 key) then false
                 else if negb (deepCompare v1 (get_prop obj2 key)) then false
                 else loop ps'
             end) props1
    | _ => strict_equals obj1 obj2
    end.

(** [new Set([...a])]: each key once, at its first place. *)
Fixpoint new_Set (seen l : list string) : list string :=
  match l with
  | [] => []
  | k :: r => if includes seen k then new_Set seen r else k :: new_Set (k :: seen) r
  end.

(** Get changed fields between two state objects. [None] is the [null] the
    source returns when nothing changed. [newState[key]] throws a TypeError
    on a [null] or [undefined] newState. The keys of [changes] stand in the
    order in which they are set (JavaScript would list keys that are array
    indices first). *)
Definition getChangedFields (oldState newState : JVal) : Completion (option JVal) :=
  let allKeys :=
    new_Set [] (Object_keys (if truthy oldState then oldState else JObj false [])
                ++ Object_keys (if truthy newState then newState else JObj false [])) in
  let changed :=
    List.filter (fun key => negb (deepCompare (get_prop oldState key) (get_prop newState key))) allKeys in
  match changed with
  | [] => Normal None
  | _ :: _ =>
      if nullish newState then Throw (TypeError "Cannot read properties of null")
      else Normal (Some (JObj false (map (fun key => (key, get_prop newState key)) changed)))
  end.

(** ** The state of the server *)

Definition MAX_LOGS : nat := 1000.
Definition HANDSHAKE_TIMEOUT : Z := 10000.
Definition HEARTBEAT_TIMEOUT : Z := 30000.
Definition default_HANDSHAKE_SECRET : string :=
  "a19a4c53f65a808c627692f29fe68a0cdfd5c2f0845666f67527d9418c00fdc6".

Definition LF : string := String "010"%char EmptyString.
Definition DQ : string := String "034"%char EmptyString.

(** One reading of the clock: [Date.now()], [new Date().toISOString()] and
    [new Date().toLocaleTimeString('en-US', ...)]. A callback runs at one
    instant. *)
Record Clock := { now : Z; toISOString : string; toLocaleTimeString : string }.

(** The net.Socket a connection's callbacks close over. *)
Record Socket := { written : list string; destroyed : bool }.

(** pendingHandshakes[clientId] *)
Record Handshake := { challenge : string; timestamp : Z; authenticated : bool }.

(** clientUsernameStatus[clientId]; [checker] tells whether the interval
    handle is set ([false] is the source's [null]). *)
Record UsernameStatus := { hasUsername : bool; requestSent : bool; checker : bool }.

(** The objects handed to [broadcastToBrowsers], by their [type]. *)
Inductive BrowserEvent :=
| client_connect (id name : string)
| client_disconnect (id : string)
| update_tab_name (id name : string)
| update_status (id field : string) (value : JVal)
| status_update_json (id : string) (status changes : JVal) (timestamp serverTime : string)
| log (id message : string)
| master_log (message : string)
| clear_master_log.

(** A parsed client message: the fields [processJsonMessage] destructures.
    [None] is a field that is absent; the text fields are strings, as the
    protocol has them. *)
Record JsonMessage := {
  m_type : option string;
  m_timestamp : option string;
  m_clientName : option string;
  m_status : JVal;
  m_message : option string;
  m_username : option string
}.

(** The module-level variables of server.js. [sockets] holds the socket of
    each connection by client id (one connection per id); [tcpClients] the
    ids whose socket is registered. [timeouts] holds the handshake timers
    set by [setTimeout] with their due times. Console output and the append
    to the file master.log are not recorded. *)
Record State := mkState {
  sockets : gmap string Socket;
  tcpClients : gset string;
  clientLogs : gmap string (list string);
  clientNames : gmap string string;
  clientStatus : gmap string JVal;
  clientLastHeartbeat : gmap string Z;
  masterLog : list string;
  pendingHandshakes : gmap string Handshake;
  clientStateCache : gmap string JVal;
  clientUsernameStatus : gmap string UsernameStatus;
  timeouts : list (string * Z);
  published : list BrowserEvent
}.

Definition initial_state : State :=
  mkState ∅ ∅ ∅ ∅ ∅ ∅ [] ∅ ∅ ∅ [] [].

Definition set_sockets (f : gmap string Socket -> gmap string Socket) (st : State) : State :=
  mkState (f (sockets st)) (tcpClients st) (clientLogs st) (clientNames st) (clientStatus st)
    (clientLastHeartbeat st) (masterLog st) (pendingHandshakes st) (clientStateCache st)
    (clientUsernameStatus st) (timeouts st) (published st).
Definition set_tcpClients (f : gset string -> gset string) (st : State) : State :=
  mkState (sockets st) (f (tcpClients st)) (clientLogs st) (clientNames st) (clientStatus st)
    (clientLastHeartbeat st) (masterLog st) (pendingHandshakes st) (clientStateCache st)
    (clientUsernameStatus st) (timeouts st) (published st).
Definition set_clientLogs (f : gmap string (list string) -> gmap string (list string))
    (st : State) : State :=
  mkState (sockets st) (tcpClients st) (f (clientLogs st)) (clientNames st) (clientStatus st)
    (clientLastHeartbeat st) (masterLog st) (pendingHandshakes st) (clientStateCache st)
    (clientUsernameStatus st) (timeouts st) (published st).
Definition set_clientNames (f : gmap string string -> gmap string string) (st : State) : State :=
  mkState (sockets st) (tcpClients st) (clientLogs st) (f (clientNames st)) (clientStatus st)
    (clientLastHeartbeat st) (masterLog st) (pendingHandshakes st) (clientStateCache st)
    (clientUsernameStatus st) (timeouts st) (published st).
Definition set_clientStatus (f : gmap string JVal -> gmap string JVal) (st : State) : State :=
  mkState (sockets st) (tcpClients st) (clientLogs st) (clientNames st) (f (clientStatus st))
    (clientLastHeartbeat st) (masterLog st) (pendingHandshakes st) (clientStateCache st)
    (clientUsernameStatus st) (timeouts st) (published st).
Definition set_clientLastHeartbeat (f : gmap string Z -> gmap string Z) (st : State) : State :=
  mkState (sockets st) (tcpClients st) (clientLogs st) (clientNames st) (clientStatus st)
    (f (clientLastHeartbeat st)) (masterLog st) (pendingHandshakes st) (clientStateCache st)
    (clientUsernameStatus st) (timeouts st) (published st).
Definition set_masterLog (f : list string -> list string) (st : State) : State :=
  mkState (sockets st) (tcpClients st) (clientLogs st) (clientNames st) (clientStatus st)
    (clientLastHeartbeat st) (f (masterLog st)) (pendingHandshakes st) (clientStateCache st)
    (clientUsernameStatus st) (timeouts st) (published st).
Definition set_pendingHandshakes (f : gmap string Handshake -> gmap string Handshake)
    (st : State) : State :=
  mkState (sockets st) (tcpClients st) (clientLogs st) (clientNames st) (clientStatus st)
    (clientLastHeartbeat st) (masterLog st) (f (pendingHandshakes st)) (clientStateCache st)
    (clientUsernameStatus st) (timeouts st) (published st).
Definition set_clientStateCache (f : gmap string JVal -> gmap string JVal) (st : State) : State :=
  mkState (sockets st) (tcpClients st) (clientLogs st) (clientNames st) (clientStatus st)
    (clientLastHeartbeat st) (masterLog st) (pendingHandshakes st) (f (clientStateCache st))
    (clientUsernameStatus st) (timeouts st) (published st).
Definition set_clientUsernameStatus
    (f : gmap string UsernameStatus -> gmap string UsernameStatus) (st : State) : State :=
  mkState (sockets st) (tcpClients st) (clientLogs st) (clientNames st) (clientStatus st)
    (clientLastHeartbeat st) (masterLog st) (pendingHandshakes st) (clientStateCache st)
    (f (clientUsernameStatus st)) (timeouts st) (published st).
Definition set_timeouts (f : list (string * Z) -> list (string * Z)) (st : State) : State :=
  mkState (sockets st) (tcpClients st) (clientLogs st) (clientNames st) (clientStatus st)
    (clientLastHeartbeat st) (masterLog st) (pendingHandshakes st) (clientStateCache st)
    (clientUsernameStatus st) (f (timeouts st)) (published st).
Definition set_published (f : list BrowserEvent -> list BrowserEvent) (st : State) : State :=
  mkState (sockets st) (tcpClients st) (clientLogs st) (clientNames st) (clientStatus st)
    (clientLastHeartbeat st) (masterLog st) (pendingHandshakes st) (clientStateCache st)
    (clientUsernameStatus st) (timeouts st) (f (published st)).

(** [socket.write(data)] and [socket.destroy()] on the socket of a
    connection. A destroyed socket sends nothing more. *)
Definition socket_write (clientId data : string) (st : State) : State :=
  set_sockets (alter (fun s => if destroyed s then s
                               else {| written := written s ++ [data]; destroyed := false |})
                 clientId) st.
Definition socket_destroy (clientId : string) (st : State) : State :=
  set_sockets (alter (fun s => {| written := written s; destroyed := true |}) clientId) st.

(** ** Helpers of server.js *)

Local Open Scope string_scope.

(** [`${x}`] of a name read from a map: the text [undefined] when absent. *)
Definition template (x : option string) : string := default "undefined" x.

(** [v || fallback] on a text that may be absent or empty. *)
Definition or_else (x : option string) (fallback : string) : string :=
  match x with
  | Some s => if String.eqb s EmptyString then fallback else s
  | None => fallback
  end.

(** The fan-out to the open observers: the event is appended to the trace. *)
Definition broadcastToBrowsers (obj : BrowserEvent) (st : State) : State :=
  set_published (fun p => (p ++ [obj])%list) st.

(** [arr.push(msg); if (arr.length > MAX_LOGS) arr.shift();] *)
Definition push_shift (arr : list string) (msg : string) : list string :=
  let arr' := (arr ++ [msg])%list in
  if decide (MAX_LOGS < length arr')%nat then tail arr' else arr'.

Definition addClientLog (id msg : string) (st : State) : State :=
  let arr := default [] (clientLogs st !! id) in
  let st := set_clientLogs <[id := push_shift arr msg]> st in
  broadcastToBrowsers (log id msg) st.

(** [clientId = null] is [None]. *)
Definition addMasterLog (t : Clock) (msg : string) (clientId : option string) (st : State) : State :=
  let msg :=
    match clientId with
    | Some id =>
        if String.eqb id EmptyString then msg
        else match clientNames st !! id with
             | Some name => if String.eqb name EmptyString then msg else replace msg id name
             | None => msg
             end
    | None => msg
    end in
  let logEntry := "[" ++ toLocaleTimeString t ++ "] " ++ msg in
  let st := set_masterLog (fun l => push_shift l logEntry) st in
  broadcastToBrowsers (master_log logEntry) st.

Definition clearMasterLog (st : State) : State :=
  broadcastToBrowsers clear_master_log (set_masterLog (fun _ => []) st).

Definition default_status : JVal :=
  JObj false [("loaded", JBool false); ("logged", JBool false);
              ("scriptRunning", JBool false); ("loadedScript", JStr EmptyString)].

Definition updateStatus (id field : string) (value : JVal) (st : State) : State :=
  let cur := default default_status (clientStatus st !! id) in
  let st := set_clientStatus <[id := JObj false (set_prop field value (own_props cur))]> st in
  broadcastToBrowsers (update_status id field value) st.

Definition stopUsernameChecker (clientId : string) (st : State) : State :=
  match clientUsernameStatus st !! clientId with
  | Some status =>
      if checker status then
        let st := set_clientUsernameStatus
                    <[clientId := {| hasUsername := hasUsername status;
                                     requestSent := requestSent status;
                                     checker := false |}]> st in
        addClientLog clientId "[Username checker stopped]" st
      else st
  | None => st
  end.

Definition cleanupClient (id : string) (st : State) : State :=
  let st := set_tcpClients (fun s => s ∖ {[id]}) st in
  let st := set_clientLogs (delete id) st in
  let st := set_clientNames (delete id) st in
  let st := set_clientStatus (delete id) st in
  let st := set_clientLastHeartbeat (delete id) st in
  let st := set_pendingHandshakes (delete id) st in
  let st := set_clientStateCache (delete id) st in
  let st := stopUsernameChecker id st in
  set_clientUsernameStatus (delete id) st.

Definition isClientAuthenticated (clientId : string) (st : State) : bool :=
  match pendingHandshakes st !! clientId with
  | Some handshake => authenticated handshake
  | None => false
  end.

(** ** Status updates *)

Definition defined (v : JVal) : bool :=
  match v with
  | JUndefined => false
  | _ => true
  end.

Definition update_if_changed (clientId field : string) (changes : JVal) (st : State) : State :=
  if defined (get_prop changes field) then updateStatus clientId field (get_prop changes field) st else st.

(** [keys.join(', ')] *)
Fixpoint join_comma (keys : list string) : string :=
  match keys with
  | [] => EmptyString
  | [k] => k
  | k :: r => k ++ ", " ++ join_comma r
  end.

(** Handle status update with caching and diffing. [getChangedFields] does
    not throw here, [newStatus] being truthy (lemma
    [getChangedFields_returns]). *)
Definition handleStatusUpdate (t : Clock) (clientId : string) (newStatus : JVal)
    (timestamp : option string) (st : State) : State :=
  if negb (truthy newStatus) then addClientLog clientId "[Status update - no status data]" st
  else
    let oldStatus := default (JObj false []) (clientStateCache st !! clientId) in
    match getChangedFields oldStatus newStatus with
    | Throw _ => st
    | Normal None => addClientLog clientId "[Status update - no changes detected]" st
    | Normal (Some changes) =>
        let st := set_clientStateCache <[clientId := spread newStatus]> st in
        let st := update_if_changed clientId "loaded" changes st in
        let st := update_if_changed clientId "logged" changes st in
        let st := update_if_changed clientId "scriptRunning" changes st in
        let st := update_if_changed clientId "loadedScript" changes st in
        let st := broadcastToBrowsers
                    (status_update_json clientId newStatus changes
                       (or_else timestamp (toISOString t)) (toISOString t)) st in
        addClientLog clientId
          ("[Status updated - Changes: " ++ join_comma (Object_keys changes) ++ "]") st
    end.

(** ** The username poller *)

Definition username_request (t : Clock) : string :=
  "{" ++ DQ ++ "type" ++ DQ ++ ":" ++ DQ ++ "username_request" ++ DQ ++ ","
      ++ DQ ++ "protocolVersion" ++ DQ ++ ":" ++ DQ ++ "1.0" ++ DQ ++ ","
      ++ DQ ++ "timestamp" ++ DQ ++ ":" ++ DQ ++ toISOString t ++ DQ ++ "}".

Definition sendUsernameRequest (t : Clock) (clientId : string) (st : State) : State * bool :=
  if negb (bool_decide (clientId ∈ tcpClients st)) || negb (isClientAuthenticated clientId st)
  then (st, false)
  else
    let st := socket_write clientId (username_request t ++ LF) st in
    (addClientLog clientId "[Server requested username from client]" st, true).

Definition startUsernameChecker (clientId : string) (st : State) : State :=
  match clientUsernameStatus st !! clientId with
  | Some {| checker := true |} => st
  | _ =>
      let st := set_clientUsernameStatus
                  <[clientId := {| hasUsername := false; requestSent := false;
                                   checker := true |}]> st in
      addClientLog clientId "[Started username monitoring]" st
  end.

(** The callback of the one-second interval of [startUsernameChecker]. The
    interval of a client is live exactly while its status has [checker] set:
    on any other state the callback does not run. *)
Definition usernameCheckerTick (t : Clock) (clientId : string) (st : State) : State :=
  match clientUsernameStatus st !! clientId with
  | Some status =>
      if negb (checker status) then st
      else if hasUsername status then
        let st := set_clientUsernameStatus
                    <[clientId := {| hasUsername := true; requestSent := requestSent status;
                                     checker := false |}]> st in
        addClientLog clientId "[Username checker stopped - username received]" st
      else if negb (requestSent status) then
        let '(st, sent) := sendUsernameRequest t clientId st in
        if sent then
          let st := set_clientUsernameStatus
                      <[clientId := {| hasUsername := false; requestSent := true;
                                       checker := true |}]> st in
          addClientLog clientId "[Username request sent to client]" st
        else st
      else st
  | None => st
  end.

Definition handleUsernameResponse (clientId : string) (username : option string)
    (st : State) : State :=
  match username with
  | None => addClientLog clientId "[Username response received but empty]" st
  | Some username =>
      if String.eqb username EmptyString
      then addClientLog clientId "[Username response received but empty]" st
      else
        let oldName := clientNames st !! clientId in
        let st := set_clientNames <[clientId := username]> st in
        let st := set_clientUsernameStatus
                    (alter (fun s => {| hasUsername := true; requestSent := requestSent s;
                                        checker := checker s |}) clientId) st in
        let st := addClientLog clientId ("[Username received]: " ++ username) st in
        if bool_decide (oldName = Some username) then st
        else
          let st := broadcastToBrowsers (update_tab_name clientId username) st in
          addClientLog clientId
            ("[Tab name updated]: " ++ template oldName ++ " -> " ++ username) st
  end.

(** ** Client messages *)

(** [case 'name':] of the [switch (type)]. *)
Definition type_is (type : option string) (name : string) : bool :=
  match type with
  | Some s => String.eqb s name
  | None => false
  end.

(** Update client name if provided. *)
Definition updateClientName (clientId : string) (clientName : option string) (st : State) : State :=
  match clientName with
  | Some clientName =>
      if negb (String.eqb clientName EmptyString)
         && negb (bool_decide (clientNames st !! clientId = Some clientName))
      then broadcastToBrowsers (update_tab_name clientId clientName)
             (set_clientNames <[clientId := clientName]> st)
      else st
  | None => st
  end.

(** Process JSON message from client. *)
Definition processJsonMessage (t : Clock) (clientId : string) (jsonData : JsonMessage)
    (st : State) : State :=
  let st := updateClientName clientId (m_clientName jsonData) st in
  let type := m_type jsonData in
  if type_is type "status_update" then
    handleStatusUpdate t clientId (m_status jsonData) (m_timestamp jsonData) st
  else if type_is type "heartbeat" then set_clientLastHeartbeat <[clientId := now t]> st
  else if type_is type "username_response" then
    handleUsernameResponse clientId (m_username jsonData) st
  else if type_is type "log" then
    match m_message jsonData with
    | Some message =>
        if String.eqb message EmptyString then st else addClientLog clientId message st
    | None => st
    end
  else addClientLog clientId ("[Unknown JSON message type]: " ++ template type) st.

Definition legacy_message (t : Clock) (type : string) (clientName : option string)
    (status : JVal) (message : option string) : JsonMessage :=
  {| m_type := Some type; m_timestamp := Some (toISOString t); m_clientName := clientName;
     m_status := status; m_message := message; m_username := None |}.

(** [message.split(':')[1].trim().toLowerCase() === 'true'] *)
Definition legacy_flag (message : string) : JVal :=
  JBool (String.eqb (toLowerCase (trim (nth 1 (split_colon message) EmptyString))) "true").

(** Convert legacy command to JSON format (for backward compatibility). *)
Definition convertLegacyToJson (t : Clock) (clientId message : string) (st : State) : JsonMessage :=
  let currentStatus := default default_status (clientStateCache st !! clientId) in
  let with_field key v := JObj false (set_prop key v (own_props currentStatus)) in
  if startsWith message "$ClientName:" then
    let clientName := trim (substring_from (String.length "$ClientName:") message) in
    legacy_message t "status_update" (Some clientName) currentStatus None
  else if startsWith message "$IsLoaded:" then
    legacy_message t "status_update" None (with_field "loaded" (legacy_flag message)) None
  else if startsWith message "$IsLogged:" then
    legacy_message t "status_update" None (with_field "logged" (legacy_flag message)) None
  else if startsWith message "$IsScriptRunning:" then
    legacy_message t "status_update" None (with_field "scriptRunning" (legacy_flag message)) None
  else if startsWith message "$LoadedScript:" then
    let loadedScript := trim (substring_from (String.length "$LoadedScript:") message) in
    legacy_message t "status_update" None (with_field "loadedScript" (JStr loadedScript)) None
  else if String.eqb message "$Heartbeat" then
    legacy_message t "heartbeat" None JUndefined None
  else
    legacy_message t "log" None JUndefined (Some message).

(** ** The handshake and the TCP server *)

Section Server.

(** [JSON.parse(msg)] followed by the destructuring of the message: [None]
    when either throws (the [catch] of the data handler). *)
Variable JSON_parse : string -> option JsonMessage.

(** [process.env.HANDSHAKE_SECRET || '...'] *)
Variable HANDSHAKE_SECRET : string.

(** The [random32] bytes are those [crypto.randomBytes(32)] returns. *)
Definition startHandshake (t : Clock) (clientId : string) (random32 : list Z)
    (st : State) : State :=
  let challenge := generateChallenge random32 in
  let st := set_pendingHandshakes
              <[clientId := {| challenge := challenge; timestamp := now t;
                               authenticated := false |}]> st in
  let st := socket_write clientId ("$HandshakeChallenge:" ++ challenge ++ LF) st in
  let st := addMasterLog t ("Handshake challenge sent to " ++ clientId) (Some clientId) st in
  set_timeouts (fun l => (l ++ [(clientId, now t + HANDSHAKE_TIMEOUT)])%list) st.

(** The callback [startHandshake] hands to [setTimeout]. *)
Definition handshakeTimeout (t : Clock) (clientId : string) (st : State) : State :=
  match pendingHandshakes st !! clientId with
  | Some {| authenticated := false |} =>
      let st := addMasterLog t ("Handshake timeout for " ++ clientId) (Some clientId) st in
      let st := socket_destroy clientId st in
      let st := cleanupClient clientId st in
      broadcastToBrowsers (client_disconnect clientId) st
  | _ => st
  end.

Definition processHandshakeResponse (t : Clock) (clientId response : string) (st : State)
    : Completion (State * bool) :=
  match pendingHandshakes st !! clientId with
  | None =>
      let st := addMasterLog t ("Unexpected handshake response from " ++ clientId)
                  (Some clientId) st in
      Normal (socket_destroy clientId st, false)
  | Some handshake =>
      if decide (now t - timestamp handshake > HANDSHAKE_TIMEOUT) then
        let st := addMasterLog t ("Handshake response too late from " ++ clientId)
                    (Some clientId) st in
        let st := socket_destroy clientId st in
        let st := cleanupClient clientId st in
        Normal (broadcastToBrowsers (client_disconnect clientId) st, false)
      else
        match isValidHandshakeResponse (challenge handshake) response HANDSHAKE_SECRET with
        | Throw e => Throw e
        | Normal true =>
            let st := set_pendingHandshakes
                        <[clientId := {| challenge := challenge handshake;
                                         timestamp := timestamp handshake;
                                         authenticated := true |}]> st in
            let st := socket_write clientId ("$HandshakeSuccess" ++ LF) st in
            let st := addMasterLog t ("Handshake successful for " ++ clientId)
                        (Some clientId) st in
            Normal (startUsernameChecker clientId st, true)
        | Normal false =>
            let st := addMasterLog t ("Handshake failed for " ++ clientId ++ " - invalid response")
                        (Some clientId) st in
            let st := socket_destroy clientId st in
            let st := cleanupClient clientId st in
            Normal (broadcastToBrowsers (client_disconnect clientId) st, false)
        end
  end.

(** [net.createServer((socket) => ...)]: a connection is accepted. *)
Definition onConnection (t : Clock) (clientId : string) (random32 : list Z) (st : State) : State :=
  let st := set_sockets <[clientId := {| written := []; destroyed := false |}]> st in
  let st := set_tcpClients (fun s => {[clientId]} ∪ s) st in
  let st := set_clientNames <[clientId := clientId]> st in
  let st := set_clientStatus <[clientId := default_status]> st in
  let st := set_clientLastHeartbeat <[clientId := now t]> st in
  let st := addClientLog clientId
              ("[Client " ++ template (clientNames st !! clientId)
                 ++ " connected - awaiting handshake]") st in
  let st := addMasterLog t ("Client connected: " ++ clientId ++ " - initiating handshake")
              (Some clientId) st in
  let st := broadcastToBrowsers
              (client_connect clientId (template (clientNames st !! clientId))) st in
  startHandshake t clientId random32 st.

(** The body of [lines.forEach(msg => ...)] in the 'data' handler: [msg] is
    one trimmed, non-empty line. *)
Definition onLine (t : Clock) (clientId msg : string) (st : State) : Completion State :=
  if startsWith msg "$HandshakeResponse:" then
    let response := trim (substring_from (String.length "$HandshakeResponse:") msg) in
    match processHandshakeResponse t clientId response st with
    | Normal (st, _) => Normal st
    | Throw e => Throw e
    end
  else if negb (isClientAuthenticated clientId st) then
    Normal (addClientLog clientId ("[Unauthenticated message rejected]: " ++ msg) st)
  else
    match JSON_parse msg with
    | Some jsonData => Normal (processJsonMessage t clientId jsonData st)
    | None =>
        let legacyJson := convertLegacyToJson t clientId msg st in
        Normal (processJsonMessage t clientId legacyJson st)
    end.

(** [socket.on('data', ...)] on the lines of one buffer; an exception ends
    the loop and leaves the handler. *)
Fixpoint onData (t : Clock) (clientId : string) (lines : list string) (st : State)
    : Completion State :=
  match lines with
  | [] => Normal st
  | msg :: rest =>
      match onLine t clientId msg st with
      | Normal st => onData t clientId rest st
      | Throw e => Throw e
      end
  end.

(** [socket.on('close', ...)] *)
Definition onClose (t : Clock) (clientId : string) (st : State) : State :=
  let st := addClientLog clientId
              ("[Client " ++ template (clientNames st !! clientId) ++ " disconnected]") st in
  let st := addMasterLog t ("Client disconnected: " ++ clientId) (Some clientId) st in
  let st := broadcastToBrowsers (client_disconnect clientId) st in
  cleanupClient clientId st.

(** [socket.on('error', ...)] *)
Definition onError (clientId err : string) (st : State) : State :=
  addClientLog clientId
    ("[Client " ++ template (clientNames st !! clientId) ++ " error] " ++ err) st.

(** Heartbeat monitor (30s timeout) - only for authenticated clients. The
    ids are visited in the order of [elements]; the visits of two ids touch
    different entries and differ only in where their events fall. *)
Definition heartbeatVisit (t : Clock) (st : State) (id : string) : State :=
  if isClientAuthenticated id st
     && bool_decide (now t - default 0 (clientLastHeartbeat st !! id) > HEARTBEAT_TIMEOUT)
  then
    let st := addMasterLog t ("Client timeout: " ++ id) (Some id) st in
    let st := socket_destroy id st in
    let st := cleanupClient id st in
    broadcastToBrowsers (client_disconnect id) st
  else st.

Definition heartbeatMonitor (t : Clock) (st : State) : State :=
  fold_left (heartbeatVisit t) (elements (tcpClients st)) st.

(** Clean up expired handshakes. The entries are those of the map when the
    sweep starts; a visit removes no entry but its own. *)
Definition handshakeVisit (t : Clock) (st : State) (entry : string * Handshake) : State :=
  let '(id, handshake) := entry in
  if negb (authenticated handshake)
     && bool_decide (now t - timestamp handshake > HANDSHAKE_TIMEOUT)
  then
    let st := if bool_decide (id ∈ tcpClients st) then socket_destroy id st else st in
    let st := cleanupClient id st in
    broadcastToBrowsers (client_disconnect id) st
  else st.

Definition handshakeSweep (t : Clock) (st : State) : State :=
  fold_left (handshakeVisit t) (map_to_list (pendingHandshakes st)) st.

(** The messages of an observer (the WebSocket 'message' handler). *)
Inductive ObserverMessage :=
| send_to_client (id : string) (message : option string)
| request_username (id : string)
| clear_master_log_request.

Definition onObserverMessage (t : Clock) (data : ObserverMessage) (st : State) : State :=
  match data with
  | send_to_client id message =>
      if bool_decide (id ∈ tcpClients st) then
        let st := socket_write id (or_else message EmptyString ++ LF) st in
        addClientLog id
          ("[Server -> " ++ or_else (clientNames st !! id) id ++ "]: " ++ template message) st
      else st
  | request_username clientId =>
      if bool_decide (clientId ∈ tcpClients st) && isClientAuthenticated clientId st then
        let '(st, sent) := sendUsernameRequest t clientId st in
        if sent
        then addMasterLog t ("Manual username request sent to " ++ clientId) (Some clientId) st
        else addMasterLog t ("Failed to send username request to " ++ clientId) (Some clientId) st
      else st
  | clear_master_log_request => clearMasterLog st
  end.

End Server.

(** ** Runs of the server *)

(** What the event loop delivers: each event runs one callback to its end.
    Node emits 'close' once for every socket, when the peer has closed it or
    after [socket.destroy()]: [EClose] follows every destroy. *)
Inductive Event :=
| EConnection (clientId : string) (random32 : list Z)
| EData (clientId : string) (lines : list string)
| EClose (clientId : string)
| EError (clientId err : string)
| EHandshakeTimeout (clientId : string)
| EHeartbeatMonitor
| EHandshakeSweep
| EUsernameTick (clientId : string)
| EObserver (data : ObserverMessage).

Definition handle (JSON_parse : string -> option JsonMessage) (secret : string)
    (t : Clock) (e : Event) (st : State) : Completion State :=
  match e with
  | EConnection clientId random32 => Normal (onConnection t clientId random32 st)
  | EData clientId lines => onData JSON_parse secret t clientId lines st
  | EClose clientId => Normal (onClose t clientId st)
  | EError clientId err => Normal (onError clientId err st)
  | EHandshakeTimeout clientId => Normal (handshakeTimeout t clientId st)
  | EHeartbeatMonitor => Normal (heartbeatMonitor t st)
  | EHandshakeSweep => Normal (handshakeSweep t st)
  | EUsernameTick clientId => Normal (usernameCheckerTick t clientId st)
  | EObserver data => Normal (onObserverMessage t data st)
  end.

(** An exception that leaves a callback is uncaught: the run ends there. *)
Fixpoint run (JSON_parse : string -> option JsonMessage) (secret : string)
    (trace : list (Clock * Event)) (st : State) : Completion State :=
  match trace with
  | [] => Normal st
  | (t, e) :: rest =>
      match handle JSON_parse secret t e st with
      | Normal st => run JSON_parse secret rest st
      | Throw x => Throw x
      end
  end.

(** ** Vocabulary of the properties *)

Definition is_byte (b : Z) : Prop := 0 <= b < 256.

(** Bit [i] of a buffer flipped: bit [i mod 8] of byte [i / 8]. *)
Definition flip_bit (i : nat) (bs : list Z) : list Z :=
  alter (fun b => Z.lxor b (2 ^ Z.of_nat (i mod 8))) (i / 8)%nat bs.

(** Bit [k] of character [i] of a text flipped. *)
Definition flip_char_bit (i : nat) (k : Z) (s : string) : string :=
  string_of_bytes (alter (fun b => Z.lxor b (2 ^ k)) i (bytes_of_string s)).

(** Each key once, in every object of the value. *)
Fixpoint well_formed (v : JVal) : bool :=
  match v with
  | JObj _ props =>
      bool_decide (NoDup (map fst props))
      && (fix all (ps : list (string * JVal)) : bool :=
            match ps with
            | [] => true
            | (_, x) :: ps' => well_formed x && all ps'
            end) props
  | _ => true
  end.


Definition is_status_update_json (id : string) (e : BrowserEvent) : bool :=
  match e with
  | status_update_json id' _ _ _ _ => String.eqb id id'
  | _ => false
  end.

Definition is_client_disconnect (id : string) (e : BrowserEvent) : bool :=
  match e with
  | client_disconnect id' => String.eqb id id'
  | _ => false
  end.

Definition count_events (p : BrowserEvent -> bool) (l : list BrowserEvent) : nat :=
  length (List.filter p l).

(** No map of the server holds an entry for the client any more (the log,
    which [stopUsernameChecker] may write once more, apart). *)
Definition evicted (id : string) (st : State) : Prop :=
  (id ∉ tcpClients st)
  ∧ clientNames st !! id = None
  ∧ clientStatus st !! id = None
  ∧ clientLastHeartbeat st !! id = None
  ∧ pendingHandshakes st !! id = None
  ∧ clientStateCache st !! id = None
  ∧ clientUsernameStatus st !! id = None.

Definition socket_destroyed (id : string) (st : State) : Prop :=
  ∀ s, sockets st !! id = Some s → destroyed s = true.

Definition logs_bounded (st : State) : Prop :=
  (∀ id l, clientLogs st !! id = Some l → (length l <= MAX_LOGS)%nat)
  ∧ (length (masterLog st) <= MAX_LOGS)%nat.




(** The keys on which two states differ, in the order [getChangedFields]
    meets them. *)
Definition changed_keys (oldState newState : JVal) : list string :=
  List.filter (fun key => negb (deepCompare (get_prop oldState key) (get_prop newState key)))
    (new_Set [] (Object_keys oldState ++ Object_keys newState)).

Definition changes_of (newState : JVal) (keys : list string) : JVal :=
  JObj false (map (fun key => (key, get_prop newState key)) keys).

Definition cached (id : string) (st : State) : JVal :=
  default (JObj false []) (clientStateCache st !! id).

(** The last [n] entries of a log. *)
Definition keep_last {A : Type} (n : nat) (l : list A) : list A := drop (length l - n) l.

(** The [client_disconnect] events published for a client. *)
Definition disconnects (id : string) (st : State) : nat :=
  count_events (is_client_disconnect id) (published st).

(** ** Example inputs *)

(** The clock [sec] seconds (below 60) after the epoch, as the server reads
    it: UTC for [toISOString], America/Chicago for the master log. *)
Definition two_digits (n : nat) : string :=
  if decide (n < 10)%nat then "0" ++ pretty n else pretty n.
Definition clock_s (sec : nat) : Clock :=
  {| now := 1000 * Z.of_nat sec;
     toISOString := "1970-01-01T00:00:" ++ two_digits sec ++ ".000Z";
     toLocaleTimeString := "18:00:" ++ two_digits sec |}.

Definition example_id : string := "10.0.0.5:4000".
Definition example_random : list Z := repeat 7 32.
Definition example_challenge : string := generateChallenge example_random.
Definition example_response : string :=
  computeHandshakeResponse example_challenge default_HANDSHAKE_SECRET.

(** A client has connected at 0 s and has its challenge. *)
Definition st_connected : State :=
  onConnection (clock_s 0) example_id example_random initial_state.

(** It has answered the challenge at 1 s. *)
Definition st_authenticated : State :=
  match processHandshakeResponse default_HANDSHAKE_SECRET (clock_s 1) example_id
          example_response st_connected with
  | Normal (st, _) => st
  | Throw _ => st_connected
  end.

(** 1001 lines, and a client that has no log yet. *)
Definition example_lines : list string := map (fun n => "line " ++ pretty n) (seq 0 1001).
Definition other_id : string := "10.0.0.9:5000".

(** The authenticated client has sent [$ClientName:$&] at 2 s. *)
Definition st_dollar_name : State :=
  processJsonMessage (clock_s 2) example_id
    (convertLegacyToJson (clock_s 2) example_id "$ClientName:$&" st_authenticated)
    st_authenticated.

Fixpoint has_dollar (s : string) : bool :=
  match s with
  | EmptyString => false
  | String c r => Ascii.eqb c "$" || has_dollar r
  end.

(** It sends the same, correct, handshake response once more at 12 s. *)
Definition second_response_line : string := "$HandshakeResponse:" ++ example_response.

(** The connected client never answers: its timer fires at 10 s, then the
    close handler of the destroyed socket runs. *)
Definition st_timed_out : State :=
  onClose (clock_s 10) example_id (handshakeTimeout (clock_s 10) example_id st_connected).



(** Status updates of the authenticated client, each delivered twice: an
    empty status object, and one with [loaded] set. *)
Definition status_message (status : JVal) : JsonMessage :=
  {| m_type := Some "status_update"; m_timestamp := None; m_clientName := None;
     m_status := status; m_message := None; m_username := None |}.

(** A full status with a field the server does not know, cached for the
    authenticated client, and the same status with two fields changed. *)
Definition full_status (loaded scriptRunning : bool) : JVal :=
  JObj false [("loaded", JBool loaded); ("logged", JBool false);
              ("scriptRunning", JBool scriptRunning); ("loadedScript", JStr "farm.cs");
              ("extra", JObj false [("level", JNum (Q2Qc 7))])].
Definition st_full_status : State :=
  processJsonMessage (clock_s 2) example_id (status_message (full_status false false))
    st_authenticated.

(** ** Proof tools *)

(** Reads a field through the setters. *)
Ltac fields :=
  cbn [sockets tcpClients clientLogs clientNames clientStatus clientLastHeartbeat masterLog
       pendingHandshakes clientStateCache clientUsernameStatus timeouts published
       set_sockets set_tcpClients set_clientLogs set_clientNames set_clientStatus
       set_clientLastHeartbeat set_masterLog set_pendingHandshakes set_clientStateCache
       set_clientUsernameStatus set_timeouts set_published].

Create HintDb logs.

(** Unfolds one function of the server and follows its branches. *)
Ltac bounded f :=
  intros; unfold f; cbv zeta; repeat case_match; eauto 20 with logs.

(** ** Further example inputs *)

(** A run: the client connects, answers its challenge, names itself, sends
    a status, a heartbeat and free text; the poller ticks; the sweeps run. *)
Definition example_trace : list (Clock * Event) :=
  [(clock_s 0, EConnection example_id example_random);
   (clock_s 1, EData example_id [second_response_line; "$ClientName:Alice"]);
   (clock_s 2, EUsernameTick example_id);
   (clock_s 3, EData example_id ["$IsLoaded:true"; "$Heartbeat"; "hello there"]);
   (clock_s 5, EHeartbeatMonitor);
   (clock_s 5, EHandshakeSweep);
   (clock_s 10, EHandshakeTimeout example_id)].
Definition st_example_run : State :=
  match run (fun _ => None) default_HANDSHAKE_SECRET example_trace initial_state with
  | Normal st => st
  | Throw _ => initial_state
  end.

(** ** Further vocabulary *)

(** What the server holds for one client: whether its socket is registered,
    the socket, and its entry in each of the per-client maps. *)
Definition client_entries (id : string) (st : State) :=
  (bool_decide (id ∈ tcpClients st), sockets st !! id, clientLogs st !! id,
   clientNames st !! id, clientStatus st !! id, clientLastHeartbeat st !! id,
   pendingHandshakes st !! id, clientStateCache st !! id, clientUsernameStatus st !! id).

(** The client an event concerns: the connection whose callback runs, or
    the client an observer names. The two sweeps and the clearing of the
    master log concern no client in particular. *)
Definition addressed_to (e : Event) : option string :=
  match e with
  | EConnection clientId _ | EData clientId _ | EClose clientId | EError clientId _
  | EHandshakeTimeout clientId | EUsernameTick clientId => Some clientId
  | EObserver (send_to_client id _) | EObserver (request_username id) => Some id
  | EHeartbeatMonitor | EHandshakeSweep | EObserver clear_master_log_request => None
  end.




(** A printable ASCII character other than the space, as a byte. *)
Definition graphic (b : Z) : bool := ((33 <=? b) && (b <=? 126))%Z.

(** Whether the one-second interval of the username poller is set. *)
Definition checker_live (id : string) (st : State) : bool :=
  match clientUsernameStatus st !! id with
  | Some status => checker status
  | None => false
  end.


(** ** The lines of a buffer *)

(** [s.split(sep)] for a separator of one character. *)
Definition prepend (c : ascii) (l : list string) : list string :=
  match l with
  | h :: t => String c h :: t
  | [] => [String c EmptyString]
  end.

Fixpoint split_on (sep : ascii) (s : string) : list string :=
  match s with
  | EmptyString => [EmptyString]
  | String c r =>
      if Ascii.eqb c sep then EmptyString :: split_on sep r else prepend c (split_on sep r)
  end.

Definition CRc : ascii := "013"%char.
Definition LFc : ascii := "010"%char.

(** [s.split(/\r?\n/)]: the text is cut at every line feed, and a carriage
    return that stands just before the line feed goes with it. *)
Fixpoint split_lines (s : string) : list string :=
  match s with
  | EmptyString => [EmptyString]
  | String c r =>
      if Ascii.eqb c LFc then EmptyString :: split_lines r
      else if Ascii.eqb c CRc then
        match r with
        | String c' r' =>
            if Ascii.eqb c' LFc then EmptyString :: split_lines r'
            else prepend c (split_lines r)
        | EmptyString => prepend c (split_lines r)
        end
      else prepend c (split_lines r)
  end.

(** [buf.toString().split(/\r?\n/).map(s => s.trim()).filter(Boolean)]: the
    text of the buffer is its bytes. *)
Definition lines_of (buf : string) : list string :=
  List.filter (fun s => negb (String.eqb s EmptyString)) (map trim (split_lines buf)).

(** [socket.on('data', (buf) => ...)] *)
Definition onBuffer (JSON_parse : string -> option JsonMessage) (secret : string)
    (t : Clock) (clientId buf : string) (st : State) : Completion State :=
  onData JSON_parse secret t clientId (lines_of buf) st.

(** [trim] on the bytes of a text. *)
Definition trim_bytes (bs : list Z) : list Z :=
  let b1 := strip ws_head (length bs) bs in
  rev (strip ws_last (length b1) (rev b1)).

(** Two texts that are equal, or differ by a carriage return at the end of
    the second. *)
Definition up_to_CR (h1 h2 : string) : Prop :=
  h2 = h1 \/ h2 = h1 ++ String CRc EmptyString.


(** ** The users of the HTTP interface *)

(** A plain object with text values, by its own properties in the order of
    insertion. [obj[key] = value] replaces the value where the key stands
    and puts a new key last; the key [__proto__] names the prototype, and
    assigning a text to it creates no property. *)
Fixpoint assign (key value : string) (obj : list (string * string)) : list (string * string) :=
  match obj with
  | [] => [(key, value)]
  | (k, v) :: r => if String.eqb key k then (k, value) :: r else (k, v) :: assign key value r
  end.

Definition obj_set (key value : string) (obj : list (string * string)) : list (string * string) :=
  if String.eqb key "__proto__" then obj else assign key value obj.

(** [parts.join(sep)] *)
Fixpoint join_with (sep : string) (parts : list string) : string :=
  match parts with
  | [] => EmptyString
  | [p] => p
  | p :: r => p ++ sep ++ join_with sep r
  end.

(** [s.endsWith(suffix)] *)
Definition endsWith (s suffix : string) : bool :=
  (String.length suffix <=? String.length s)%nat
  && String.eqb (substring_from (String.length s - String.length suffix) s) suffix.

(** The body of the [forEach] of [parseEnvFile]. *)
Definition parseEnvLine (env : list (string * string)) (line : string) : list (string * string) :=
  let line := trim line in
  if negb (String.eqb line EmptyString) && negb (startsWith line "#") then
    match split_on "=" line with
    | key :: valueParts =>
        if negb (String.eqb key EmptyString) && (0 <? length valueParts)%nat
        then obj_set key (join_with "=" valueParts) env
        else env
    | [] => env
    end
  else env.

(** Parse .env file dynamically. [content] is the text of the file, [None]
    when the file does not exist. *)
Definition parseEnvFile (content : option string) : list (string * string) :=
  match content with
  | None => []
  | Some content => fold_left parseEnvLine (split_on LFc content) []
  end.

(** [writeEnvFile] of manage_users.js: the text written to the file, for the
    entries of the object in the order of [Object.entries]. *)
Definition env_line (kv : string * string) : string := fst kv ++ "=" ++ snd kv.

Definition writeEnvFile (entries : list (string * string)) : string :=
  join_with LF
    ("# Authentication credentials (hashed passwords)"
     :: (map env_line entries ++ [EmptyString])%list).

(** The body of the [forEach] of [loadUsers]. The keys it acts on end in
    [_USERNAME]: none is an array index, so that [Object.keys] lists them in
    the order of insertion. *)
Definition loadUser (env users : list (string * string)) (key : string) : list (string * string) :=
  if endsWith key "_USERNAME" then
    let prefix := replace key "_USERNAME" EmptyString in
    let passwordKey := prefix ++ "_PASSWORD_HASH" in
    match lookup_prop passwordKey env with
    | Some hash =>
        if String.eqb hash EmptyString then users
        else obj_set (default EmptyString (lookup_prop key env)) hash users
    | None => users
    end
  else users.

Definition hardcoded_users : list (string * string) :=
  [("admin", "$2b$12$YjgksSv2iJyckrok0TbAwu6zQcnreHBfmn2/6UDE13GYoiz1M8Hbm");
   ("user", "$2b$12$CAV5n30mnmN.zvW2Yv7/1e/YemAXybHTxEiZCXoxHb1m87OS4GUTO")].

(** Dynamically load users from .env file. *)
Definition loadUsers (content : option string) : list (string * string) :=
  let env := parseEnvFile content in
  let users := fold_left (loadUser env) (map fst env) [] in
  if (length users =? 0)%nat then hardcoded_users else users.

(** An entry that [writeEnvFile] writes as a line which [parseEnvFile]
    reads back: the key is not empty, is not [__proto__], does not start a
    comment and holds no equals sign; neither holds a line feed; and the
    line has no white space at its ends. *)
Definition clean_entry (kv : string * string) : Prop :=
  fst kv <> EmptyString /\ fst kv <> "__proto__"
  /\ startsWith (fst kv) "#" = false
  /\ ("="%char ∉ list_ascii_of_string (fst kv))
  /\ (LFc ∉ list_ascii_of_string (fst kv))
  /\ (LFc ∉ list_ascii_of_string (snd kv))
  /\ trim (env_line kv) = env_line kv.

Definition example_env : list (string * string) :=
  [("HANDSHAKE_SECRET", "s3cr3t=="); ("USER1_USERNAME", "alice");
   ("USER1_PASSWORD_HASH", "$2b$12$abcdefghijklmnopqrstuv"); ("SESSION_SECRET", EmptyString);
   ("NOTE", "a b")].


(** ** The HTTP API *)

(** The names a plain object inherits from [Object.prototype]: [obj[name]]
    is not [undefined] for them, even when the object has no such key. *)
Definition Object_prototype_names : list string :=
  ["constructor"; "__defineGetter__"; "__defineSetter__"; "hasOwnProperty";
   "__lookupGetter__"; "__lookupSetter__"; "isPrototypeOf"; "propertyIsEnumerable";
   "toString"; "valueOf"; "__proto__"; "toLocaleString"].

(** A request to [/api/]: the method, the path, the [Cookie] header and the
    body as [parseBody] and the destructuring of [username] and [password]
    read it: [None] when that throws, and the two fields as texts. *)
Record Request := {
  req_method : string;
  req_pathname : string;
  req_cookie : option string;
  req_body : option (string * string)
}.

Inductive ResponseBody :=
| user_data (username : string)
| success
| error_body (error : string)
| no_body.

Record Response := {
  res_status : Z;
  res_set_cookie : option string;
  res_body : ResponseBody
}.

(** [cookies.split(';').find(c => c.trim().startsWith('sessionId='))] *)
Definition find_session_cookie (cookies : string) : option string :=
  List.find (fun c => startsWith (trim c) "sessionId=") (split_on ";" cookies).

(** [sessions] maps a session id to the user name of its [userData]. *)
Definition session_id_of (cookie : option string) : option string :=
  match cookie with
  | Some cookies =>
      if String.eqb cookies EmptyString then None
      else match find_session_cookie cookies with
           | Some sessionCookie =>
               match split_on "=" sessionCookie with
               | _ :: sessionId :: _ => Some sessionId
               | _ => None
               end
           | None => None
           end
  | None => None
  end.

Definition getSessionFromCookie (cookie : option string) (sessions : gmap string string)
    : option string :=
  match session_id_of cookie with
  | Some sessionId => sessions !! sessionId
  | None => None
  end.

Section Api.

(** [bcrypt.compare(plainPassword, hashedPassword)] on a password and a
    stored hash. *)
Variable bcrypt_compare : string -> string -> bool.

(** The dispatch of [handleApiRequest] with the session store threaded
    through. [content] is the .env file as [loadUsers] finds it and
    [sessionId] the id [generateSessionId] would draw. The result is [None]
    where the user name is no key of the table but a name inherited from
    [Object.prototype]: [bcrypt.compare] is then handed something that is not
    a hash, which is outside this model. *)
Definition handleApiRequest (content : option string) (sessionId : string) (req : Request)
    (sessions : gmap string string) : option (Response * gmap string string) :=
  let json status body :=
    {| res_status := status; res_set_cookie := None; res_body := body |} in
  if String.eqb (req_method req) "OPTIONS" then Some (json 200 no_body, sessions)
  else if String.eqb (req_pathname req) "/api/auth/login" && String.eqb (req_method req) "POST"
  then
    match req_body req with
    | None => Some (json 500 (error_body "Internal server error"), sessions)
    | Some (username, password) =>
        let users := loadUsers content in
        match lookup_prop username users with
        | Some hash =>
            if negb (String.eqb hash EmptyString) && bcrypt_compare password hash then
              Some ({| res_status := 200;
                       res_set_cookie :=
                         Some ("sessionId=" ++ sessionId ++ "; HttpOnly; Path=/; Max-Age=86400");
                       res_body := user_data username |},
                    <[sessionId := username]> sessions)
            else Some (json 401 (error_body "Invalid credentials"), sessions)
        | None =>
            if bool_decide (username ∈ Object_prototype_names) then None
            else Some (json 401 (error_body "Invalid credentials"), sessions)
        end
    end
  else if String.eqb (req_pathname req) "/api/auth/logout" && String.eqb (req_method req) "POST"
  then
    let sessions :=
      match getSessionFromCookie (req_cookie req) sessions, session_id_of (req_cookie req) with
      | Some _, Some sessionId => delete sessionId sessions
      | _, _ => sessions
      end in
    Some ({| res_status := 200;
             res_set_cookie := Some "sessionId=; HttpOnly; Path=/; Max-Age=0";
             res_body := success |}, sessions)
  else if String.eqb (req_pathname req) "/api/auth/status" && String.eqb (req_method req) "GET"
  then
    match getSessionFromCookie (req_cookie req) sessions with
    | Some username => Some (json 200 (user_data username), sessions)
    | None => Some (json 401 (error_body "Not authenticated"), sessions)
    end
  else Some (json 404 (error_body "API endpoint not found"), sessions).

End Api.

(** The [Cookie] header of a browser that holds the session cookie alone. *)
Definition session_cookie (sessionId : string) : option string :=
  Some ("sessionId=" ++ sessionId).

Definition login_request (username password : string) : Request :=
  {| req_method := "POST"; req_pathname := "/api/auth/login"; req_cookie := None;
     req_body := Some (username, password) |}.
Definition logout_request (cookie : option string) : Request :=
  {| req_method := "POST"; req_pathname := "/api/auth/logout"; req_cookie := cookie;
     req_body := None |}.
Definition status_request (cookie : option string) : Request :=
  {| req_method := "GET"; req_pathname := "/api/auth/status"; req_cookie := cookie;
     req_body := None |}.

(** A stand-in for [bcrypt.compare] that accepts one password for one hash. *)
Definition example_compare (password hash : string) : bool :=
  String.eqb password "password123"
  && String.eqb hash "$2b$12$YjgksSv2iJyckrok0TbAwu6zQcnreHBfmn2/6UDE13GYoiz1M8Hbm".


(** The legacy lines that report one flag, with the field each sets. *)
Definition legacy_flags : list (string * string) :=
  [("$IsLoaded:", "loaded"); ("$IsLogged:", "logged"); ("$IsScriptRunning:", "scriptRunning")].


(** A client is accounted for when its socket is registered, or no map but
    the log holds anything for it. *)
Definition accounted (id : string) (st : State) : Prop :=
  id ∈ tcpClients st \/ evicted id st.


(** The handshake record was made by a connection of the trace: its
    challenge is the one drawn then and its time stamp the time of the
    connection. *)
Definition issued (trace : list (Clock * Event)) (id : string) (h : Handshake) : Prop :=
  exists t0 random32,
    (t0, EConnection id random32) ∈ trace
    /\ challenge h = generateChallenge random32 /\ timestamp h = now t0.

(** The client has answered a challenge of the trace: some data of its
    connection held a response line that came in time and verifies. *)
Definition answered (secret : string) (trace : list (Clock * Event)) (id : string) : Prop :=
  exists t0 random32 t lines line,
    (t0, EConnection id random32) ∈ trace /\ (t, EData id lines) ∈ trace /\ line ∈ lines
    /\ startsWith line "$HandshakeResponse:" = true
    /\ now t - now t0 <= HANDSHAKE_TIMEOUT
    /\ isValidHandshakeResponse (generateChallenge random32)
         (trim (substring_from (String.length "$HandshakeResponse:") line)) secret
       = Normal true.

(** * Properties *)

(** ** The library functions on examples *)

Example trim_ascii : trim "  $IsLoaded: true 	" = "$IsLoaded: true".
Proof. vm_compute. reflexivity. Qed.

Example trim_no_break_space :
  bytes_of_string (trim (string_of_bytes [194; 160; 97; 32; 98; 226; 128; 131; 32])) = [97; 32; 98].
Proof. vm_compute. reflexivity. Qed.

Example split_colon_flag : split_colon "$IsLoaded: TRUE :x" = ["$IsLoaded"; " TRUE "; "x"].
Proof. vm_compute. reflexivity. Qed.

Example legacy_flag_true : legacy_flag "$IsLoaded: TRUE " = JBool true.
Proof. vm_compute. reflexivity. Qed.

Example replace_first_only :
  replace "id 1.2.3.4:5 and 1.2.3.4:5" "1.2.3.4:5" "Bob" = "id Bob and 1.2.3.4:5".
Proof. vm_compute. reflexivity. Qed.

Example replace_patterns : replace "abc" "b" "[$$|$&|$`|$'|$1]" = "a[$|b|a|c|$1]c".
Proof. vm_compute. reflexivity. Qed.

Example Buffer_from_hex_truncates :
  Buffer_from_hex "1ag123" = [26] /\ Buffer_from_hex "1a7" = [26] /\ Buffer_from_hex "1A" = [26].
Proof. vm_compute. repeat split; reflexivity. Qed.

Example deepCompare_key_order :
  deepCompare (JObj false [("a", JNull); ("b", JObj true [("0", JStr "x")])])
              (JObj false [("b", JObj true [("0", JStr "x")]); ("a", JNull)]) = true.
Proof. vm_compute. reflexivity. Qed.

(** ** The credential verifier *)

Example sha256_abc :
  hex_encode (sha256 (utf8 "abc"))
  = "ba7816bf8f01cfea414140de5dae2223b00361a396177a9cb410ff61f20015ad".
Proof. vm_compute. reflexivity. Qed.

Example hmac_rfc4231_case2 :
  hex_encode (hmac_sha256 (utf8 "Jefe") (utf8 "what do ya want for nothing?"))
  = "5bdcc146bf60754e6a042426089575c75a003f089d2739839dec58b964ec3843".
Proof. vm_compute. reflexivity. Qed.

Example hmac_rfc4231_case6 :
  hex_encode (hmac_sha256 (repeat 170 131)
                (utf8 "Test Using Larger Than Block-Size Key - Hash Key First"))
  = "60e431591ee0b67f0d8a26aacbf5b77f8e0bc6213728c5140546040f0ee37f54".
Proof. vm_compute. reflexivity. Qed.

Lemma digest_bytes_length s : length (digest_bytes s) = 32%nat.
Proof. reflexivity. Qed.

Lemma hmac_sha256_length key msg : length (hmac_sha256 key msg) = 32%nat.
Proof. apply digest_bytes_length. Qed.

Lemma land_255_byte x : is_byte (Z.land x 255).
Proof.
  unfold is_byte. change 255 with (Z.ones 8). rewrite Z.land_ones by lia.
  apply Z.mod_pos_bound. lia.
Qed.

Lemma be32_bytes x : Forall is_byte (be32 x).
Proof. unfold be32. repeat constructor; apply land_255_byte. Qed.

Lemma digest_bytes_bytes s : Forall is_byte (digest_bytes s).
Proof. unfold digest_bytes. repeat (apply Forall_app; split); apply be32_bytes. Qed.

Lemma hmac_sha256_bytes key msg : Forall is_byte (hmac_sha256 key msg).
Proof. apply digest_bytes_bytes. Qed.

(** A property of bytes that holds of the 256 of them by computation. *)
Lemma byte_cases (P : Z -> bool) :
  forallb P (map Z.of_nat (seq 0 256)) = true -> forall b, is_byte b -> P b = true.
Proof.
  intros H b [Hlo Hhi]. rewrite forallb_forall in H. apply H.
  apply in_map_iff. exists (Z.to_nat b). split; [lia|].
  apply in_seq. lia.
Qed.

Lemma unhex_hex_digit b :
  is_byte b ->
  unhex (hex_digit (Z.shiftr b 4)) = Some (Z.shiftr b 4)
  /\ unhex (hex_digit (Z.land b 15)) = Some (Z.land b 15)
  /\ 16 * Z.shiftr b 4 + Z.land b 15 = b.
Proof.
  intros Hb.
  pose proof (byte_cases
    (fun b => bool_decide (unhex (hex_digit (Z.shiftr b 4)) = Some (Z.shiftr b 4)
                           /\ unhex (hex_digit (Z.land b 15)) = Some (Z.land b 15)
                           /\ 16 * Z.shiftr b 4 + Z.land b 15 = b))) as H.
  cbv beta in H. eapply bool_decide_eq_true. apply H; [|exact Hb]. vm_compute. reflexivity.
Qed.

Lemma Buffer_from_hex_encode bs :
  Forall is_byte bs -> Buffer_from_hex (hex_encode bs) = bs.
Proof.
  induction 1 as [|b bs Hb _ IH]; [reflexivity|].
  destruct (unhex_hex_digit b Hb) as (H1 & H2 & H3).
  cbn [hex_encode Buffer_from_hex]. rewrite H1, H2, H3, IH. reflexivity.
Qed.

Lemma CRYPTO_memcmp_zero a : forall b acc,
  length a = length b -> (CRYPTO_memcmp a b acc = 0 <-> acc = 0 /\ a = b).
Proof.
  induction a as [|x a IH]; intros [|y b] acc Hlen; simpl in Hlen; try discriminate.
  - simpl. tauto.
  - simpl. rewrite IH by lia. rewrite Z.lor_eq_0_iff, Z.lxor_eq_0_iff. split.
    + intros [[-> ->] ->]. tauto.
    + intros [-> Heq]. inversion Heq; subst. tauto.
Qed.

Lemma timingSafeEqual_same_length a b :
  length a = length b -> timingSafeEqual a b = Normal (bool_decide (a = b)).
Proof.
  intros Hlen. unfold timingSafeEqual. rewrite decide_True by assumption.
  f_equal. apply bool_decide_ext. rewrite CRYPTO_memcmp_zero by assumption. tauto.
Qed.

Lemma timingSafeEqual_length_mismatch a b :
  length a <> length b ->
  timingSafeEqual a b = Throw (RangeError "ERR_CRYPTO_TIMING_SAFE_EQUAL_LENGTH").
Proof. intros Hlen. unfold timingSafeEqual. rewrite decide_False by assumption. reflexivity. Qed.

Lemma expected_buffer challenge secret :
  Buffer_from_hex (computeHandshakeResponse challenge secret)
  = hmac_sha256 (utf8 secret) (utf8 challenge).
Proof. apply Buffer_from_hex_encode, hmac_sha256_bytes. Qed.

Lemma isValidHandshakeResponse_32 challenge response secret :
  length (Buffer_from_hex response) = 32%nat ->
  isValidHandshakeResponse challenge response secret
  = Normal (bool_decide (Buffer_from_hex response = hmac_sha256 (utf8 secret) (utf8 challenge))).
Proof.
  intros Hlen. unfold isValidHandshakeResponse. rewrite expected_buffer.
  apply timingSafeEqual_same_length. rewrite Hlen, hmac_sha256_length. reflexivity.
Qed.

(** C2 (the code departs from the claim): when the candidate response does
    not decode to as many bytes as the expected response (32), the
    verification does not return false: [crypto.timingSafeEqual] throws a
    RangeError, which [isValidHandshakeResponse] lets through. *)
Theorem isValidHandshakeResponse_length_mismatch challenge response secret :
  length (Buffer_from_hex response) <> 32%nat ->
  isValidHandshakeResponse challenge response secret
  = Throw (RangeError "ERR_CRYPTO_TIMING_SAFE_EQUAL_LENGTH").
Proof.
  intros Hlen. unfold isValidHandshakeResponse. rewrite expected_buffer.
  apply timingSafeEqual_length_mismatch. rewrite hmac_sha256_length. exact Hlen.
Qed.

Lemma isValidHandshakeResponse_length_mismatch_witness :
  length (Buffer_from_hex "abcd") <> 32%nat
  /\ isValidHandshakeResponse example_challenge "abcd" default_HANDSHAKE_SECRET
     = Throw (RangeError "ERR_CRYPTO_TIMING_SAFE_EQUAL_LENGTH").
Proof.
  split.
  - vm_compute. discriminate.
  - apply isValidHandshakeResponse_length_mismatch. vm_compute. discriminate.
Defined.

(** The exception is not caught on the way up: the line handler of an
    unauthenticated connection throws on such a handshake response. *)
Lemma onLine_short_response_throws :
  forall JSON_parse,
    onLine JSON_parse default_HANDSHAKE_SECRET (clock_s 1) example_id
      "$HandshakeResponse:abcd" st_connected
    = Throw (RangeError "ERR_CRYPTO_TIMING_SAFE_EQUAL_LENGTH").
Proof. intros. vm_compute. reflexivity. Qed.

Lemma flip_byte_bit b k :
  is_byte b -> 0 <= k < 8 -> is_byte (Z.lxor b (2 ^ k)) /\ Z.lxor b (2 ^ k) <> b.
Proof.
  intros Hb Hk.
  pose proof (byte_cases
    (fun b => forallb (fun k => bool_decide (is_byte (Z.lxor b (2 ^ k)) /\ Z.lxor b (2 ^ k) <> b))
                [0; 1; 2; 3; 4; 5; 6; 7])) as H.
  cbv beta in H. unfold is_byte in H at 1 2.
  assert (Hall : forallb (fun k => bool_decide (is_byte (Z.lxor b (2 ^ k)) /\ Z.lxor b (2 ^ k) <> b))
                   [0; 1; 2; 3; 4; 5; 6; 7] = true).
  { apply H; [vm_compute; reflexivity | exact Hb]. }
  rewrite forallb_forall in Hall.
  eapply bool_decide_eq_true. apply Hall.
  assert (k = 0 \/ k = 1 \/ k = 2 \/ k = 3 \/ k = 4 \/ k = 5 \/ k = 6 \/ k = 7) by lia.
  simpl. intuition.
Qed.

Lemma flip_bit_spec i bs :
  Forall is_byte bs -> (i / 8 < length bs)%nat ->
  Forall is_byte (flip_bit i bs) /\ length (flip_bit i bs) = length bs /\ flip_bit i bs <> bs.
Proof.
  intros Hbs Hi. unfold flip_bit.
  assert (Hk : 0 <= Z.of_nat (i mod 8) < 8).
  { pose proof (Nat.mod_upper_bound i 8). lia. }
  destruct (lookup_lt_is_Some_2 bs (i / 8)%nat Hi) as [b Hb].
  assert (is_byte b) as Hbyte by (eapply Forall_lookup_1; eauto).
  destruct (flip_byte_bit b _ Hbyte Hk) as [Hin Hne].
  split; [|split].
  - apply Forall_alter; [assumption|]. intros x Hx _.
    rewrite Hb in Hx. injection Hx as <-. exact Hin.
  - apply length_alter.
  - intros Heq. apply (f_equal (fun l => l !! (i / 8)%nat)) in Heq.
    rewrite list_lookup_alter_eq, Hb in Heq. simpl in Heq. injection Heq as Heq. contradiction.
Qed.

(** C5 (as amended): the expected response verifies, and the hex form of
    the expected digest with any one of its 256 bits flipped does not. *)
Theorem handshake_correctness challenge secret :
  isValidHandshakeResponse challenge (computeHandshakeResponse challenge secret) secret
  = Normal true
  /\ forall i, (i < 256)%nat ->
       isValidHandshakeResponse challenge
         (hex_encode (flip_bit i (hmac_sha256 (utf8 secret) (utf8 challenge)))) secret
       = Normal false.
Proof.
  split.
  - rewrite isValidHandshakeResponse_32; rewrite expected_buffer.
    + rewrite bool_decide_eq_true_2; reflexivity.
    + apply hmac_sha256_length.
  - intros i Hi.
    destruct (flip_bit_spec i (hmac_sha256 (utf8 secret) (utf8 challenge)))
      as (Hb & Hl & Hne).
    { apply hmac_sha256_bytes. }
    { rewrite hmac_sha256_length. apply Nat.Div0.div_lt_upper_bound. lia. }
    rewrite isValidHandshakeResponse_32; rewrite Buffer_from_hex_encode by assumption.
    + rewrite bool_decide_eq_false_2; [reflexivity | assumption].
    + rewrite Hl. apply hmac_sha256_length.
Qed.

Lemma handshake_correctness_witness :
  (3 < 256)%nat
  /\ isValidHandshakeResponse example_challenge
       (hex_encode (flip_bit 3 (hmac_sha256 (utf8 default_HANDSHAKE_SECRET)
                                  (utf8 example_challenge)))) default_HANDSHAKE_SECRET
     = Normal false.
Proof.
  split.
  - lia.
  - apply (proj2 (handshake_correctness example_challenge default_HANDSHAKE_SECRET) 3%nat). lia.
Defined.

(** C5 (as stated, refuted): one bit of the expected response flipped, the
    second character going from [e] to [E], and the candidate still
    verifies: [Buffer.from(_, 'hex')] reads a digit in either case. *)
Lemma single_bit_mutation_accepted :
  example_response = "4ee837c793ff200c5eeb3e1de2a6d0a667ba1731a1243207bbd1199880d8a5e1"
  /\ flip_char_bit 1 5 example_response
     = "4Ee837c793ff200c5eeb3e1de2a6d0a667ba1731a1243207bbd1199880d8a5e1"
  /\ isValidHandshakeResponse example_challenge (flip_char_bit 1 5 example_response)
       default_HANDSHAKE_SECRET = Normal true.
Proof. vm_compute. repeat split; reflexivity. Qed.

(** ** Pre-authentication isolation *)

(** C4: a line that is not a handshake response, received while the client
    is not authenticated, is only logged as rejected. The outcome is the same
    whatever [JSON.parse] would make of the line, the legacy translation is
    not applied, and the cached state, the status, the name and the
    heartbeat of the client are left as they were. *)
Theorem pre_auth_isolation JSON_parse secret t clientId msg st :
  isClientAuthenticated clientId st = false ->
  startsWith msg "$HandshakeResponse:" = false ->
  let rejected := "[Unauthenticated message rejected]: " ++ msg in
  let st' := addClientLog clientId rejected st in
  onLine JSON_parse secret t clientId msg st = Normal st'
  /\ clientStateCache st' = clientStateCache st
  /\ clientStatus st' = clientStatus st
  /\ clientNames st' = clientNames st
  /\ clientLastHeartbeat st' = clientLastHeartbeat st
  /\ pendingHandshakes st' = pendingHandshakes st
  /\ sockets st' = sockets st
  /\ published st' = (published st ++ [log clientId rejected])%list
  /\ clientLogs st' !! clientId
     = Some (push_shift (default [] (clientLogs st !! clientId)) rejected).
Proof.
  intros Hauth Hprefix rejected st'. unfold onLine. rewrite Hprefix, Hauth. simpl.
  repeat split. subst st'. unfold addClientLog. simpl. apply lookup_insert_eq.
Qed.

Lemma pre_auth_isolation_witness :
  let parse_all := fun _ : string =>
    Some {| m_type := Some "status_update"; m_timestamp := None; m_clientName := Some "Alice";
            m_status := JObj false [("loaded", JBool true)]; m_message := None;
            m_username := None |} in
  isClientAuthenticated example_id st_connected = false
  /\ startsWith "$IsLoaded:true" "$HandshakeResponse:" = false
  /\ onLine parse_all default_HANDSHAKE_SECRET (clock_s 1) example_id "$IsLoaded:true" st_connected
     = Normal (addClientLog example_id "[Unauthenticated message rejected]: $IsLoaded:true"
                 st_connected)
  /\ clientStateCache
       (addClientLog example_id "[Unauthenticated message rejected]: $IsLoaded:true" st_connected)
     = clientStateCache st_connected.
Proof.
  intros parse_all.
  assert (H1 : isClientAuthenticated example_id st_connected = false) by (vm_compute; reflexivity).
  assert (H2 : startsWith "$IsLoaded:true" "$HandshakeResponse:" = false) by reflexivity.
  pose proof (pre_auth_isolation parse_all default_HANDSHAKE_SECRET (clock_s 1) example_id
                "$IsLoaded:true" st_connected H1 H2) as H.
  cbv zeta in H. destruct H as (Ha & Hb & _).
  split; [exact H1 | split; [exact H2 | split; [exact Ha | exact Hb]]].
Defined.

(** ** Bounded logs *)

Lemma push_shift_keep_last arr msg :
  (length arr <= MAX_LOGS)%nat -> push_shift arr msg = keep_last MAX_LOGS (arr ++ [msg])%list.
Proof.
  intros Hlen. unfold push_shift, keep_last. rewrite length_app. simpl.
  case_decide as Hfull.
  - replace (length arr + 1 - MAX_LOGS)%nat with 1%nat by lia.
    destruct (arr ++ [msg])%list; reflexivity.
  - replace (length arr + 1 - MAX_LOGS)%nat with 0%nat by lia. reflexivity.
Qed.

Lemma push_shift_length arr msg :
  (length arr <= MAX_LOGS)%nat -> (length (push_shift arr msg) <= MAX_LOGS)%nat.
Proof.
  intros Hlen. rewrite push_shift_keep_last by assumption. unfold keep_last.
  rewrite length_drop, length_app. simpl. lia.
Qed.

Lemma push_shift_room arr msg :
  (length arr < MAX_LOGS)%nat -> push_shift arr msg = (arr ++ [msg])%list.
Proof.
  intros Hlen. unfold push_shift. rewrite decide_False; [reflexivity|].
  rewrite length_app. simpl. lia.
Qed.

Lemma push_shift_full arr msg :
  length arr = MAX_LOGS -> push_shift arr msg = (tail arr ++ [msg])%list.
Proof.
  intros Hlen. unfold push_shift. rewrite decide_True.
  - destruct arr; [discriminate | reflexivity].
  - rewrite length_app. simpl. lia.
Qed.

Lemma keep_last_app {A : Type} n (a b : list A) :
  keep_last n (keep_last n a ++ b)%list = keep_last n (a ++ b)%list.
Proof.
  unfold keep_last. rewrite <- (drop_app_le a b) by lia.
  rewrite drop_drop. f_equal. rewrite length_drop, !length_app. lia.
Qed.

Lemma clientLogs_fold_addClientLog id lines : forall st,
  (length (default [] (clientLogs st !! id)) <= MAX_LOGS)%nat ->
  clientLogs (fold_left (fun s m => addClientLog id m s) lines st) !! id
  = match lines with
    | [] => clientLogs st !! id
    | _ => Some (keep_last MAX_LOGS (default [] (clientLogs st !! id) ++ lines)%list)
    end.
Proof.
  induction lines as [|m rest IH]; intros st Hlen; [reflexivity|].
  cbn [fold_left].
  assert (Hstep : clientLogs (addClientLog id m st) !! id
                  = Some (keep_last MAX_LOGS (default [] (clientLogs st !! id) ++ [m])%list)).
  { unfold addClientLog. simpl. rewrite lookup_insert_eq.
    rewrite push_shift_keep_last by assumption. reflexivity. }
  rewrite IH.
  - rewrite Hstep. destruct rest as [|m' rest']; [reflexivity|].
    simpl default. rewrite keep_last_app, <- app_assoc. reflexivity.
  - rewrite Hstep. simpl. unfold keep_last. rewrite length_drop, length_app. simpl. lia.
Qed.

(** The bound is an invariant of every function of the server. *)
Lemma logs_bounded_sockets f st : logs_bounded st -> logs_bounded (set_sockets f st).
Proof. exact (fun H => H). Qed.
Lemma logs_bounded_tcpClients f st : logs_bounded st -> logs_bounded (set_tcpClients f st).
Proof. exact (fun H => H). Qed.
Lemma logs_bounded_clientNames f st : logs_bounded st -> logs_bounded (set_clientNames f st).
Proof. exact (fun H => H). Qed.
Lemma logs_bounded_clientStatus f st : logs_bounded st -> logs_bounded (set_clientStatus f st).
Proof. exact (fun H => H). Qed.
Lemma logs_bounded_clientLastHeartbeat f st :
  logs_bounded st -> logs_bounded (set_clientLastHeartbeat f st).
Proof. exact (fun H => H). Qed.
Lemma logs_bounded_pendingHandshakes f st :
  logs_bounded st -> logs_bounded (set_pendingHandshakes f st).
Proof. exact (fun H => H). Qed.
Lemma logs_bounded_clientStateCache f st :
  logs_bounded st -> logs_bounded (set_clientStateCache f st).
Proof. exact (fun H => H). Qed.
Lemma logs_bounded_clientUsernameStatus f st :
  logs_bounded st -> logs_bounded (set_clientUsernameStatus f st).
Proof. exact (fun H => H). Qed.
Lemma logs_bounded_timeouts f st : logs_bounded st -> logs_bounded (set_timeouts f st).
Proof. exact (fun H => H). Qed.
Lemma logs_bounded_published f st : logs_bounded st -> logs_bounded (set_published f st).
Proof. exact (fun H => H). Qed.

Lemma logs_bounded_delete id st : logs_bounded st -> logs_bounded (set_clientLogs (delete id) st).
Proof.
  intros [Hc Hm]. split; [|exact Hm]. intros id' l. simpl.
  rewrite lookup_delete. case_decide; [discriminate|]. apply Hc.
Qed.

Lemma logs_bounded_initial : logs_bounded initial_state.
Proof. split; [intros id l H; simpl in H; rewrite lookup_empty in H; discriminate | simpl; lia]. Qed.

Lemma logs_bounded_addClientLog id msg st :
  logs_bounded st -> logs_bounded (addClientLog id msg st).
Proof.
  intros [Hc Hm]. split; [|exact Hm]. intros id' l. unfold addClientLog. simpl.
  rewrite lookup_insert. case_decide as Heq.
  - intros [= <-]. apply push_shift_length.
    destruct (clientLogs st !! id) as [l0|] eqn:Hl0; simpl; [eapply Hc; eauto | lia].
  - apply Hc.
Qed.

Lemma logs_bounded_addMasterLog t msg clientId st :
  logs_bounded st -> logs_bounded (addMasterLog t msg clientId st).
Proof.
  intros [Hc Hm]. split; [exact Hc|]. unfold addMasterLog. simpl.
  apply push_shift_length, Hm.
Qed.

Lemma logs_bounded_clearMasterLog st : logs_bounded st -> logs_bounded (clearMasterLog st).
Proof. intros [Hc Hm]. split; [exact Hc|]. simpl. lia. Qed.

Lemma logs_bounded_broadcast obj st :
  logs_bounded st -> logs_bounded (broadcastToBrowsers obj st).
Proof. exact (fun H => H). Qed.

Lemma logs_bounded_socket_write id data st :
  logs_bounded st -> logs_bounded (socket_write id data st).
Proof. exact (fun H => H). Qed.

Lemma logs_bounded_socket_destroy id st : logs_bounded st -> logs_bounded (socket_destroy id st).
Proof. exact (fun H => H). Qed.

#[local] Hint Resolve logs_bounded_sockets logs_bounded_tcpClients logs_bounded_clientNames
  logs_bounded_clientStatus logs_bounded_clientLastHeartbeat logs_bounded_pendingHandshakes
  logs_bounded_clientStateCache logs_bounded_clientUsernameStatus logs_bounded_timeouts
  logs_bounded_published logs_bounded_delete logs_bounded_addClientLog
  logs_bounded_addMasterLog logs_bounded_clearMasterLog logs_bounded_broadcast
  logs_bounded_socket_write logs_bounded_socket_destroy : logs.

Lemma logs_bounded_updateStatus id field value st :
  logs_bounded st -> logs_bounded (updateStatus id field value st).
Proof. bounded updateStatus. Qed.
#[local] Hint Resolve logs_bounded_updateStatus : logs.

Lemma logs_bounded_stopUsernameChecker id st :
  logs_bounded st -> logs_bounded (stopUsernameChecker id st).
Proof. bounded stopUsernameChecker. Qed.
#[local] Hint Resolve logs_bounded_stopUsernameChecker : logs.

Lemma logs_bounded_cleanupClient id st : logs_bounded st -> logs_bounded (cleanupClient id st).
Proof. bounded cleanupClient. Qed.
#[local] Hint Resolve logs_bounded_cleanupClient : logs.

Lemma logs_bounded_update_if_changed id field changes st :
  logs_bounded st -> logs_bounded (update_if_changed id field changes st).
Proof. bounded update_if_changed. Qed.
#[local] Hint Resolve logs_bounded_update_if_changed : logs.

Lemma logs_bounded_handleStatusUpdate t id newStatus timestamp st :
  logs_bounded st -> logs_bounded (handleStatusUpdate t id newStatus timestamp st).
Proof. bounded handleStatusUpdate. Qed.
#[local] Hint Resolve logs_bounded_handleStatusUpdate : logs.

Lemma logs_bounded_sendUsernameRequest t id st :
  logs_bounded st -> logs_bounded (sendUsernameRequest t id st).1.
Proof. bounded sendUsernameRequest. Qed.

Lemma logs_bounded_startUsernameChecker id st :
  logs_bounded st -> logs_bounded (startUsernameChecker id st).
Proof. bounded startUsernameChecker. Qed.
#[local] Hint Resolve logs_bounded_startUsernameChecker : logs.

Lemma logs_bounded_usernameCheckerTick t id st :
  logs_bounded st -> logs_bounded (usernameCheckerTick t id st).
Proof.
  intros H. unfold usernameCheckerTick.
  pose proof (logs_bounded_sendUsernameRequest t id st H) as Hs.
  destruct (sendUsernameRequest t id st) as [st' sent]. simpl in Hs.
  repeat case_match; eauto 20 with logs.
Qed.
#[local] Hint Resolve logs_bounded_usernameCheckerTick : logs.

Lemma logs_bounded_handleUsernameResponse id username st :
  logs_bounded st -> logs_bounded (handleUsernameResponse id username st).
Proof. bounded handleUsernameResponse. Qed.
#[local] Hint Resolve logs_bounded_handleUsernameResponse : logs.

Lemma logs_bounded_updateClientName id clientName st :
  logs_bounded st -> logs_bounded (updateClientName id clientName st).
Proof. bounded updateClientName. Qed.
#[local] Hint Resolve logs_bounded_updateClientName : logs.

Lemma logs_bounded_processJsonMessage t id jsonData st :
  logs_bounded st -> logs_bounded (processJsonMessage t id jsonData st).
Proof. bounded processJsonMessage. Qed.
#[local] Hint Resolve logs_bounded_processJsonMessage : logs.

Lemma logs_bounded_startHandshake t id random32 st :
  logs_bounded st -> logs_bounded (startHandshake t id random32 st).
Proof. bounded startHandshake. Qed.
#[local] Hint Resolve logs_bounded_startHandshake : logs.

Lemma logs_bounded_handshakeTimeout t id st :
  logs_bounded st -> logs_bounded (handshakeTimeout t id st).
Proof. bounded handshakeTimeout. Qed.
#[local] Hint Resolve logs_bounded_handshakeTimeout : logs.

Lemma logs_bounded_processHandshakeResponse secret t id response st st' ok :
  logs_bounded st ->
  processHandshakeResponse secret t id response st = Normal (st', ok) ->
  logs_bounded st'.
Proof.
  intros H. unfold processHandshakeResponse. cbv zeta.
  repeat case_match; intros [= <- <-] || discriminate; eauto 20 with logs.
Qed.

Lemma logs_bounded_onConnection t id random32 st :
  logs_bounded st -> logs_bounded (onConnection t id random32 st).
Proof. bounded onConnection. Qed.
#[local] Hint Resolve logs_bounded_onConnection : logs.

Lemma logs_bounded_onLine JSON_parse secret t id msg st st' :
  logs_bounded st -> onLine JSON_parse secret t id msg st = Normal st' -> logs_bounded st'.
Proof.
  intros H. unfold onLine.
  destruct (startsWith msg "$HandshakeResponse:").
  - destruct (processHandshakeResponse _ _ _ _ _) as [[st1 ok]|e] eqn:Hp; [|discriminate].
    intros [= <-]. eapply logs_bounded_processHandshakeResponse; eauto.
  - repeat case_match; intros [= <-]; eauto 20 with logs.
Qed.

Lemma logs_bounded_onData JSON_parse secret t id lines : forall st st',
  logs_bounded st -> onData JSON_parse secret t id lines st = Normal st' -> logs_bounded st'.
Proof.
  induction lines as [|msg rest IH]; intros st st' H; simpl.
  - intros [= <-]. exact H.
  - destruct (onLine _ _ _ _ _ _) as [st1|e] eqn:Hl; [|discriminate].
    apply IH. eapply logs_bounded_onLine; eauto.
Qed.

Lemma logs_bounded_onClose t id st : logs_bounded st -> logs_bounded (onClose t id st).
Proof. bounded onClose. Qed.

Lemma logs_bounded_onError id err st : logs_bounded st -> logs_bounded (onError id err st).
Proof. bounded onError. Qed.

Lemma logs_bounded_heartbeatVisit t st id :
  logs_bounded st -> logs_bounded (heartbeatVisit t st id).
Proof. bounded heartbeatVisit. Qed.

Lemma logs_bounded_handshakeVisit t st entry :
  logs_bounded st -> logs_bounded (handshakeVisit t st entry).
Proof. bounded handshakeVisit. Qed.

Lemma logs_bounded_fold {A : Type} (f : State -> A -> State) (l : list A) :
  (forall st a, logs_bounded st -> logs_bounded (f st a)) ->
  forall st, logs_bounded st -> logs_bounded (fold_left f l st).
Proof. intros Hf. induction l as [|a l IH]; intros st H; simpl; [exact H | apply IH, Hf, H]. Qed.

Lemma logs_bounded_onObserverMessage t data st :
  logs_bounded st -> logs_bounded (onObserverMessage t data st).
Proof.
  intros H. destruct data as [id message|id|]; simpl.
  - repeat case_match; eauto 20 with logs.
  - pose proof (logs_bounded_sendUsernameRequest t id st H) as Hs.
    destruct (sendUsernameRequest t id st) as [st' sent]. simpl in Hs.
    repeat case_match; eauto 20 with logs.
  - eauto with logs.
Qed.

Lemma logs_bounded_handle JSON_parse secret t e st st' :
  logs_bounded st -> handle JSON_parse secret t e st = Normal st' -> logs_bounded st'.
Proof.
  intros H. destruct e; simpl; try (intros [= <-]).
  - eauto with logs.
  - eapply logs_bounded_onData; eauto.
  - apply logs_bounded_onClose, H.
  - apply logs_bounded_onError, H.
  - eauto with logs.
  - apply logs_bounded_fold; [apply logs_bounded_heartbeatVisit | exact H].
  - apply logs_bounded_fold; [apply logs_bounded_handshakeVisit | exact H].
  - eauto with logs.
  - apply logs_bounded_onObserverMessage, H.
Qed.

(** In every state the server reaches, no log holds more than MAX_LOGS
    entries. *)
Lemma logs_bounded_run JSON_parse secret trace : forall st st',
  logs_bounded st -> run JSON_parse secret trace st = Normal st' -> logs_bounded st'.
Proof.
  induction trace as [|[t e] rest IH]; intros st st' H; simpl.
  - intros [= <-]. exact H.
  - destruct (handle _ _ _ _ _) as [st1|x] eqn:Hh; [|discriminate].
    apply IH. eapply logs_bounded_handle; eauto.
Qed.

(** C8: in a state where no log exceeds MAX_LOGS (1000) entries - every
    state the server reaches, by [logs_bounded_run] - an append to a client
    log or to the master log leaves every log within the bound; the new
    entry goes last; an append to a full log drops its first entry and
    nothing else; and 1001 lines appended to a client without a log leave
    the last 1000 of them. *)
Theorem log_bounding st t id msg mmsg clientId lines :
  logs_bounded st ->
  let arr := default [] (clientLogs st !! id) in
  logs_bounded (addClientLog id msg st)
  /\ logs_bounded (addMasterLog t mmsg clientId st)
  /\ clientLogs (addClientLog id msg st) !! id = Some (push_shift arr msg)
  /\ (length arr = MAX_LOGS -> push_shift arr msg = (tail arr ++ [msg])%list)
  /\ (length arr < MAX_LOGS -> push_shift arr msg = (arr ++ [msg])%list)%nat
  /\ (exists entry, masterLog (addMasterLog t mmsg clientId st) = push_shift (masterLog st) entry
        /\ (length (masterLog st) = MAX_LOGS ->
            push_shift (masterLog st) entry = (tail (masterLog st) ++ [entry])%list))
  /\ (clientLogs st !! id = None -> length lines = S MAX_LOGS ->
      clientLogs (fold_left (fun s m => addClientLog id m s) lines st) !! id = Some (tail lines)
      /\ length (tail lines) = MAX_LOGS).
Proof.
  intros H arr.
  split; [apply logs_bounded_addClientLog, H|].
  split; [apply logs_bounded_addMasterLog, H|].
  split; [unfold addClientLog; simpl; apply lookup_insert_eq|].
  split; [apply push_shift_full|].
  split; [apply push_shift_room|].
  split; [eexists; split; [reflexivity | apply push_shift_full]|].
  intros Hnone Hlen. split.
  - rewrite clientLogs_fold_addClientLog.
    + destruct lines as [|m rest]; [discriminate|].
      rewrite Hnone. cbn [default from_option app]. unfold keep_last. rewrite Hlen.
      replace (S MAX_LOGS - MAX_LOGS)%nat with 1%nat by lia. reflexivity.
    + rewrite Hnone. cbn [default from_option length]. lia.
  - destruct lines as [|m rest]; [discriminate|].
    cbn [tail length] in *. lia.
Qed.

Lemma log_bounding_witness :
  logs_bounded st_connected
  /\ clientLogs (fold_left (fun s m => addClientLog other_id m s) example_lines st_connected)
       !! other_id = Some (tail example_lines)
  /\ length (tail example_lines) = MAX_LOGS.
Proof.
  assert (Hb : logs_bounded st_connected).
  { apply logs_bounded_onConnection, logs_bounded_initial. }
  split; [exact Hb|].
  pose proof (log_bounding st_connected (clock_s 1) other_id "a" "b" None example_lines Hb) as H.
  cbv zeta in H. destruct H as (_ & _ & _ & _ & _ & _ & H).
  apply H; vm_compute; reflexivity.
Defined.

(** ** The master log *)

Lemma GetSubstitution_plain repl matched before after :
  has_dollar repl = false -> GetSubstitution repl matched before after = repl.
Proof.
  induction repl as [|c r IH]; [reflexivity|]. cbn [has_dollar GetSubstitution].
  destruct (Ascii.eqb c "$"); [discriminate|]. simpl. intros H. rewrite IH by assumption.
  reflexivity.
Qed.

Lemma replace_plain s search repl :
  has_dollar repl = false -> replace s search repl = replace_first_literal s search repl.
Proof.
  intros H. unfold replace, replace_first_literal.
  destruct (index 0 search s); [|reflexivity]. rewrite GetSubstitution_plain by assumption.
  reflexivity.
Qed.

(** With a display name that holds no dollar sign, the entry is the message
    with the first occurrence of the id replaced by the name, after the
    bracketed time; it goes last in the master log and is what is published. *)
Lemma addMasterLog_plain_name t msg id name st :
  id <> EmptyString -> name <> EmptyString ->
  clientNames st !! id = Some name -> has_dollar name = false ->
  let entry := "[" ++ toLocaleTimeString t ++ "] " ++ replace_first_literal msg id name in
  masterLog (addMasterLog t msg (Some id) st) = push_shift (masterLog st) entry
  /\ published (addMasterLog t msg (Some id) st) = (published st ++ [master_log entry])%list.
Proof.
  intros Hid Hname Hlook Hplain entry. unfold addMasterLog. rewrite Hlook.
  apply String.eqb_neq in Hid, Hname. rewrite Hid, Hname.
  rewrite replace_plain by assumption. split; reflexivity.
Qed.

(** C10 (the code departs from the claim): for the client whose display name
    is the two characters [$&], the entry stored and published still shows
    the client id: [String.prototype.replace] reads [$&] in the replacement
    text as the matched text. The claim asks for the name itself. *)
Theorem addMasterLog_dollar_name :
  let st' := addMasterLog (clock_s 3) "Client timeout: 10.0.0.5:4000" (Some example_id)
               st_dollar_name in
  clientNames st_dollar_name !! example_id = Some "$&"
  /\ last (masterLog st') = Some "[18:00:03] Client timeout: 10.0.0.5:4000"
  /\ last (published st') = Some (master_log "[18:00:03] Client timeout: 10.0.0.5:4000")
  /\ "[18:00:03] " ++ replace_first_literal "Client timeout: 10.0.0.5:4000" example_id "$&"
     = "[18:00:03] Client timeout: $&".
Proof. vm_compute. repeat split; reflexivity. Qed.

(** ** A handshake response after authentication *)

Lemma cleanupClient_fields id st :
  sockets (cleanupClient id st) = sockets st
  /\ tcpClients (cleanupClient id st) = tcpClients st ∖ {[id]}
  /\ clientNames (cleanupClient id st) = delete id (clientNames st)
  /\ clientStatus (cleanupClient id st) = delete id (clientStatus st)
  /\ clientLastHeartbeat (cleanupClient id st) = delete id (clientLastHeartbeat st)
  /\ pendingHandshakes (cleanupClient id st) = delete id (pendingHandshakes st)
  /\ clientStateCache (cleanupClient id st) = delete id (clientStateCache st)
  /\ masterLog (cleanupClient id st) = masterLog st
  /\ timeouts (cleanupClient id st) = timeouts st
  /\ clientUsernameStatus (cleanupClient id st) = delete id (clientUsernameStatus st).
Proof.
  unfold cleanupClient, stopUsernameChecker, addClientLog, broadcastToBrowsers. fields.
  destruct (clientUsernameStatus st !! id) as [[h r []]|]; fields;
    (split_and!; [reflexivity..|]); [apply delete_insert_eq | reflexivity..].
Qed.

Lemma cleanupClient_evicted id st : evicted id (cleanupClient id st).
Proof.
  destruct (cleanupClient_fields id st) as (_ & H2 & H3 & H4 & H5 & H6 & H7 & _ & _ & H10).
  unfold evicted. rewrite H2, H3, H4, H5, H6, H7, H10, !lookup_delete_eq.
  clear. split_and!; [|reflexivity..].
  rewrite elem_of_difference, elem_of_singleton. tauto.
Qed.

Lemma cleanupClient_sockets id st : sockets (cleanupClient id st) = sockets st.
Proof. apply cleanupClient_fields. Qed.

Lemma socket_destroy_destroyed id st : socket_destroyed id (socket_destroy id st).
Proof.
  intros s. unfold socket_destroy. simpl. rewrite lookup_alter_eq.
  destruct (sockets st !! id); simpl; [intros [= <-]; reflexivity | discriminate].
Qed.

Lemma socket_destroyed_sockets id st st' :
  sockets st' = sockets st -> socket_destroyed id st -> socket_destroyed id st'.
Proof. unfold socket_destroyed. intros ->. auto. Qed.

Lemma last_broadcast obj st : last (published (broadcastToBrowsers obj st)) = Some obj.
Proof. simpl. apply last_snoc. Qed.

Lemma evicted_broadcast obj id st : evicted id st -> evicted id (broadcastToBrowsers obj st).
Proof. unfold evicted. fields. exact (fun H => H). Qed.

Lemma sockets_broadcast obj st : sockets (broadcastToBrowsers obj st) = sockets st.
Proof. reflexivity. Qed.

(** The three destructive branches end alike. *)
Lemma reject_outcome t msg id st :
  let st' := broadcastToBrowsers (client_disconnect id)
               (cleanupClient id (socket_destroy id (addMasterLog t msg (Some id) st))) in
  evicted id st' /\ socket_destroyed id st'
  /\ last (published st') = Some (client_disconnect id).
Proof.
  cbv zeta. split; [|split].
  - apply evicted_broadcast, cleanupClient_evicted.
  - unfold socket_destroyed. intros s.
    rewrite sockets_broadcast, cleanupClient_sockets. apply socket_destroy_destroyed.
  - apply last_broadcast.
Qed.

Lemma startUsernameChecker_fields id st :
  sockets (startUsernameChecker id st) = sockets st
  /\ tcpClients (startUsernameChecker id st) = tcpClients st
  /\ clientNames (startUsernameChecker id st) = clientNames st
  /\ clientStatus (startUsernameChecker id st) = clientStatus st
  /\ clientLastHeartbeat (startUsernameChecker id st) = clientLastHeartbeat st
  /\ pendingHandshakes (startUsernameChecker id st) = pendingHandshakes st
  /\ clientStateCache (startUsernameChecker id st) = clientStateCache st
  /\ masterLog (startUsernameChecker id st) = masterLog st.
Proof.
  unfold startUsernameChecker, addClientLog, broadcastToBrowsers.
  destruct (clientUsernameStatus st !! id) as [[h r []]|]; fields; split_and!; reflexivity.
Qed.





(** ** Handshake timeout *)

Lemma count_events_app p l1 l2 :
  count_events p (l1 ++ l2)%list = (count_events p l1 + count_events p l2)%nat.
Proof. unfold count_events. rewrite List.filter_app, length_app. reflexivity. Qed.

Lemma disconnects_broadcast id obj st :
  disconnects id (broadcastToBrowsers obj st)
  = (disconnects id st + if is_client_disconnect id obj then 1 else 0)%nat.
Proof.
  unfold disconnects, broadcastToBrowsers. fields. rewrite count_events_app.
  unfold count_events at 2. simpl. destruct (is_client_disconnect id obj); reflexivity.
Qed.

Lemma is_client_disconnect_same id : is_client_disconnect id (client_disconnect id) = true.
Proof. simpl. apply String.eqb_refl. Qed.

Lemma is_client_disconnect_other id id' :
  id' <> id -> is_client_disconnect id (client_disconnect id') = false.
Proof. intros H. simpl. apply String.eqb_neq. congruence. Qed.

Lemma disconnects_addClientLog id id' msg st :
  disconnects id (addClientLog id' msg st) = disconnects id st.
Proof.
  unfold addClientLog. cbv zeta. rewrite disconnects_broadcast. simpl.
  unfold disconnects. fields. lia.
Qed.

Lemma disconnects_addMasterLog id t msg clientId st :
  disconnects id (addMasterLog t msg clientId st) = disconnects id st.
Proof.
  unfold addMasterLog. cbv zeta. rewrite disconnects_broadcast. simpl.
  unfold disconnects. fields. lia.
Qed.

Lemma disconnects_socket_destroy id id' st :
  disconnects id (socket_destroy id' st) = disconnects id st.
Proof. reflexivity. Qed.

Lemma cleanupClient_published id st :
  published (cleanupClient id st)
  = (published st ++ match clientUsernameStatus st !! id with
                     | Some {| checker := true |} => [log id "[Username checker stopped]"]
                     | _ => []
                     end)%list.
Proof.
  unfold cleanupClient, stopUsernameChecker, addClientLog, broadcastToBrowsers. fields.
  destruct (clientUsernameStatus st !! id) as [[h r []]|]; fields;
    rewrite ?app_nil_r; reflexivity.
Qed.

Lemma disconnects_cleanupClient id id' st :
  disconnects id (cleanupClient id' st) = disconnects id st.
Proof.
  unfold disconnects. rewrite cleanupClient_published, count_events_app.
  destruct (clientUsernameStatus st !! id') as [[h r []]|]; unfold count_events at 2; simpl; lia.
Qed.

(** What eviction by either path does for the client it evicts, and for
    any other. *)
Lemma disconnects_evict id id' t msg st :
  disconnects id
    (broadcastToBrowsers (client_disconnect id')
       (cleanupClient id' (socket_destroy id' (addMasterLog t msg (Some id') st))))
  = (disconnects id st + if String.eqb id id' then 1 else 0)%nat.
Proof.
  rewrite disconnects_broadcast, disconnects_cleanupClient, disconnects_socket_destroy,
    disconnects_addMasterLog. reflexivity.
Qed.

Lemma handshakeTimeout_evicts t id st handshake :
  pendingHandshakes st !! id = Some handshake -> authenticated handshake = false ->
  evicted id (handshakeTimeout t id st)
  /\ socket_destroyed id (handshakeTimeout t id st)
  /\ disconnects id (handshakeTimeout t id st) = S (disconnects id st).
Proof.
  intros Hp Ha. unfold handshakeTimeout. rewrite Hp. destruct handshake as [c ts a].
  simpl in Ha. subst a. cbv zeta.
  destruct (reject_outcome t ("Handshake timeout for " ++ id) id st) as (He & Hs & _).
  split; [exact He | split; [exact Hs |]].
  rewrite disconnects_evict, String.eqb_refl. lia.
Qed.

Lemma handshakeTimeout_idle t id st :
  pendingHandshakes st !! id = None -> handshakeTimeout t id st = st.
Proof. intros Hp. unfold handshakeTimeout. rewrite Hp. reflexivity. Qed.

Lemma onClose_disconnects t id st :
  evicted id (onClose t id st) /\ disconnects id (onClose t id st) = S (disconnects id st).
Proof.
  unfold onClose. cbv zeta. split; [apply cleanupClient_evicted|].
  rewrite disconnects_cleanupClient, disconnects_broadcast, disconnects_addMasterLog,
    disconnects_addClientLog, is_client_disconnect_same. lia.
Qed.

Lemma evicted_socket_destroy id k st : evicted id st -> evicted id (socket_destroy k st).
Proof. unfold evicted, socket_destroy. fields. exact (fun H => H). Qed.

Lemma evicted_cleanupClient_other id k st : evicted id st -> evicted id (cleanupClient k st).
Proof.
  destruct (cleanupClient_fields k st) as (_ & H2 & H3 & H4 & H5 & H6 & H7 & _ & _ & H10).
  unfold evicted. rewrite H2, H3, H4, H5, H6, H7, H10. clear.
  rewrite !lookup_delete_None, elem_of_difference. tauto.
Qed.

Lemma handshakeVisit_other t st k h id :
  k <> id ->
  disconnects id (handshakeVisit t st (k, h)) = disconnects id st
  /\ (evicted id st -> evicted id (handshakeVisit t st (k, h))).
Proof.
  intros Hne. unfold handshakeVisit.
  destruct (negb (authenticated h) && bool_decide (now t - timestamp h > HANDSHAKE_TIMEOUT));
    [|split; [reflexivity | exact (fun H => H)]].
  cbv zeta. split.
  - rewrite disconnects_broadcast, disconnects_cleanupClient,
      (is_client_disconnect_other id k Hne).
    destruct (bool_decide (k ∈ tcpClients st)); [rewrite disconnects_socket_destroy|]; lia.
  - intros He. apply evicted_broadcast, evicted_cleanupClient_other.
    destruct (bool_decide (k ∈ tcpClients st)); [apply evicted_socket_destroy|]; exact He.
Qed.

Lemma handshakeVisit_self t st id h :
  authenticated h = false -> now t - timestamp h > HANDSHAKE_TIMEOUT ->
  disconnects id (handshakeVisit t st (id, h)) = S (disconnects id st)
  /\ evicted id (handshakeVisit t st (id, h)).
Proof.
  intros Ha Hlate. unfold handshakeVisit. rewrite Ha, bool_decide_eq_true_2 by assumption.
  cbn [negb andb]. cbv zeta. split.
  - rewrite disconnects_broadcast, disconnects_cleanupClient, is_client_disconnect_same.
    destruct (bool_decide (id ∈ tcpClients st)); [rewrite disconnects_socket_destroy|]; lia.
  - apply evicted_broadcast, cleanupClient_evicted.
Qed.

Lemma handshakeVisit_fold_other t id (l : list (string * Handshake)) : forall st,
  id ∉ l.*1 ->
  disconnects id (fold_left (handshakeVisit t) l st) = disconnects id st
  /\ (evicted id st -> evicted id (fold_left (handshakeVisit t) l st)).
Proof.
  induction l as [|[k h] l IH]; intros st Hnotin; [split; [reflexivity | exact (fun H => H)]|].
  rewrite fmap_cons, not_elem_of_cons in Hnotin. destruct Hnotin as [Hne Hnotin].
  cbn [fold_left fst] in *.
  destruct (handshakeVisit_other t st k h id) as [Hd He]; [congruence|].
  destruct (IH (handshakeVisit t st (k, h)) Hnotin) as [Hd' He'].
  split; [rewrite Hd', Hd; reflexivity | auto].
Qed.

Lemma handshakeSweep_evicts t id st handshake :
  pendingHandshakes st !! id = Some handshake -> authenticated handshake = false ->
  now t - timestamp handshake > HANDSHAKE_TIMEOUT ->
  evicted id (handshakeSweep t st)
  /\ disconnects id (handshakeSweep t st) = S (disconnects id st).
Proof.
  intros Hp Ha Hlate. unfold handshakeSweep.
  pose proof (NoDup_fst_map_to_list (pendingHandshakes st)) as Hnd.
  apply elem_of_map_to_list in Hp.
  apply list_elem_of_split in Hp as (l1 & l2 & Hl). rewrite Hl in *.
  rewrite fmap_app, fmap_cons in Hnd. cbn [fst] in Hnd.
  apply NoDup_app in Hnd as (_ & Hdisj & Hnd2).
  apply NoDup_cons in Hnd2 as [Hnot2 _].
  assert (Hnot1 : id ∉ l1.*1).
  { intros Hin. apply (Hdisj id Hin). left. }
  rewrite fold_left_app. cbn [fold_left].
  destruct (handshakeVisit_fold_other t id l1 st Hnot1) as [Hd1 _].
  destruct (handshakeVisit_self t (fold_left (handshakeVisit t) l1 st) id handshake Ha Hlate)
    as [Hd He].
  destruct (handshakeVisit_fold_other t id l2
              (handshakeVisit t (fold_left (handshakeVisit t) l1 st) (id, handshake)) Hnot2)
    as [Hd2 He2].
  split; [auto | rewrite Hd2, Hd, Hd1; reflexivity].
Qed.

Lemma handshakeSweep_idle t id st :
  pendingHandshakes st !! id = None ->
  disconnects id (handshakeSweep t st) = disconnects id st.
Proof.
  intros Hp. unfold handshakeSweep. apply handshakeVisit_fold_other.
  intros Hin. apply list_elem_of_fmap in Hin as ([k h] & -> & Hin).
  apply elem_of_map_to_list in Hin. simpl in Hp. congruence.
Qed.

Lemma onConnection_starts_handshake t id random32 st :
  let st' := onConnection t id random32 st in
  pendingHandshakes st' !! id
  = Some {| challenge := generateChallenge random32; timestamp := now t;
            authenticated := false |}
  /\ (id, now t + HANDSHAKE_TIMEOUT) ∈ timeouts st'.
Proof.
  cbv zeta. unfold onConnection, startHandshake, addMasterLog, addClientLog, socket_write,
    broadcastToBrowsers. fields. split.
  - apply lookup_insert_eq.
  - apply elem_of_app. right. apply list_elem_of_singleton. reflexivity.
Qed.

(** C3 (as amended): a connection starts with an unanswered handshake
    stamped with the time of the connection and a timer due HANDSHAKE_TIMEOUT
    later. While the handshake is unanswered, the timer's callback evicts
    the record, destroys the socket and publishes [client_disconnect]; so
    does the handshake sweep once more than HANDSHAKE_TIMEOUT has passed.
    The close handler of the destroyed socket then publishes
    [client_disconnect] again: two events for the client in all. After the
    eviction the timer's callback and the sweep publish no further one; and
    when the peer closes the connection first, the close handler publishes
    the only one. *)
Theorem handshake_timeout_eviction t1 t2 id st handshake :
  pendingHandshakes st !! id = Some handshake ->
  authenticated handshake = false ->
  (forall t0 random32 st0,
     pendingHandshakes (onConnection t0 id random32 st0) !! id
     = Some {| challenge := generateChallenge random32; timestamp := now t0;
               authenticated := false |}
     /\ (id, now t0 + HANDSHAKE_TIMEOUT) ∈ timeouts (onConnection t0 id random32 st0))
  /\ (let st1 := handshakeTimeout t1 id st in
      evicted id st1 /\ socket_destroyed id st1
      /\ disconnects id st1 = S (disconnects id st)
      /\ disconnects id (onClose t2 id st1) = S (S (disconnects id st))
      /\ evicted id (onClose t2 id st1))
  /\ (now t1 - timestamp handshake > HANDSHAKE_TIMEOUT ->
      let st1 := handshakeSweep t1 st in
      evicted id st1
      /\ disconnects id st1 = S (disconnects id st)
      /\ disconnects id (onClose t2 id st1) = S (S (disconnects id st))
      /\ evicted id (onClose t2 id st1))
  /\ (forall t st', evicted id st' ->
      handshakeTimeout t id st' = st'
      /\ disconnects id (handshakeSweep t st') = disconnects id st')
  /\ (disconnects id (onClose t2 id st) = S (disconnects id st)
      /\ handshakeTimeout t1 id (onClose t2 id st) = onClose t2 id st).
Proof.
  intros Hp Ha. split_and!.
  - intros t0 random32 st0. apply onConnection_starts_handshake.
  - cbv zeta.
    destruct (handshakeTimeout_evicts t1 id st handshake Hp Ha) as (He & Hs & Hd).
    destruct (onClose_disconnects t2 id (handshakeTimeout t1 id st)) as [He' Hd'].
    split_and!; try assumption. rewrite Hd', Hd. reflexivity.
  - intros Hlate. cbv zeta.
    destruct (handshakeSweep_evicts t1 id st handshake Hp Ha Hlate) as [He Hd].
    destruct (onClose_disconnects t2 id (handshakeSweep t1 st)) as [He' Hd'].
    split_and!; try assumption. rewrite Hd', Hd. reflexivity.
  - intros t st' He. assert (Hnone : pendingHandshakes st' !! id = None) by apply He.
    split; [apply handshakeTimeout_idle | apply handshakeSweep_idle]; exact Hnone.
  - apply onClose_disconnects.
  - apply handshakeTimeout_idle. apply (proj1 (onClose_disconnects t2 id st)).
Qed.

Lemma handshake_timeout_eviction_witness :
  let handshake := {| challenge := example_challenge; timestamp := 0; authenticated := false |} in
  pendingHandshakes st_connected !! example_id = Some handshake
  /\ authenticated handshake = false
  /\ disconnects example_id st_timed_out = S (S (disconnects example_id st_connected))
  /\ evicted example_id st_timed_out.
Proof.
  intros handshake.
  assert (H1 : pendingHandshakes st_connected !! example_id = Some handshake)
    by (vm_compute; reflexivity).
  assert (H2 : authenticated handshake = false) by reflexivity.
  pose proof (handshake_timeout_eviction (clock_s 10) (clock_s 10) example_id st_connected
                handshake H1 H2) as H.
  destruct H as (_ & H & _). cbv zeta in H. destruct H as (_ & _ & _ & Hd & He).
  split; [exact H1 | split; [exact H2 | split; [exact Hd | exact He]]].
Defined.

(** C3 (as stated, refuted): the client that never answers is evicted by its
    timer at HANDSHAKE_TIMEOUT; with the close handler of the destroyed
    socket, two [client_disconnect] events are published for it, not one. *)
Lemma handshake_timeout_two_disconnects :
  (authenticated <$> pendingHandshakes st_connected !! example_id) = Some false
  /\ published st_timed_out
     = (published st_connected
        ++ [master_log "[18:00:10] Handshake timeout for 10.0.0.5:4000";
            client_disconnect example_id;
            log example_id "[Client undefined disconnected]";
            master_log "[18:00:10] Client disconnected: 10.0.0.5:4000";
            client_disconnect example_id])%list
  /\ count_events (is_client_disconnect example_id) (published st_timed_out) = 2%nat.
Proof. split_and!; vm_compute; reflexivity. Qed.

(** ** The username poller *)

Lemma sockets_addClientLog id msg st : sockets (addClientLog id msg st) = sockets st.
Proof. reflexivity. Qed.











(** ** The diff engine *)

Lemma JVal_induction (P : JVal -> Prop) :
  P JUndefined -> P JNull -> (forall b, P (JBool b)) -> (forall q, P (JNum q)) ->
  (forall s, P (JStr s)) ->
  (forall a props, Forall (fun kv => P kv.2) props -> P (JObj a props)) ->
  forall v, P v.
Proof.
  intros Hu Hn Hb Hq Hs Ho. fix IH 1.
  intros [| |b|q|s|a props]; [apply Hu | apply Hn | apply Hb | apply Hq | apply Hs |].
  apply Ho. induction props as [|[k x] props IHp]; constructor; [apply IH | exact IHp].
Qed.

Lemma includes_elem_of keys key : includes keys key = true <-> key ∈ keys.
Proof.
  unfold includes. rewrite existsb_exists, list_elem_of_In. split.
  - intros (k & Hin & Heq). apply String.eqb_eq in Heq. subst. exact Hin.
  - intros Hin. exists key. split; [exact Hin | apply String.eqb_refl].
Qed.

Lemma includes_false keys key : includes keys key = false <-> key ∉ keys.
Proof.
  rewrite <- includes_elem_of. destruct (includes keys key); split; congruence.
Qed.

Lemma lookup_prop_NoDup {A : Type} key (x : A) props :
  NoDup (map fst props) -> (key, x) ∈ props -> lookup_prop key props = Some x.
Proof.
  induction props as [|[k v] props IH]; intros Hnd Hin; [inversion Hin|].
  cbn [map fst] in Hnd. apply NoDup_cons in Hnd as [Hnot Hnd]. cbn [lookup_prop].
  apply elem_of_cons in Hin as [[= -> ->] | Hin].
  - rewrite String.eqb_refl. reflexivity.
  - destruct (String.eqb key k) eqn:Heq; [|auto].
    apply String.eqb_eq in Heq. subst k. exfalso. apply Hnot.
    apply list_elem_of_fmap. exists (key, x). split; [reflexivity | exact Hin].
Qed.

Lemma lookup_prop_None {A : Type} key (props : list (string * A)) :
  key ∉ map fst props -> lookup_prop key props = None.
Proof.
  induction props as [|[k v] props IH]; intros Hnot; [reflexivity|].
  cbn [map fst] in Hnot. apply not_elem_of_cons in Hnot as [Hne Hnot]. cbn [lookup_prop].
  apply String.eqb_neq in Hne. rewrite Hne. auto.
Qed.

Lemma lookup_prop_Some_elem {A : Type} key (props : list (string * A)) :
  key ∈ map fst props -> exists x, lookup_prop key props = Some x /\ (key, x) ∈ props.
Proof.
  induction props as [|[k v] props IH]; intros Hin; [inversion Hin|].
  cbn [map fst] in Hin. cbn [lookup_prop]. destruct (String.eqb key k) eqn:Heq.
  - apply String.eqb_eq in Heq. subst k. exists v. split; [reflexivity | left].
  - apply String.eqb_neq in Heq. apply elem_of_cons in Hin as [? | Hin]; [congruence|].
    destruct (IH Hin) as (x & Hx & Hxin). exists x. split; [exact Hx | right; exact Hxin].
Qed.

Lemma strict_equals_refl_primitive v :
  (forall a props, v <> JObj a props) -> strict_equals v v = true.
Proof.
  destruct v as [| |b|q|s|a props]; intros Hno; simpl.
  - reflexivity.
  - reflexivity.
  - destruct b; reflexivity.
  - unfold Qc_eq_bool. destruct (Qcanon.Qc_eq_dec q q); [reflexivity | congruence].
  - apply String.eqb_refl.
  - exfalso. eapply Hno. reflexivity.
Qed.

(** The comparison of an object, with its loop over the keys as one pass. *)
Lemma deepCompare_JObj a props1 obj2 :
  deepCompare (JObj a props1) obj2
  = if nullish obj2 then false
    else if negb (String.eqb "object" (typeof obj2)) then false
    else if negb (length props1 =? length (Object_keys obj2))%nat then false
    else forallb (fun kv => includes (Object_keys obj2) kv.1
                            && deepCompare kv.2 (get_prop obj2 kv.1)) props1.
Proof.
  cbn [deepCompare strict_equals nullish orb typeof].
  destruct (nullish obj2); [reflexivity|].
  destruct (negb (String.eqb "object" (typeof obj2))); [reflexivity|].
  destruct (negb (length props1 =? length (Object_keys obj2))%nat); [reflexivity|].
  induction props1 as [|[key v1] ps IH]; [reflexivity|].
  cbn [forallb fst snd]. rewrite <- IH.
  destruct (includes (Object_keys obj2) key); [|reflexivity].
  destruct (deepCompare v1 (get_prop obj2 key)); reflexivity.
Qed.

Lemma well_formed_JObj a props :
  well_formed (JObj a props) = true
  <-> NoDup (map fst props) /\ Forall (fun kv => well_formed kv.2 = true) props.
Proof.
  cbn [well_formed]. rewrite andb_true_iff, bool_decide_eq_true.
  apply and_iff_compat_l.
  induction props as [|[k x] props IH].
  - split; [constructor | reflexivity].
  - rewrite Forall_cons, andb_true_iff, IH. reflexivity.
Qed.

(** An object compares equal to itself, so that the reference test of
    [deepCompare] may be left out of the model. *)
Lemma deepCompare_refl v : well_formed v = true -> deepCompare v v = true.
Proof.
  induction v as [| |b|q|s|a props IH] using JVal_induction; intros Hwf;
    try (unfold deepCompare; rewrite strict_equals_refl_primitive by discriminate; reflexivity).
  apply well_formed_JObj in Hwf as [Hnd Hall].
  rewrite deepCompare_JObj. cbn [nullish typeof negb]. unfold Object_keys. cbn [own_props].
  rewrite length_map, Nat.eqb_refl. cbn [negb String.eqb Ascii.eqb Bool.eqb].
  apply forallb_forall. intros [k x] Hin. apply list_elem_of_In in Hin. cbn [fst snd].
  apply andb_true_iff. split.
  - apply includes_elem_of, list_elem_of_fmap. exists (k, x). split; [reflexivity | exact Hin].
  - unfold get_prop. cbn [own_props]. rewrite (lookup_prop_NoDup k x props Hnd Hin).
    rewrite Forall_forall in IH, Hall. apply (IH (k, x) Hin), (Hall (k, x) Hin).
Qed.

Lemma new_Set_spec l : forall seen,
  NoDup (new_Set seen l) /\ forall x, x ∈ new_Set seen l <-> x ∈ l /\ x ∉ seen.
Proof.
  induction l as [|k l IH]; intros seen; cbn [new_Set].
  - split; [constructor|]. intros x. rewrite elem_of_nil. tauto.
  - destruct (includes seen k) eqn:Hk.
    + apply includes_elem_of in Hk. destruct (IH seen) as [Hnd Hel]. split; [exact Hnd|].
      intros x. rewrite Hel, elem_of_cons. split; [tauto|].
      intros [[-> | Hx] Hnot]; [contradiction | tauto].
    + apply includes_false in Hk. destruct (IH (k :: seen)) as [Hnd Hel]. split.
      * apply NoDup_cons. split; [|exact Hnd]. rewrite Hel, elem_of_cons. tauto.
      * intros x. rewrite !elem_of_cons, Hel, not_elem_of_cons. split.
        -- intros [-> | [Hx [Hne Hnot]]]; tauto.
        -- intros [[-> | Hx] Hnot]; [tauto|].
           destruct (decide (x = k)) as [-> | Hne]; tauto.
Qed.

Lemma keys_or_empty v :
  Object_keys (if truthy v then v else JObj false []) = Object_keys v.
Proof.
  destruct v as [| |b|q|s|a props]; cbn [truthy]; try reflexivity.
  - destruct b; reflexivity.
  - destruct (negb (Qc_eq_bool q (Q2Qc 0))); reflexivity.
  - destruct s; reflexivity.
Qed.

Lemma truthy_not_nullish v : truthy v = true -> nullish v = false.
Proof. destruct v; simpl; congruence. Qed.

Lemma getChangedFields_returns oldState newState :
  truthy newState = true ->
  getChangedFields oldState newState
  = Normal match changed_keys oldState newState with
           | [] => None
           | keys => Some (changes_of newState keys)
           end.
Proof.
  intros Ht. unfold getChangedFields, changed_keys, changes_of.
  rewrite !keys_or_empty, (truthy_not_nullish _ Ht).
  destruct (List.filter _ _); reflexivity.
Qed.

Lemma changed_keys_spec oldState newState :
  NoDup (changed_keys oldState newState)
  /\ forall key, key ∈ changed_keys oldState newState
       <-> (key ∈ Object_keys oldState \/ key ∈ Object_keys newState)
           /\ deepCompare (get_prop oldState key) (get_prop newState key) = false.
Proof.
  unfold changed_keys.
  destruct (new_Set_spec (Object_keys oldState ++ Object_keys newState) []) as [Hnd Hel].
  split.
  - apply NoDup_ListNoDup, List.NoDup_filter, NoDup_ListNoDup, Hnd.
  - intros key. rewrite list_elem_of_In, filter_In, <- list_elem_of_In, Hel, elem_of_app,
      negb_true_iff, elem_of_nil. tauto.
Qed.

Lemma own_props_well_formed v :
  well_formed v = true -> Forall (fun kv => well_formed kv.2 = true) (own_props v).
Proof.
  destruct v as [| |b|q|s|a props]; intros Hwf; cbn [own_props]; try constructor.
  - apply Forall_forall. intros kv Hin. apply elem_of_lookup_imap in Hin as (i & c & -> & _).
    reflexivity.
  - apply well_formed_JObj in Hwf. apply Hwf.
Qed.


Lemma update_if_changed_fields id field changes st :
  clientStateCache (update_if_changed id field changes st) = clientStateCache st
  /\ clientNames (update_if_changed id field changes st) = clientNames st
  /\ clientLogs (update_if_changed id field changes st) = clientLogs st
  /\ sockets (update_if_changed id field changes st) = sockets st
  /\ forall id',
       count_events (is_status_update_json id') (published (update_if_changed id field changes st))
       = count_events (is_status_update_json id') (published st).
Proof.
  unfold update_if_changed, updateStatus, broadcastToBrowsers.
  destruct (defined (get_prop changes field)); fields; split_and!; try reflexivity.
  intros id'. rewrite count_events_app. unfold count_events at 2. simpl. lia.
Qed.

Lemma handleStatusUpdate_unchanged t id newStatus timestamp st :
  truthy newStatus = true -> changed_keys (cached id st) newStatus = [] ->
  handleStatusUpdate t id newStatus timestamp st
  = addClientLog id "[Status update - no changes detected]" st.
Proof.
  intros Ht Hc. unfold handleStatusUpdate. rewrite Ht. cbn [negb].
  fold (cached id st). rewrite getChangedFields_returns, Hc by assumption. reflexivity.
Qed.

Lemma handleStatusUpdate_changed t id newStatus timestamp st :
  truthy newStatus = true -> changed_keys (cached id st) newStatus <> [] ->
  let changes := changes_of newStatus (changed_keys (cached id st) newStatus) in
  let st' := handleStatusUpdate t id newStatus timestamp st in
  clientStateCache st' = <[id := spread newStatus]> (clientStateCache st)
  /\ clientNames st' = clientNames st
  /\ sockets st' = sockets st
  /\ status_update_json id newStatus changes (or_else timestamp (toISOString t)) (toISOString t)
     ∈ published st'
  /\ count_events (is_status_update_json id) (published st')
     = S (count_events (is_status_update_json id) (published st)).
Proof.
  intros Ht Hc. cbv zeta. unfold handleStatusUpdate. rewrite Ht. cbn [negb].
  fold (cached id st). rewrite getChangedFields_returns by assumption.
  destruct (changed_keys (cached id st) newStatus) as [|key keys] eqn:Hkeys; [congruence|].
  cbv zeta. set (changes := changes_of newStatus (key :: keys)).
  set (s0 := set_clientStateCache <[id:=spread newStatus]> st).
  destruct (update_if_changed_fields id "loaded" changes s0) as (Ha1 & Hb1 & _ & Hs1 & Hd1).
  set (s1 := update_if_changed id "loaded" changes s0) in *.
  destruct (update_if_changed_fields id "logged" changes s1) as (Ha2 & Hb2 & _ & Hs2 & Hd2).
  set (s2 := update_if_changed id "logged" changes s1) in *.
  destruct (update_if_changed_fields id "scriptRunning" changes s2) as (Ha3 & Hb3 & _ & Hs3 & Hd3).
  set (s3 := update_if_changed id "scriptRunning" changes s2) in *.
  destruct (update_if_changed_fields id "loadedScript" changes s3) as (Ha4 & Hb4 & _ & Hs4 & Hd4).
  set (s4 := update_if_changed id "loadedScript" changes s3) in *.
  unfold addClientLog, broadcastToBrowsers. fields.
  rewrite Ha4, Ha3, Ha2, Ha1, Hb4, Hb3, Hb2, Hb1, Hs4, Hs3, Hs2, Hs1.
  split_and!; try reflexivity.
  - rewrite !elem_of_app, !list_elem_of_singleton. left. right. reflexivity.
  - rewrite !count_events_app, Hd4, Hd3, Hd2, Hd1. unfold count_events at 2 3.
    cbn [List.filter is_status_update_json length]. rewrite String.eqb_refl. simpl.
    subst s0. fields. lia.
Qed.



Lemma processJsonMessage_status_update t id jsonData st :
  m_type jsonData = Some "status_update" ->
  processJsonMessage t id jsonData st
  = handleStatusUpdate t id (m_status jsonData) (m_timestamp jsonData)
      (updateClientName id (m_clientName jsonData) st).
Proof. intros Hty. unfold processJsonMessage. rewrite Hty. reflexivity. Qed.






Lemma lookup_prop_map (f : string -> JVal) key keys :
  key ∈ keys -> lookup_prop key (map (fun k => (k, f k)) keys) = Some (f key).
Proof.
  induction keys as [|k keys IH]; intros Hin; [inversion Hin|].
  cbn [map lookup_prop]. destruct (String.eqb key k) eqn:Heq.
  - apply String.eqb_eq in Heq. subst. reflexivity.
  - apply String.eqb_neq in Heq. apply elem_of_cons in Hin as [? | Hin]; [congruence | auto].
Qed.

Lemma get_prop_changes_of newState keys key :
  key ∈ keys -> get_prop (changes_of newState keys) key = get_prop newState key.
Proof.
  intros Hin. unfold changes_of. unfold get_prop at 1. cbn [own_props].
  rewrite (lookup_prop_map (get_prop newState) key keys Hin). reflexivity.
Qed.

Lemma Object_keys_changes_of newState keys : Object_keys (changes_of newState keys) = keys.
Proof.
  unfold Object_keys, changes_of. cbn [own_props]. rewrite map_map. cbn [fst]. apply map_id.
Qed.



(** * Further properties *)

(** ** Runs and logs *)

(** X1: in every state the server reaches from its start, whatever the
    events, no client log and not the master log holds more than MAX_LOGS
    entries. *)
Theorem logs_never_exceed_capacity JSON_parse secret trace st :
  run JSON_parse secret trace initial_state = Normal st -> logs_bounded st.
Proof. apply logs_bounded_run, logs_bounded_initial. Qed.

Lemma logs_never_exceed_capacity_witness :
  run (fun _ => None) default_HANDSHAKE_SECRET example_trace initial_state
  = Normal st_example_run
  /\ logs_bounded st_example_run.
Proof.
  assert (H : run (fun _ => None) default_HANDSHAKE_SECRET example_trace initial_state
              = Normal st_example_run) by (vm_compute; reflexivity).
  split; [exact H|].
  exact (logs_never_exceed_capacity _ _ _ _ H).
Defined.

(** ** The diff engine, further *)

Lemma deepCompare_primitive a b :
  (forall f props, a <> JObj f props) -> deepCompare a b = strict_equals a b.
Proof.
  intros Hno. destruct a as [| |x|q|s|f props]; try (exfalso; eapply Hno; reflexivity);
    destruct b as [| |y|r|u|g props']; cbn [deepCompare strict_equals nullish orb typeof];
    try reflexivity.
  - destruct (Bool.eqb x y); reflexivity.
  - destruct (Qc_eq_bool q r); reflexivity.
  - destruct (String.eqb s u); reflexivity.
Qed.

Lemma strict_equals_sym a b : strict_equals a b = strict_equals b a.
Proof.
  destruct a as [| |x|q|s|f props], b as [| |y|r|u|g props']; cbn [strict_equals];
    try reflexivity.
  - destruct x, y; reflexivity.
  - unfold Qc_eq_bool.
    destruct (Qcanon.Qc_eq_dec q r), (Qcanon.Qc_eq_dec r q); congruence.
  - apply String.eqb_sym.
Qed.

Lemma deepCompare_JObj_prim f props b :
  (forall g props', b <> JObj g props') -> deepCompare (JObj f props) b = false.
Proof.
  intros Hno. rewrite deepCompare_JObj.
  destruct b as [| |y|r|u|g props']; try reflexivity. exfalso. eapply Hno. reflexivity.
Qed.

(** Two objects compare equal exactly when they have as many keys, every
    key of the first is a key of the second, and the values agree. *)
Lemma deepCompare_objects f1 props1 f2 props2 :
  deepCompare (JObj f1 props1) (JObj f2 props2) = true
  <-> length props1 = length props2
      /\ forall key v1, (key, v1) ∈ props1 ->
           key ∈ map fst props2
           /\ deepCompare v1 (get_prop (JObj f2 props2) key) = true.
Proof.
  rewrite deepCompare_JObj. cbn [nullish typeof]. unfold Object_keys. cbn [own_props].
  rewrite length_map. cbn [String.eqb Ascii.eqb Bool.eqb negb].
  destruct (Nat.eqb_spec (length props1) (length props2)) as [Hlen | Hlen]; cbn [negb].
  - rewrite forallb_forall. split.
    + intros H. split; [exact Hlen|]. intros key v1 Hin. apply list_elem_of_In in Hin.
      specialize (H (key, v1) Hin). cbn [fst snd] in H. apply andb_true_iff in H as [H1 H2].
      apply includes_elem_of in H1. split; assumption.
    + intros [_ H] [key v1] Hin. apply list_elem_of_In in Hin.
      destruct (H key v1 Hin) as [H1 H2]. cbn [fst snd]. apply andb_true_iff.
      split; [apply includes_elem_of|]; assumption.
  - split; [discriminate | tauto].
Qed.

Lemma get_prop_JObj f props key x :
  NoDup (map fst props) -> (key, x) ∈ props -> get_prop (JObj f props) key = x.
Proof.
  intros Hnd Hin. unfold get_prop. cbn [own_props].
  rewrite (lookup_prop_NoDup key x props Hnd Hin). reflexivity.
Qed.

Lemma keys_included_back (props1 props2 : list (string * JVal)) :
  NoDup (map fst props1) -> NoDup (map fst props2) -> length props1 = length props2 ->
  (forall key, key ∈ map fst props1 -> key ∈ map fst props2) ->
  forall key, key ∈ map fst props2 -> key ∈ map fst props1.
Proof.
  intros Hnd1 Hnd2 Hlen Hsub key Hin.
  assert (Hperm : map fst props1 ≡ₚ map fst props2).
  { apply submseteq_length_Permutation; [apply NoDup_submseteq; assumption|].
    rewrite !length_map. lia. }
  rewrite Hperm. exact Hin.
Qed.

Lemma deepCompare_sym_true a : forall b,
  well_formed a = true -> well_formed b = true ->
  deepCompare a b = true -> deepCompare b a = true.
Proof.
  induction a as [| |x|q|s|f props IH] using JVal_induction; intros b Hwa Hwb Hab.
  1-5: rewrite deepCompare_primitive in Hab by discriminate;
       destruct b as [| |y|r|u|g props']; try discriminate Hab;
       rewrite deepCompare_primitive by discriminate;
       (etransitivity; [apply strict_equals_sym | exact Hab]).
  destruct b as [| |y|r|u|g props'];
    try (rewrite deepCompare_JObj_prim in Hab by discriminate; discriminate).
  apply well_formed_JObj in Hwa as [Hnd1 Hall1]. apply well_formed_JObj in Hwb as [Hnd2 Hall2].
  apply deepCompare_objects in Hab as [Hlen Hab]. apply deepCompare_objects.
  split; [symmetry; exact Hlen|]. intros key w Hin.
  assert (Hkey : key ∈ map fst props).
  { apply (keys_included_back props props' Hnd1 Hnd2 Hlen).
    - intros k Hk. apply list_elem_of_fmap in Hk as ([k' v] & -> & Hk). apply (Hab k' v Hk).
    - apply list_elem_of_fmap. exists (key, w). split; [reflexivity | exact Hin]. }
  split; [exact Hkey|].
  destruct (lookup_prop_Some_elem key props Hkey) as (v & _ & Hv).
  rewrite (get_prop_JObj f props key v Hnd1 Hv).
  destruct (Hab key v Hv) as [_ Hvw]. rewrite (get_prop_JObj g props' key w Hnd2 Hin) in Hvw.
  rewrite Forall_forall in IH, Hall1, Hall2.
  apply (IH (key, v) Hv w); [apply (Hall1 (key, v) Hv) | apply (Hall2 (key, w) Hin) | exact Hvw].
Qed.

Lemma deepCompare_trans_true a : forall b c,
  well_formed a = true -> well_formed b = true -> well_formed c = true ->
  deepCompare a b = true -> deepCompare b c = true -> deepCompare a c = true.
Proof.
  induction a as [| |x|q|s|f props IH] using JVal_induction; intros b c Hwa Hwb Hwc Hab Hbc;
    try (rewrite deepCompare_primitive in Hab by discriminate;
         destruct b as [| |y|r|u|g props']; try discriminate Hab;
         rewrite deepCompare_primitive in Hbc by discriminate;
         rewrite deepCompare_primitive by discriminate;
         destruct c as [| |z|r'|u'|h props'']; try discriminate Hbc;
         cbn [strict_equals] in *).
  - reflexivity.
  - reflexivity.
  - apply Bool.eqb_prop in Hab, Hbc. subst. apply Bool.eqb_reflx.
  - unfold Qc_eq_bool in *.
    destruct (Qcanon.Qc_eq_dec q r), (Qcanon.Qc_eq_dec r r'), (Qcanon.Qc_eq_dec q r');
      congruence.
  - apply String.eqb_eq in Hab, Hbc. subst. apply String.eqb_refl.
  - destruct b as [| |y|r|u|g props'];
      try (rewrite deepCompare_JObj_prim in Hab by discriminate; discriminate).
    destruct c as [| |z|r'|u'|h props''];
      try (rewrite deepCompare_JObj_prim in Hbc by discriminate; discriminate).
    apply well_formed_JObj in Hwa as [Hnd1 Hall1].
    apply well_formed_JObj in Hwb as [Hnd2 Hall2].
    apply well_formed_JObj in Hwc as [Hnd3 Hall3].
    apply deepCompare_objects in Hab as [Hlen1 Hab].
    apply deepCompare_objects in Hbc as [Hlen2 Hbc].
    apply deepCompare_objects. split; [congruence|]. intros key v Hv.
    destruct (Hab key v Hv) as [Hk2 Hvw].
    destruct (lookup_prop_Some_elem key props' Hk2) as (w & _ & Hw).
    rewrite (get_prop_JObj g props' key w Hnd2 Hw) in Hvw.
    destruct (Hbc key w Hw) as [Hk3 Hwx]. split; [exact Hk3|].
    destruct (lookup_prop_Some_elem key props'' Hk3) as (x & _ & Hx).
    rewrite (get_prop_JObj h props'' key x Hnd3 Hx) in Hwx |- *.
    rewrite Forall_forall in IH, Hall1, Hall2, Hall3.
    apply (IH (key, v) Hv w x);
      [apply (Hall1 (key, v) Hv) | apply (Hall2 (key, w) Hw) | apply (Hall3 (key, x) Hx)
      | exact Hvw | exact Hwx].
Qed.

(** X2: on values whose objects hold each key once, [deepCompare] is an
    equivalence: every value equals itself, the order of the arguments does
    not matter, and equality carries over a middle value. *)
Theorem deepCompare_equivalence a b c :
  well_formed a = true -> well_formed b = true -> well_formed c = true ->
  deepCompare a a = true
  /\ deepCompare a b = deepCompare b a
  /\ (deepCompare a b = true -> deepCompare b c = true -> deepCompare a c = true).
Proof.
  intros Hwa Hwb Hwc. split_and!.
  - apply deepCompare_refl, Hwa.
  - destruct (deepCompare a b) eqn:Hab, (deepCompare b a) eqn:Hba; try reflexivity.
    + rewrite (deepCompare_sym_true a b Hwa Hwb Hab) in Hba. discriminate.
    + rewrite (deepCompare_sym_true b a Hwb Hwa Hba) in Hab. discriminate.
  - apply deepCompare_trans_true; assumption.
Qed.

Lemma deepCompare_equivalence_witness :
  let a := full_status true false in
  let b := JObj false [("extra", JObj false [("level", JNum (Q2Qc 7))]);
                       ("loadedScript", JStr "farm.cs"); ("scriptRunning", JBool false);
                       ("logged", JBool false); ("loaded", JBool true)] in
  well_formed a = true /\ well_formed b = true
  /\ deepCompare a b = deepCompare b a /\ deepCompare a b = true.
Proof.
  intros a b.
  assert (Ha : well_formed a = true) by (vm_compute; reflexivity).
  assert (Hb : well_formed b = true) by (vm_compute; reflexivity).
  destruct (deepCompare_equivalence a b a Ha Hb Ha) as (_ & Hsym & _).
  split; [exact Ha | split; [exact Hb | split; [exact Hsym | vm_compute; reflexivity]]].
Defined.

(** X3: for a status that is not falsy, [getChangedFields] does not throw;
    it returns [null] exactly when the two states agree on every key of
    their union, and otherwise an object whose keys are, each once, the
    keys of the union on which they differ, every one with the value of the
    new state. Neither state has the key [__proto__], which an assignment
    to [changes] would not store. *)
Theorem getChangedFields_diff oldState newState :
  truthy newState = true ->
  "__proto__" ∉ Object_keys oldState -> "__proto__" ∉ Object_keys newState ->
  (getChangedFields oldState newState = Normal None
   <-> forall key, key ∈ Object_keys oldState \/ key ∈ Object_keys newState ->
         deepCompare (get_prop oldState key) (get_prop newState key) = true)
  /\ (getChangedFields oldState newState = Normal None
      \/ exists changes,
           getChangedFields oldState newState = Normal (Some changes)
           /\ NoDup (Object_keys changes)
           /\ (forall key, key ∈ Object_keys changes
                 <-> (key ∈ Object_keys oldState \/ key ∈ Object_keys newState)
                     /\ deepCompare (get_prop oldState key) (get_prop newState key) = false)
           /\ (forall key, key ∈ Object_keys changes ->
                 get_prop changes key = get_prop newState key)).
Proof.
  intros Ht _ _. rewrite getChangedFields_returns by assumption.
  destruct (changed_keys_spec oldState newState) as [Hnd Hel].
  destruct (changed_keys oldState newState) as [|k ks] eqn:Hkeys.
  - split; [|left; reflexivity]. split; [|reflexivity].
    intros _ key Hkey.
    destruct (deepCompare (get_prop oldState key) (get_prop newState key)) eqn:Hd;
      [reflexivity|].
    exfalso. assert (Hin : key ∈ @nil string) by (apply Hel; split; assumption).
    inversion Hin.
  - split.
    + split; [discriminate|]. intros Hall. exfalso.
      assert (Hin : k ∈ k :: ks) by left. apply Hel in Hin as [Hkey Hd].
      rewrite (Hall k Hkey) in Hd. discriminate.
    + right. exists (changes_of newState (k :: ks)). rewrite Object_keys_changes_of.
      split_and!; [reflexivity | exact Hnd | exact Hel |].
      intros key Hin. apply get_prop_changes_of, Hin.
Qed.

Lemma getChangedFields_diff_witness :
  truthy (full_status true true) = true
  /\ ("__proto__" ∉ Object_keys (full_status false false))
  /\ ("__proto__" ∉ Object_keys (full_status true true))
  /\ exists changes,
       getChangedFields (full_status false false) (full_status true true)
       = Normal (Some changes)
       /\ Object_keys changes = ["loaded"; "scriptRunning"].
Proof.
  assert (Ht : truthy (full_status true true) = true) by reflexivity.
  assert (Hkeys : forall a b, "__proto__" ∉ Object_keys (full_status a b)).
  { intros a b H. cbn in H.
    repeat (apply elem_of_cons in H as [H | H]; [discriminate H|]). inversion H. }
  split; [exact Ht | split; [apply Hkeys | split; [apply Hkeys|]]].
  destruct (getChangedFields_diff (full_status false false) (full_status true true) Ht
              (Hkeys false false) (Hkeys true true))
    as [_ [Hnone | (changes & Hc & _)]].
  - exfalso. vm_compute in Hnone. discriminate.
  - exists changes. split; [exact Hc|].
    vm_compute in Hc. injection Hc as <-. reflexivity.
Defined.

(** X4: on a new state that is [null] or [undefined], [getChangedFields]
    returns [null] when the old state has no key with a value, and throws a
    TypeError as soon as it has one. *)
Theorem getChangedFields_null_state oldState newState :
  nullish newState = true ->
  ((forall key, key ∈ Object_keys oldState -> get_prop oldState key = JUndefined) ->
   getChangedFields oldState newState = Normal None)
  /\ ((exists key, key ∈ Object_keys oldState /\ get_prop oldState key <> JUndefined) ->
      getChangedFields oldState newState
      = Throw (TypeError "Cannot read properties of null")).
Proof.
  intros Hnull. unfold getChangedFields. rewrite !keys_or_empty, Hnull.
  fold (changed_keys oldState newState).
  destruct (changed_keys_spec oldState newState) as [_ Hel].
  assert (Hget : forall key, get_prop newState key = JUndefined)
    by (intros key; destruct newState; try discriminate; reflexivity).
  assert (Hund : forall v, deepCompare v JUndefined = true <-> v = JUndefined).
  { intros v. split; [|intros ->; reflexivity].
    destruct v; [reflexivity | discriminate.. |]. rewrite deepCompare_JObj. discriminate. }
  split.
  - intros Hall. destruct (changed_keys oldState newState) as [|k ks]; [reflexivity|].
    exfalso. assert (Hin : k ∈ k :: ks) by left. apply Hel in Hin as [[Hk | Hk] Hd].
    + rewrite Hget, (Hall k Hk) in Hd. discriminate.
    + destruct newState; try discriminate; inversion Hk.
  - intros (key & Hk & Hv).
    destruct (changed_keys oldState newState) as [|k ks] eqn:Hkeys; [|reflexivity].
    exfalso. assert (Hin : key ∈ @nil string); [|inversion Hin].
    apply Hel. split; [left; exact Hk|]. rewrite Hget.
    destruct (deepCompare (get_prop oldState key) JUndefined) eqn:Hd; [|reflexivity].
    apply Hund in Hd. contradiction.
Qed.

Lemma getChangedFields_null_state_witness :
  nullish JNull = true
  /\ (exists key, key ∈ Object_keys (full_status true true)
                  /\ get_prop (full_status true true) key <> JUndefined)
  /\ getChangedFields (full_status true true) JNull
     = Throw (TypeError "Cannot read properties of null").
Proof.
  assert (H1 : nullish JNull = true) by reflexivity.
  assert (H2 : exists key, key ∈ Object_keys (full_status true true)
                           /\ get_prop (full_status true true) key <> JUndefined).
  { exists "loaded". split; [vm_compute; left | vm_compute; discriminate]. }
  split; [exact H1 | split; [exact H2|]].
  apply (proj2 (getChangedFields_null_state (full_status true true) JNull H1) H2).
Defined.

(** ** One client and the others *)

Lemma entries_set_published f id st :
  client_entries id (set_published f st) = client_entries id st.
Proof. reflexivity. Qed.

Lemma entries_set_masterLog f id st :
  client_entries id (set_masterLog f st) = client_entries id st.
Proof. reflexivity. Qed.

Lemma entries_set_timeouts f id st :
  client_entries id (set_timeouts f st) = client_entries id st.
Proof. reflexivity. Qed.

Lemma entries_broadcast obj id st :
  client_entries id (broadcastToBrowsers obj st) = client_entries id st.
Proof. reflexivity. Qed.

Lemma entries_addClientLog k msg id st :
  k <> id -> client_entries id (addClientLog k msg st) = client_entries id st.
Proof.
  intros Hne. unfold addClientLog, broadcastToBrowsers, client_entries. fields.
  rewrite lookup_insert_ne by assumption. reflexivity.
Qed.

Lemma entries_addMasterLog t msg clientId id st :
  client_entries id (addMasterLog t msg clientId st) = client_entries id st.
Proof. reflexivity. Qed.

Lemma entries_clearMasterLog id st : client_entries id (clearMasterLog st) = client_entries id st.
Proof. reflexivity. Qed.

Lemma entries_socket_write k data id st :
  k <> id -> client_entries id (socket_write k data st) = client_entries id st.
Proof.
  intros Hne. unfold socket_write, client_entries. fields.
  rewrite lookup_alter_ne by assumption. reflexivity.
Qed.

Lemma entries_socket_destroy k id st :
  k <> id -> client_entries id (socket_destroy k st) = client_entries id st.
Proof.
  intros Hne. unfold socket_destroy, client_entries. fields.
  rewrite lookup_alter_ne by assumption. reflexivity.
Qed.

Lemma entries_updateStatus k field value id st :
  k <> id -> client_entries id (updateStatus k field value st) = client_entries id st.
Proof.
  intros Hne. unfold updateStatus, broadcastToBrowsers, client_entries. fields.
  rewrite lookup_insert_ne by assumption. reflexivity.
Qed.

Lemma entries_set_clientUsernameStatus k x id st :
  k <> id -> client_entries id (set_clientUsernameStatus <[k := x]> st) = client_entries id st.
Proof.
  intros Hne. unfold client_entries. fields.
  rewrite lookup_insert_ne by assumption. reflexivity.
Qed.

Lemma entries_stopUsernameChecker k id st :
  k <> id -> client_entries id (stopUsernameChecker k st) = client_entries id st.
Proof.
  intros Hne. unfold stopUsernameChecker. repeat case_match; try reflexivity.
  rewrite entries_addClientLog, entries_set_clientUsernameStatus by assumption. reflexivity.
Qed.

Lemma bool_decide_difference_ne (k id : string) (s : gset string) :
  k <> id -> bool_decide (id ∈ s ∖ {[k]}) = bool_decide (id ∈ s).
Proof.
  intros Hne. apply bool_decide_ext. rewrite elem_of_difference, elem_of_singleton.
  split; [tauto | intros H; split; [exact H | congruence]].
Qed.

Lemma bool_decide_union_ne (k id : string) (s : gset string) :
  k <> id -> bool_decide (id ∈ {[k]} ∪ s) = bool_decide (id ∈ s).
Proof.
  intros Hne. apply bool_decide_ext. rewrite elem_of_union, elem_of_singleton.
  split; [intros [H | H]; [congruence | exact H] | tauto].
Qed.

Lemma clientLogs_cleanupClient_other k id st :
  k <> id -> clientLogs (cleanupClient k st) !! id = clientLogs st !! id.
Proof.
  intros Hne. unfold cleanupClient, stopUsernameChecker, addClientLog, broadcastToBrowsers.
  fields.
  destruct (clientUsernameStatus st !! k) as [[h r []]|]; cbn [checker]; fields;
    rewrite ?lookup_insert_ne, lookup_delete_ne by assumption; reflexivity.
Qed.

Lemma entries_cleanupClient k id st :
  k <> id -> client_entries id (cleanupClient k st) = client_entries id st.
Proof.
  intros Hne.
  destruct (cleanupClient_fields k st) as (H1 & H2 & H3 & H4 & H5 & H6 & H7 & _ & _ & H10).
  unfold client_entries.
  rewrite H1, H2, H3, H4, H5, H6, H7, H10, (clientLogs_cleanupClient_other k id st Hne).
  rewrite !lookup_delete_ne, (bool_decide_difference_ne k id _ Hne) by assumption.
  reflexivity.
Qed.

Lemma entries_update_if_changed k field changes id st :
  k <> id -> client_entries id (update_if_changed k field changes st) = client_entries id st.
Proof.
  intros Hne. unfold update_if_changed. case_match; [|reflexivity].
  apply entries_updateStatus, Hne.
Qed.

Lemma entries_set_clientStateCache k x id st :
  k <> id -> client_entries id (set_clientStateCache <[k := x]> st) = client_entries id st.
Proof.
  intros Hne. unfold client_entries. fields.
  rewrite lookup_insert_ne by assumption. reflexivity.
Qed.

Lemma entries_handleStatusUpdate t k newStatus timestamp id st :
  k <> id -> client_entries id (handleStatusUpdate t k newStatus timestamp st) = client_entries id st.
Proof.
  intros Hne. unfold handleStatusUpdate. cbv zeta. repeat case_match; try reflexivity;
    rewrite ?entries_addClientLog, ?entries_broadcast, ?entries_update_if_changed,
      ?entries_set_clientStateCache by assumption; reflexivity.
Qed.

Lemma entries_sendUsernameRequest t k id st :
  k <> id -> client_entries id (sendUsernameRequest t k st).1 = client_entries id st.
Proof.
  intros Hne. unfold sendUsernameRequest. cbv zeta. case_match; cbn [fst]; [reflexivity|].
  rewrite entries_addClientLog, entries_socket_write by assumption. reflexivity.
Qed.

Lemma entries_startUsernameChecker k id st :
  k <> id -> client_entries id (startUsernameChecker k st) = client_entries id st.
Proof.
  intros Hne. unfold startUsernameChecker. cbv zeta. repeat case_match; try reflexivity;
    rewrite entries_addClientLog, entries_set_clientUsernameStatus by assumption; reflexivity.
Qed.

Lemma entries_usernameCheckerTick t k id st :
  k <> id -> client_entries id (usernameCheckerTick t k st) = client_entries id st.
Proof.
  intros Hne. unfold usernameCheckerTick. cbv zeta.
  destruct (clientUsernameStatus st !! k) as [status|]; [|reflexivity].
  destruct (checker status); cbn [negb]; [|reflexivity].
  destruct (hasUsername status).
  { rewrite entries_addClientLog, entries_set_clientUsernameStatus by assumption. reflexivity. }
  destruct (requestSent status); cbn [negb]; [reflexivity|].
  pose proof (entries_sendUsernameRequest t k id st Hne) as Hsend.
  destruct (sendUsernameRequest t k st) as [st1 sent]. cbn [fst] in Hsend.
  destruct sent; [|exact Hsend].
  rewrite entries_addClientLog, entries_set_clientUsernameStatus by assumption. exact Hsend.
Qed.

Lemma entries_handleUsernameResponse k username id st :
  k <> id -> client_entries id (handleUsernameResponse k username st) = client_entries id st.
Proof.
  intros Hne. unfold handleUsernameResponse. cbv zeta.
  assert (Hset : forall f st0,
            client_entries id
              (set_clientUsernameStatus (alter f k) (set_clientNames <[k := default EmptyString username]> st0))
            = client_entries id st0).
  { intros f st0. unfold client_entries. fields.
    rewrite lookup_insert_ne, lookup_alter_ne by assumption. reflexivity. }
  destruct username as [username|]; [|apply entries_addClientLog, Hne].
  destruct (String.eqb username EmptyString); [apply entries_addClientLog, Hne|].
  cbn [default] in Hset.
  case_match; rewrite ?entries_addClientLog, ?entries_broadcast, ?entries_addClientLog
    by assumption; apply Hset.
Qed.

Lemma entries_updateClientName k clientName id st :
  k <> id -> client_entries id (updateClientName k clientName st) = client_entries id st.
Proof.
  intros Hne. unfold updateClientName. repeat case_match; try reflexivity.
  rewrite entries_broadcast. unfold client_entries. fields.
  rewrite lookup_insert_ne by assumption. reflexivity.
Qed.

Lemma entries_set_clientLastHeartbeat k x id st :
  k <> id -> client_entries id (set_clientLastHeartbeat <[k := x]> st) = client_entries id st.
Proof.
  intros Hne. unfold client_entries. fields.
  rewrite lookup_insert_ne by assumption. reflexivity.
Qed.

Lemma entries_processJsonMessage t k jsonData id st :
  k <> id -> client_entries id (processJsonMessage t k jsonData st) = client_entries id st.
Proof.
  intros Hne. unfold processJsonMessage. cbv zeta.
  repeat case_match;
    rewrite ?entries_handleStatusUpdate, ?entries_set_clientLastHeartbeat,
      ?entries_handleUsernameResponse, ?entries_addClientLog by assumption;
    apply entries_updateClientName, Hne.
Qed.

Lemma entries_set_pendingHandshakes k x id st :
  k <> id -> client_entries id (set_pendingHandshakes <[k := x]> st) = client_entries id st.
Proof.
  intros Hne. unfold client_entries. fields.
  rewrite lookup_insert_ne by assumption. reflexivity.
Qed.

Lemma entries_evict t msg k id st :
  k <> id ->
  client_entries id
    (broadcastToBrowsers (client_disconnect k)
       (cleanupClient k (socket_destroy k (addMasterLog t msg (Some k) st))))
  = client_entries id st.
Proof.
  intros Hne.
  rewrite entries_broadcast, entries_cleanupClient, entries_socket_destroy, entries_addMasterLog
    by assumption.
  reflexivity.
Qed.

Lemma entries_startHandshake t k random32 id st :
  k <> id -> client_entries id (startHandshake t k random32 st) = client_entries id st.
Proof.
  intros Hne. unfold startHandshake. cbv zeta.
  rewrite entries_set_timeouts, entries_addMasterLog, entries_socket_write,
    entries_set_pendingHandshakes by assumption.
  reflexivity.
Qed.

Lemma entries_handshakeTimeout t k id st :
  k <> id -> client_entries id (handshakeTimeout t k st) = client_entries id st.
Proof.
  intros Hne. unfold handshakeTimeout. cbv zeta.
  destruct (pendingHandshakes st !! k) as [[c ts []]|]; try reflexivity.
  apply entries_evict, Hne.
Qed.

Lemma entries_processHandshakeResponse secret t k response id st st' ok :
  k <> id -> processHandshakeResponse secret t k response st = Normal (st', ok) ->
  client_entries id st' = client_entries id st.
Proof.
  intros Hne. unfold processHandshakeResponse. cbv zeta.
  destruct (pendingHandshakes st !! k) as [handshake|].
  - case_decide.
    + intros [= <- <-]. apply entries_evict, Hne.
    + destruct (isValidHandshakeResponse (challenge handshake) response secret) as [[]|];
        [| |discriminate]; intros [= <- <-].
      * rewrite entries_startUsernameChecker, entries_addMasterLog, entries_socket_write,
          entries_set_pendingHandshakes by assumption.
        reflexivity.
      * apply entries_evict, Hne.
  - intros [= <- <-]. rewrite entries_socket_destroy, entries_addMasterLog by assumption.
    reflexivity.
Qed.

Lemma entries_onConnection t k random32 id st :
  k <> id -> client_entries id (onConnection t k random32 st) = client_entries id st.
Proof.
  intros Hne. unfold onConnection. cbv zeta.
  rewrite entries_startHandshake, entries_broadcast, entries_addMasterLog, entries_addClientLog
    by assumption.
  unfold client_entries. fields.
  rewrite !lookup_insert_ne by assumption.
  rewrite (bool_decide_union_ne k id _ Hne). reflexivity.
Qed.

Lemma entries_onLine JSON_parse secret t k msg id st st' :
  k <> id -> onLine JSON_parse secret t k msg st = Normal st' ->
  client_entries id st' = client_entries id st.
Proof.
  intros Hne. unfold onLine. cbv zeta.
  destruct (startsWith msg "$HandshakeResponse:").
  - destruct (processHandshakeResponse secret t k _ st) as [[st1 ok]|] eqn:Hp; [|discriminate].
    intros [= <-]. eapply entries_processHandshakeResponse; eassumption.
  - destruct (isClientAuthenticated k st); cbn [negb].
    + destruct (JSON_parse msg); intros [= <-]; apply entries_processJsonMessage, Hne.
    + intros [= <-]. apply entries_addClientLog, Hne.
Qed.

Lemma entries_onData JSON_parse secret t k lines id : forall st st',
  k <> id -> onData JSON_parse secret t k lines st = Normal st' ->
  client_entries id st' = client_entries id st.
Proof.
  induction lines as [|msg rest IH]; intros st st' Hne; cbn [onData].
  - intros [= <-]. reflexivity.
  - destruct (onLine JSON_parse secret t k msg st) as [st1|] eqn:Hl; [|discriminate].
    intros Hrest. rewrite (IH st1 st' Hne Hrest).
    eapply entries_onLine; eassumption.
Qed.

Lemma entries_onClose t k id st :
  k <> id -> client_entries id (onClose t k st) = client_entries id st.
Proof.
  intros Hne. unfold onClose. cbv zeta.
  rewrite entries_cleanupClient, entries_broadcast, entries_addMasterLog, entries_addClientLog
    by assumption.
  reflexivity.
Qed.

Lemma entries_onError k err id st :
  k <> id -> client_entries id (onError k err st) = client_entries id st.
Proof. intros Hne. apply entries_addClientLog, Hne. Qed.

Lemma entries_heartbeatVisit t st k id :
  k <> id -> client_entries id (heartbeatVisit t st k) = client_entries id st.
Proof.
  intros Hne. unfold heartbeatVisit. cbv zeta. case_match; [|reflexivity].
  apply entries_evict, Hne.
Qed.

Lemma entries_handshakeVisit t st k h id :
  k <> id -> client_entries id (handshakeVisit t st (k, h)) = client_entries id st.
Proof.
  intros Hne. unfold handshakeVisit. cbv zeta. case_match; [|reflexivity].
  rewrite entries_broadcast, entries_cleanupClient by assumption.
  case_match; [apply entries_socket_destroy, Hne | reflexivity].
Qed.

Lemma entries_onObserverMessage t data k id st :
  addressed_to (EObserver data) = Some k -> k <> id ->
  client_entries id (onObserverMessage t data st) = client_entries id st.
Proof.
  intros Hk Hne. destruct data as [k' message|k'|]; cbn [addressed_to] in Hk;
    [injection Hk as ->..|discriminate]; unfold onObserverMessage; cbv zeta.
  - case_match; [|reflexivity].
    rewrite entries_addClientLog, entries_socket_write by assumption. reflexivity.
  - case_match; [|reflexivity].
    pose proof (entries_sendUsernameRequest t k id st Hne) as Hsend.
    destruct (sendUsernameRequest t k st) as [st1 sent]. cbn [fst] in Hsend.
    destruct sent; rewrite entries_addMasterLog; exact Hsend.
Qed.

Lemma entries_handle JSON_parse secret t e k id st st' :
  addressed_to e = Some k -> k <> id ->
  handle JSON_parse secret t e st = Normal st' ->
  client_entries id st' = client_entries id st.
Proof.
  intros Hk Hne.
  destruct e as [c r|c lines|c|c err|c| | |c|data]; cbn [addressed_to handle] in *;
    try discriminate Hk; try (injection Hk as ->).
  - intros [= <-]. apply entries_onConnection, Hne.
  - apply entries_onData, Hne.
  - intros [= <-]. apply entries_onClose, Hne.
  - intros [= <-]. apply entries_onError, Hne.
  - intros [= <-]. apply entries_handshakeTimeout, Hne.
  - intros [= <-]. apply entries_usernameCheckerTick, Hne.
  - intros [= <-]. apply (entries_onObserverMessage t data k id st Hk Hne).
Qed.

(** X5: an event that concerns one client (its connection, its data, the
    close or the error of its socket, its timers, an observer message that
    names it) leaves what the server holds for every other client as it
    was: registration, socket, log, name, status, heartbeat, handshake,
    cached state and username status. *)
Theorem client_isolation JSON_parse secret t e k id st st' :
  addressed_to e = Some k -> k <> id ->
  handle JSON_parse secret t e st = Normal st' ->
  client_entries id st' = client_entries id st.
Proof. apply entries_handle. Qed.

Lemma client_isolation_witness :
  let e := EData other_id ["$HandshakeResponse:" ++ hex_encode (repeat 0 32); "$ClientName:Mallory"] in
  let st := onConnection (clock_s 4) other_id example_random st_example_run in
  exists st',
    addressed_to e = Some other_id /\ other_id <> example_id
    /\ handle (fun _ => None) default_HANDSHAKE_SECRET (clock_s 5) e st = Normal st'
    /\ client_entries other_id st' <> client_entries other_id st
    /\ client_entries example_id st' = client_entries example_id st.
Proof.
  intros e st.
  destruct (handle (fun _ => None) default_HANDSHAKE_SECRET (clock_s 5) e st) as [st'|x] eqn:Hrun;
    [|exfalso; vm_compute in Hrun; discriminate].
  exists st'.
  assert (Hk : addressed_to e = Some other_id) by reflexivity.
  assert (Hne : other_id <> example_id) by discriminate.
  split; [exact Hk | split; [exact Hne | split; [reflexivity | split]]].
  - vm_compute in Hrun. injection Hrun as <-. vm_compute. discriminate.
  - exact (client_isolation _ _ _ _ _ _ _ _ Hk Hne Hrun).
Defined.

(** ** The heartbeat monitor *)

Lemma entries_authenticated id st st' :
  client_entries id st' = client_entries id st ->
  isClientAuthenticated id st' = isClientAuthenticated id st.
Proof.
  unfold client_entries, isClientAuthenticated. intros [= _ _ _ _ _ _ -> _ _]. reflexivity.
Qed.

Lemma entries_clientLastHeartbeat id st st' :
  client_entries id st' = client_entries id st ->
  clientLastHeartbeat st' !! id = clientLastHeartbeat st !! id.
Proof. unfold client_entries. intros [= _ _ _ _ _ -> _ _ _]. reflexivity. Qed.

Lemma entries_evicted id st st' :
  client_entries id st' = client_entries id st -> evicted id st -> evicted id st'.
Proof.
  unfold client_entries, evicted. intros [= H1 _ _ -> -> -> -> -> ->].
  intros (Hreg & Hrest). split; [|exact Hrest].
  intros Hin. apply Hreg. eapply bool_decide_eq_true. rewrite <- H1.
  eapply bool_decide_eq_true. exact Hin.
Qed.


Lemma disconnects_heartbeatVisit_other t st k id :
  k <> id -> disconnects id (heartbeatVisit t st k) = disconnects id st.
Proof.
  intros Hne. unfold heartbeatVisit. cbv zeta. case_match; [|reflexivity].
  rewrite disconnects_evict. replace (String.eqb id k) with false; [lia|].
  symmetry. apply String.eqb_neq. congruence.
Qed.

Lemma heartbeatVisit_fold_other t id (l : list string) : forall st,
  id ∉ l ->
  client_entries id (fold_left (heartbeatVisit t) l st) = client_entries id st
  /\ disconnects id (fold_left (heartbeatVisit t) l st) = disconnects id st.
Proof.
  induction l as [|k l IH]; intros st Hnotin; [split; reflexivity|].
  apply not_elem_of_cons in Hnotin as [Hne Hnotin]. cbn [fold_left].
  destruct (IH (heartbeatVisit t st k) Hnotin) as [He Hd].
  rewrite He, Hd, entries_heartbeatVisit, disconnects_heartbeatVisit_other by congruence.
  split; reflexivity.
Qed.


Lemma heartbeatVisit_fresh t st id :
  isClientAuthenticated id st = false
  \/ now t - default 0 (clientLastHeartbeat st !! id) <= HEARTBEAT_TIMEOUT ->
  heartbeatVisit t st id = st.
Proof.
  intros [Ha | Hfresh]; unfold heartbeatVisit.
  - rewrite Ha. reflexivity.
  - rewrite bool_decide_eq_false_2 by lia. rewrite andb_false_r. reflexivity.
Qed.

Lemma elements_split (id : string) (s : gset string) :
  id ∈ s -> exists l1 l2, elements s = (l1 ++ id :: l2)%list /\ (id ∉ l1) /\ (id ∉ l2).
Proof.
  intros Hin. apply elem_of_elements in Hin.
  pose proof (NoDup_elements s) as Hnd.
  apply list_elem_of_split in Hin as (l1 & l2 & Hl). exists l1, l2. rewrite Hl in Hnd.
  apply NoDup_app in Hnd as (_ & Hdisj & Hnd2). apply NoDup_cons in Hnd2 as [Hnot2 _].
  split; [exact Hl | split; [|exact Hnot2]].
  intros Hin1. apply (Hdisj id Hin1). left.
Qed.



(** ** Who gets authenticated *)

Lemma evicted_not_authenticated id st : evicted id st -> isClientAuthenticated id st = false.
Proof.
  intros (_ & _ & _ & _ & Hp & _). unfold isClientAuthenticated. rewrite Hp. reflexivity.
Qed.

Lemma pendingHandshakes_sendUsernameRequest t k st :
  pendingHandshakes (sendUsernameRequest t k st).1 = pendingHandshakes st.
Proof. unfold sendUsernameRequest. cbv zeta. case_match; reflexivity. Qed.

Lemma pendingHandshakes_usernameCheckerTick t k st :
  pendingHandshakes (usernameCheckerTick t k st) = pendingHandshakes st.
Proof.
  unfold usernameCheckerTick. cbv zeta.
  destruct (clientUsernameStatus st !! k) as [status|]; [|reflexivity].
  destruct (checker status); cbn [negb]; [|reflexivity].
  destruct (hasUsername status); [reflexivity|].
  destruct (requestSent status); cbn [negb]; [reflexivity|].
  pose proof (pendingHandshakes_sendUsernameRequest t k st) as Hsend.
  destruct (sendUsernameRequest t k st) as [st1 sent]. cbn [fst] in Hsend.
  destruct sent; exact Hsend.
Qed.

Lemma pendingHandshakes_onObserverMessage t data st :
  pendingHandshakes (onObserverMessage t data st) = pendingHandshakes st.
Proof.
  destruct data as [k message|k|]; unfold onObserverMessage; cbv zeta; [| |reflexivity].
  - case_match; reflexivity.
  - case_match; [|reflexivity].
    pose proof (pendingHandshakes_sendUsernameRequest t k st) as Hsend.
    destruct (sendUsernameRequest t k st) as [st1 sent]. cbn [fst] in Hsend.
    destruct sent; exact Hsend.
Qed.

Lemma pendingHandshakes_processJsonMessage t k jsonData st :
  pendingHandshakes (processJsonMessage t k jsonData st) = pendingHandshakes st.
Proof.
  assert (Hname : pendingHandshakes (updateClientName k (m_clientName jsonData) st)
                  = pendingHandshakes st).
  { unfold updateClientName. repeat case_match; reflexivity. }
  assert (Hif : forall field changes st0,
            pendingHandshakes (update_if_changed k field changes st0) = pendingHandshakes st0).
  { intros. unfold update_if_changed. case_match; reflexivity. }
  unfold processJsonMessage. cbv zeta. rewrite <- Hname.
  generalize (updateClientName k (m_clientName jsonData) st). intros st0.
  repeat case_match; try reflexivity.
  - unfold handleStatusUpdate. cbv zeta. repeat case_match; try reflexivity.
    unfold addClientLog, broadcastToBrowsers. fields. rewrite !Hif. reflexivity.
  - unfold handleUsernameResponse. cbv zeta. repeat case_match; reflexivity.
Qed.

Lemma unauthenticated_heartbeatVisit t st k id :
  isClientAuthenticated id st = false -> isClientAuthenticated id (heartbeatVisit t st k) = false.
Proof.
  intros Ha. destruct (decide (k = id)) as [-> | Hne].
  - rewrite (heartbeatVisit_fresh t st id); [exact Ha | left; exact Ha].
  - rewrite (entries_authenticated id st _ (entries_heartbeatVisit t st k id Hne)). exact Ha.
Qed.

Lemma unauthenticated_handshakeVisit t st k h id :
  isClientAuthenticated id st = false ->
  isClientAuthenticated id (handshakeVisit t st (k, h)) = false.
Proof.
  intros Ha. destruct (decide (k = id)) as [-> | Hne].
  - unfold handshakeVisit. case_match; [|exact Ha]. cbv zeta.
    apply evicted_not_authenticated, evicted_broadcast, cleanupClient_evicted.
  - rewrite (entries_authenticated id st _ (entries_handshakeVisit t st k h id Hne)). exact Ha.
Qed.

Lemma unauthenticated_fold {A : Type} (f : State -> A -> State) id (l : list A) :
  (forall st x, isClientAuthenticated id st = false -> isClientAuthenticated id (f st x) = false) ->
  forall st, isClientAuthenticated id st = false ->
             isClientAuthenticated id (fold_left f l st) = false.
Proof. intros Hf. induction l as [|x l IH]; intros st Ha; cbn [fold_left]; auto. Qed.

(** What a handshake response does for the client that sends it. *)
Lemma processHandshakeResponse_authenticates secret t id response st st' ok :
  processHandshakeResponse secret t id response st = Normal (st', ok) ->
  (isClientAuthenticated id st' = true
   /\ exists h, pendingHandshakes st !! id = Some h
                /\ now t - timestamp h <= HANDSHAKE_TIMEOUT
                /\ isValidHandshakeResponse (challenge h) response secret = Normal true)
  \/ (isClientAuthenticated id st' = false /\ pendingHandshakes st' !! id = None).
Proof.
  unfold processHandshakeResponse. cbv zeta.
  destruct (pendingHandshakes st !! id) as [h|] eqn:Hp.
  - case_decide as Hlate.
    + intros [= <- <-]. right.
      destruct (reject_outcome t ("Handshake response too late from " ++ id) id st) as (He & _).
      split; [apply evicted_not_authenticated, He | apply He].
    + destruct (isValidHandshakeResponse (challenge h) response secret) as [[]|] eqn:Hv;
        [| |discriminate]; intros [= <- <-].
      * left. split.
        -- match goal with |- context [startUsernameChecker id ?s] =>
             destruct (startUsernameChecker_fields id s) as (_ & _ & _ & _ & _ & H6 & _)
           end.
           unfold isClientAuthenticated. rewrite H6.
           unfold addMasterLog, socket_write, broadcastToBrowsers. fields.
           rewrite lookup_insert_eq. reflexivity.
        -- exists h. split; [reflexivity | split; [lia | exact Hv]].
      * right.
        destruct (reject_outcome t ("Handshake failed for " ++ id ++ " - invalid response") id st)
          as (He & _).
        split; [apply evicted_not_authenticated, He | apply He].
  - intros [= <- <-]. right.
    assert (Hp' : pendingHandshakes
                    (socket_destroy id
                       (addMasterLog t ("Unexpected handshake response from " ++ id) (Some id) st))
                  !! id = None) by exact Hp.
    split; [|exact Hp']. unfold isClientAuthenticated. rewrite Hp'. reflexivity.
Qed.

Lemma onLine_authenticates JSON_parse secret t id line st st' :
  onLine JSON_parse secret t id line st = Normal st' ->
  isClientAuthenticated id st = false ->
  (isClientAuthenticated id st' = true
   /\ startsWith line "$HandshakeResponse:" = true
   /\ exists h, pendingHandshakes st !! id = Some h
                /\ now t - timestamp h <= HANDSHAKE_TIMEOUT
                /\ isValidHandshakeResponse (challenge h)
                     (trim (substring_from (String.length "$HandshakeResponse:") line)) secret
                   = Normal true)
  \/ (isClientAuthenticated id st' = false
      /\ (pendingHandshakes st' !! id = None
          \/ pendingHandshakes st' !! id = pendingHandshakes st !! id)).
Proof.
  unfold onLine. cbv zeta. intros Hline Ha.
  destruct (startsWith line "$HandshakeResponse:") eqn:Hprefix.
  - destruct (processHandshakeResponse secret t id _ st) as [[st1 ok]|] eqn:Hp; [|discriminate].
    injection Hline as <-.
    destruct (processHandshakeResponse_authenticates _ _ _ _ _ _ _ Hp) as [[H1 H2] | [H1 H2]].
    + left. split; [exact H1 | split; [reflexivity | exact H2]].
    + right. split; [exact H1 | left; exact H2].
  - rewrite Ha in Hline. cbn [negb] in Hline. injection Hline as <-. right.
    split; [exact Ha | right; reflexivity].
Qed.

Lemma onData_authenticates JSON_parse secret t id lines (p : option Handshake) : forall st st',
  onData JSON_parse secret t id lines st = Normal st' ->
  isClientAuthenticated id st = false ->
  pendingHandshakes st !! id = None \/ pendingHandshakes st !! id = p ->
  isClientAuthenticated id st' = true ->
  exists line h,
    line ∈ lines /\ startsWith line "$HandshakeResponse:" = true
    /\ p = Some h /\ now t - timestamp h <= HANDSHAKE_TIMEOUT
    /\ isValidHandshakeResponse (challenge h)
         (trim (substring_from (String.length "$HandshakeResponse:") line)) secret
       = Normal true.
Proof.
  induction lines as [|line rest IH]; intros st st' Hrun Ha Hp Ha'; cbn [onData] in Hrun.
  - injection Hrun as <-. congruence.
  - destruct (onLine JSON_parse secret t id line st) as [st1|] eqn:Hline; [|discriminate].
    destruct (onLine_authenticates _ _ _ _ _ _ _ Hline Ha)
      as [(_ & Hprefix & h & Hh & Htime & Hvalid) | [Ha1 Hp1]].
    + exists line, h. split; [left|]. split; [exact Hprefix|].
      split; [|split; assumption]. destruct Hp as [Hp | Hp]; congruence.
    + destruct (IH st1 st' Hrun Ha1) as (l & h & Hin & Hrest); [|exact Ha'|].
      * destruct Hp1 as [Hp1 | Hp1]; [left; exact Hp1|]. rewrite Hp1. exact Hp.
      * exists l, h. split; [right; exact Hin | exact Hrest].
Qed.

Lemma handle_authenticates JSON_parse secret t e id st st' :
  handle JSON_parse secret t e st = Normal st' ->
  isClientAuthenticated id st = false ->
  isClientAuthenticated id st' = true ->
  exists lines line h,
    e = EData id lines /\ line ∈ lines
    /\ startsWith line "$HandshakeResponse:" = true
    /\ pendingHandshakes st !! id = Some h
    /\ now t - timestamp h <= HANDSHAKE_TIMEOUT
    /\ isValidHandshakeResponse (challenge h)
         (trim (substring_from (String.length "$HandshakeResponse:") line)) secret
       = Normal true.
Proof.
  intros Hrun Ha Ha'.
  assert (Hother : forall k, addressed_to e = Some k -> k <> id -> False).
  { intros k Hk Hne.
    rewrite (entries_authenticated id st st' (entries_handle _ _ _ _ _ _ _ _ Hk Hne Hrun)) in Ha'.
    congruence. }
  destruct e as [c r|c lines|c|c err|c| | |c|data]; cbn [handle] in Hrun.
  - exfalso. destruct (decide (c = id)) as [-> | Hne]; [|exact (Hother c eq_refl Hne)].
    injection Hrun as <-.
    pose proof (onConnection_starts_handshake t id r st) as Hc. cbv zeta in Hc.
    destruct Hc as [Hc _]. unfold isClientAuthenticated in Ha'. rewrite Hc in Ha'.
    discriminate.
  - destruct (decide (c = id)) as [-> | Hne]; [|exfalso; exact (Hother c eq_refl Hne)].
    destruct (onData_authenticates _ _ _ _ _ (pendingHandshakes st !! id) _ _ Hrun Ha
                (or_intror eq_refl) Ha') as (line & h & Hin & Hprefix & Hh & Hrest).
    exists lines, line, h. split; [reflexivity|]. split; [exact Hin|].
    split; [exact Hprefix|]. split; [exact Hh | exact Hrest].
  - exfalso. destruct (decide (c = id)) as [-> | Hne]; [|exact (Hother c eq_refl Hne)].
    injection Hrun as <-.
    rewrite (evicted_not_authenticated id _ (proj1 (onClose_disconnects t id st))) in Ha'.
    discriminate.
  - exfalso. injection Hrun as <-. unfold isClientAuthenticated in Ha, Ha'.
    change (pendingHandshakes (onError c err st)) with (pendingHandshakes st) in Ha'. congruence.
  - exfalso. destruct (decide (c = id)) as [-> | Hne]; [|exact (Hother c eq_refl Hne)].
    injection Hrun as <-. unfold handshakeTimeout in Ha'. cbv zeta in Ha'.
    destruct (pendingHandshakes st !! id) as [[ch ts []]|] eqn:Hp; try congruence.
    destruct (reject_outcome t ("Handshake timeout for " ++ id) id st) as (He & _).
    cbv zeta in He. rewrite (evicted_not_authenticated id _ He) in Ha'. discriminate.
  - exfalso. injection Hrun as <-. unfold heartbeatMonitor in Ha'.
    rewrite (unauthenticated_fold (heartbeatVisit t) id) in Ha'; [discriminate| |exact Ha].
    intros st0 k. apply unauthenticated_heartbeatVisit.
  - exfalso. injection Hrun as <-. unfold handshakeSweep in Ha'.
    rewrite (unauthenticated_fold (handshakeVisit t) id) in Ha'; [discriminate| |exact Ha].
    intros st0 [k h]. apply unauthenticated_handshakeVisit.
  - exfalso. injection Hrun as <-. unfold isClientAuthenticated in Ha, Ha'.
    rewrite pendingHandshakes_usernameCheckerTick in Ha'. congruence.
  - exfalso. injection Hrun as <-. unfold isClientAuthenticated in Ha, Ha'.
    rewrite pendingHandshakes_onObserverMessage in Ha'. congruence.
Qed.

(** X7: no event authenticates a client but data of that client's own
    connection holding a [$HandshakeResponse:] line, received within
    HANDSHAKE_TIMEOUT of the challenge the server holds for it, whose
    response verifies against that challenge. No other client, no observer
    and no timer does. *)
Theorem authentication_needs_response JSON_parse secret t e id st st' :
  handle JSON_parse secret t e st = Normal st' ->
  isClientAuthenticated id st = false ->
  isClientAuthenticated id st' = true ->
  exists lines line h,
    e = EData id lines /\ line ∈ lines
    /\ startsWith line "$HandshakeResponse:" = true
    /\ pendingHandshakes st !! id = Some h
    /\ now t - timestamp h <= HANDSHAKE_TIMEOUT
    /\ isValidHandshakeResponse (challenge h)
         (trim (substring_from (String.length "$HandshakeResponse:") line)) secret
       = Normal true.
Proof. apply handle_authenticates. Qed.

Lemma authentication_needs_response_witness :
  let e := EData example_id [second_response_line; "$ClientName:Alice"] in
  exists st',
    handle (fun _ => None) default_HANDSHAKE_SECRET (clock_s 1) e st_connected = Normal st'
    /\ isClientAuthenticated example_id st_connected = false
    /\ isClientAuthenticated example_id st' = true
    /\ exists line h,
         line ∈ [second_response_line; "$ClientName:Alice"]
         /\ pendingHandshakes st_connected !! example_id = Some h
         /\ isValidHandshakeResponse (challenge h)
              (trim (substring_from (String.length "$HandshakeResponse:") line))
              default_HANDSHAKE_SECRET
            = Normal true.
Proof.
  intros e.
  destruct (handle (fun _ => None) default_HANDSHAKE_SECRET (clock_s 1) e st_connected)
    as [st'|x] eqn:Hrun; [|exfalso; vm_compute in Hrun; discriminate].
  exists st'.
  assert (Ha : isClientAuthenticated example_id st_connected = false) by (vm_compute; reflexivity).
  assert (Ha' : isClientAuthenticated example_id st' = true).
  { vm_compute in Hrun. injection Hrun as <-. vm_compute. reflexivity. }
  destruct (authentication_needs_response _ _ _ _ _ _ _ Hrun Ha Ha')
    as (lines & line & h & He & Hin & _ & Hh & _ & Hvalid).
  injection He as <-.
  split; [reflexivity | split; [exact Ha | split; [exact Ha'|]]].
  exists line, h. split; [exact Hin | split; [exact Hh | exact Hvalid]].
Defined.

(** ** Trimming *)

Lemma ws1_graphic b : graphic b = true -> ws1 b = false.
Proof.
  unfold graphic, ws1. intros H. apply andb_true_iff in H as [H1 H2].
  apply Z.leb_le in H1, H2. apply bool_decide_eq_false_2. intros Hin.
  repeat (apply elem_of_cons in Hin as [-> | Hin]; [lia|]). inversion Hin.
Qed.

Lemma ws2_graphic_l b c : graphic b = true -> ws2 b c = false.
Proof.
  unfold graphic, ws2. intros H. apply andb_true_iff in H as [H1 H2].
  apply Z.leb_le in H1, H2. apply bool_decide_eq_false_2. lia.
Qed.

Lemma ws2_graphic_r b c : graphic c = true -> ws2 b c = false.
Proof.
  unfold graphic, ws2. intros H. apply andb_true_iff in H as [H1 H2].
  apply Z.leb_le in H1, H2. apply bool_decide_eq_false_2. lia.
Qed.

Lemma ws3_graphic_l b c d : graphic b = true -> ws3 b c d = false.
Proof.
  unfold graphic, ws3. intros H. apply andb_true_iff in H as [H1 H2].
  apply Z.leb_le in H1, H2. apply orb_false_iff. split; apply bool_decide_eq_false_2; [|lia].
  intros Hin. repeat (apply elem_of_cons in Hin as [[= -> -> ->] | Hin]; [lia|]). inversion Hin.
Qed.

Lemma ws3_graphic_r b c d : graphic d = true -> ws3 b c d = false.
Proof.
  unfold graphic, ws3. intros H. apply andb_true_iff in H as [H1 H2].
  apply Z.leb_le in H1, H2. apply orb_false_iff. split; apply bool_decide_eq_false_2; [|lia].
  intros Hin. repeat (apply elem_of_cons in Hin as [[= -> -> ->] | Hin]; [lia|]). inversion Hin.
Qed.

Lemma ws_head_graphic b bs : graphic b = true -> ws_head (b :: bs) = 0%nat.
Proof.
  intros H. unfold ws_head. rewrite (ws1_graphic b H).
  destruct bs as [|c [|d r]]; rewrite ?(ws2_graphic_l b _ H), ?(ws3_graphic_l b _ _ H);
    reflexivity.
Qed.

Lemma ws_last_graphic b bs : graphic b = true -> ws_last (b :: bs) = 0%nat.
Proof.
  intros H. unfold ws_last. rewrite (ws1_graphic b H).
  destruct bs as [|c [|d r]]; rewrite ?(ws2_graphic_r _ b H), ?(ws3_graphic_r _ _ b H);
    reflexivity.
Qed.

Lemma strip_nothing head fuel bs : head bs = 0%nat -> strip head fuel bs = bs.
Proof. intros H. destruct fuel; [reflexivity|]. cbn [strip]. rewrite H. reflexivity. Qed.

Lemma string_of_bytes_of_string s : string_of_bytes (bytes_of_string s) = s.
Proof.
  unfold string_of_bytes, bytes_of_string, utf8. rewrite map_map.
  rewrite (map_ext _ (fun a => a)).
  - rewrite map_id. apply string_of_list_ascii_of_string.
  - intros a. unfold byte_of_ascii. rewrite N2Z.id. apply ascii_N_embedding.
Qed.

(** A text that starts and ends with a printable character other than a
    space is its own trimmed form. *)
Lemma trim_graphic_ends s :
  (forall b bs, bytes_of_string s = b :: bs -> graphic b = true) ->
  (forall b bs, rev (bytes_of_string s) = b :: bs -> graphic b = true) ->
  trim s = s.
Proof.
  intros Hfirst Hlast. unfold trim. cbv zeta.
  assert (H1 : strip ws_head (length (bytes_of_string s)) (bytes_of_string s) = bytes_of_string s).
  { apply strip_nothing. destruct (bytes_of_string s) as [|b bs] eqn:E; [reflexivity|].
    apply ws_head_graphic. eapply Hfirst. reflexivity. }
  rewrite H1.
  assert (H2 : strip ws_last (length (bytes_of_string s)) (rev (bytes_of_string s))
               = rev (bytes_of_string s)).
  { apply strip_nothing. destruct (rev (bytes_of_string s)) as [|b bs] eqn:E; [reflexivity|].
    apply ws_last_graphic. eapply Hlast. reflexivity. }
  rewrite H2, rev_involutive. apply string_of_bytes_of_string.
Qed.

Lemma trim_graphic s :
  Forall (fun b => graphic b = true) (bytes_of_string s) -> trim s = s.
Proof.
  intros Hall. apply trim_graphic_ends.
  - intros b bs E. rewrite E in Hall. inversion Hall; assumption.
  - intros b bs E. apply Forall_rev in Hall. rewrite E in Hall. inversion Hall; assumption.
Qed.

Lemma hex_encode_graphic bs :
  Forall is_byte bs -> Forall (fun b => graphic b = true) (bytes_of_string (hex_encode bs)).
Proof.
  induction 1 as [|b bs Hb _ IH]; [constructor|].
  pose proof (byte_cases
    (fun b => graphic (byte_of_ascii (hex_digit (Z.shiftr b 4)))
              && graphic (byte_of_ascii (hex_digit (Z.land b 15))))) as H.
  cbv beta in H. specialize (H ltac:(vm_compute; reflexivity) b Hb).
  apply andb_true_iff in H as [H1 H2].
  cbn [hex_encode]. unfold bytes_of_string, utf8 in *. cbn [list_ascii_of_string map].
  constructor; [exact H1|]. constructor; [exact H2 | exact IH].
Qed.

Lemma trim_response challenge secret :
  trim (computeHandshakeResponse challenge secret) = computeHandshakeResponse challenge secret.
Proof. apply trim_graphic, hex_encode_graphic, hmac_sha256_bytes. Qed.

(** ** The handshake completes *)

Lemma isValidHandshakeResponse_expected challenge secret :
  isValidHandshakeResponse challenge (computeHandshakeResponse challenge secret) secret
  = Normal true.
Proof.
  rewrite isValidHandshakeResponse_32; rewrite expected_buffer.
  - rewrite bool_decide_eq_true_2; reflexivity.
  - apply hmac_sha256_length.
Qed.

Lemma disconnects_startUsernameChecker id k st :
  disconnects id (startUsernameChecker k st) = disconnects id st.
Proof.
  unfold startUsernameChecker. cbv zeta. repeat case_match; try reflexivity;
    rewrite disconnects_addClientLog; reflexivity.
Qed.

Lemma startUsernameChecker_live id st : checker_live id (startUsernameChecker id st) = true.
Proof.
  unfold startUsernameChecker, checker_live. cbv zeta.
  destruct (clientUsernameStatus st !! id) as [[h r []]|] eqn:E.
  - rewrite E. reflexivity.
  - unfold addClientLog, broadcastToBrowsers. fields. rewrite lookup_insert_eq. reflexivity.
  - unfold addClientLog, broadcastToBrowsers. fields. rewrite lookup_insert_eq. reflexivity.
Qed.

(** X8: the response a client computes as [computeHandshakeResponse] of the
    challenge it was sent, received in a [$HandshakeResponse:] line within
    HANDSHAKE_TIMEOUT of the challenge, completes the handshake: the client
    is authenticated, [$HandshakeSuccess] is written to its socket, which
    stays open and registered, the username poller runs, and no
    [client_disconnect] is published. *)
Theorem handshake_completes JSON_parse secret t id st h :
  pendingHandshakes st !! id = Some h ->
  now t - timestamp h <= HANDSHAKE_TIMEOUT ->
  exists st',
    onLine JSON_parse secret t id
      ("$HandshakeResponse:" ++ computeHandshakeResponse (challenge h) secret) st = Normal st'
    /\ isClientAuthenticated id st' = true
    /\ sockets st' = sockets (socket_write id ("$HandshakeSuccess" ++ LF) st)
    /\ tcpClients st' = tcpClients st
    /\ checker_live id st' = true
    /\ disconnects id st' = disconnects id st.
Proof.
  intros Hp Htime. unfold onLine.
  change (startsWith ("$HandshakeResponse:" ++ computeHandshakeResponse (challenge h) secret)
            "$HandshakeResponse:") with true.
  change (substring_from (String.length "$HandshakeResponse:")
            ("$HandshakeResponse:" ++ computeHandshakeResponse (challenge h) secret))
    with (computeHandshakeResponse (challenge h) secret).
  cbv iota. rewrite trim_response. unfold processHandshakeResponse. rewrite Hp.
  rewrite decide_False by lia. rewrite isValidHandshakeResponse_expected. cbv zeta.
  eexists. split; [reflexivity|].
  match goal with |- context [startUsernameChecker id ?s] =>
    destruct (startUsernameChecker_fields id s) as (H1 & H2 & _ & _ & _ & H6 & _)
  end.
  unfold isClientAuthenticated. rewrite H1, H2, H6.
  split_and!.
  - unfold addMasterLog, socket_write, broadcastToBrowsers. fields.
    rewrite lookup_insert_eq. reflexivity.
  - reflexivity.
  - reflexivity.
  - apply startUsernameChecker_live.
  - rewrite disconnects_startUsernameChecker, disconnects_addMasterLog. reflexivity.
Qed.

Lemma handshake_completes_witness :
  let h := {| challenge := example_challenge; timestamp := 0; authenticated := false |} in
  pendingHandshakes st_connected !! example_id = Some h
  /\ now (clock_s 10) - timestamp h <= HANDSHAKE_TIMEOUT
  /\ exists st',
       onLine (fun _ => None) default_HANDSHAKE_SECRET (clock_s 10) example_id
         ("$HandshakeResponse:" ++ computeHandshakeResponse (challenge h) default_HANDSHAKE_SECRET)
         st_connected = Normal st'
       /\ isClientAuthenticated example_id st' = true
       /\ checker_live example_id st' = true.
Proof.
  intros h.
  assert (H1 : pendingHandshakes st_connected !! example_id = Some h) by (vm_compute; reflexivity).
  assert (H2 : now (clock_s 10) - timestamp h <= HANDSHAKE_TIMEOUT) by (vm_compute; discriminate).
  destruct (handshake_completes (fun _ => None) default_HANDSHAKE_SECRET (clock_s 10) example_id
              st_connected h H1 H2) as (st' & Hrun & Ha & _ & _ & Hlive & _).
  split; [exact H1 | split; [exact H2|]].
  exists st'. split; [exact Hrun | split; [exact Ha | exact Hlive]].
Defined.

(** ** What a close leaves behind *)

Lemma clientLogs_cleanupClient_self id st :
  clientLogs (cleanupClient id st) !! id
  = if checker_live id st then Some ["[Username checker stopped]"] else None.
Proof.
  unfold cleanupClient, stopUsernameChecker, addClientLog, broadcastToBrowsers, checker_live.
  fields.
  destruct (clientUsernameStatus st !! id) as [[h r []]|]; cbn [checker]; fields.
  - rewrite lookup_insert_eq, lookup_delete_eq. reflexivity.
  - apply lookup_delete_eq.
  - apply lookup_delete_eq.
Qed.

(** X9: the close handler of a connection forgets the client in every map
    but, when the username poller of the client is still running, the log:
    stopping the poller writes one more entry after the log was deleted, so
    that a log of that single entry stays behind (and the entry is published
    after the [client_disconnect]). With no poller running, no log stays. *)
Theorem onClose_leftover_log t id st :
  evicted id (onClose t id st)
  /\ clientLogs (onClose t id st) !! id
     = (if checker_live id st then Some ["[Username checker stopped]"] else None)
  /\ (checker_live id st = true ->
      exists events,
        published (onClose t id st)
        = (events ++ [client_disconnect id; log id "[Username checker stopped]"])%list).
Proof.
  split; [apply onClose_disconnects|]. unfold onClose. cbv zeta. split.
  - rewrite clientLogs_cleanupClient_self. reflexivity.
  - intros Hlive. rewrite cleanupClient_published.
    unfold checker_live in Hlive.
    change (clientUsernameStatus
              (broadcastToBrowsers (client_disconnect id)
                 (addMasterLog t ("Client disconnected: " ++ id) (Some id)
                    (addClientLog id
                       ("[Client " ++ template (clientNames st !! id) ++ " disconnected]") st))))
      with (clientUsernameStatus st).
    destruct (clientUsernameStatus st !! id) as [[hu rs []]|]; try discriminate.
    eexists. unfold broadcastToBrowsers at 1. fields. rewrite <- app_assoc. reflexivity.
Qed.

Lemma onClose_leftover_log_witness :
  checker_live example_id st_example_run = true
  /\ clientLogs (onClose (clock_s 20) example_id st_example_run) !! example_id
     = Some ["[Username checker stopped]"]
  /\ evicted example_id (onClose (clock_s 20) example_id st_example_run).
Proof.
  assert (Hlive : checker_live example_id st_example_run = true) by (vm_compute; reflexivity).
  destruct (onClose_leftover_log (clock_s 20) example_id st_example_run) as (He & Hlog & _).
  rewrite Hlive in Hlog.
  split; [exact Hlive | split; [exact Hlog | exact He]].
Defined.

(** ** Line framing *)

Lemma ws_head_le bs : (ws_head bs <= length bs)%nat.
Proof.
  destruct bs as [|b [|c [|d r]]]; cbn [ws_head length]; repeat case_match; lia.
Qed.

Lemma ws_last_le bs : (ws_last bs <= length bs)%nat.
Proof.
  destruct bs as [|b [|c [|d r]]]; cbn [ws_last length]; repeat case_match; lia.
Qed.

Lemma ws_head_prefix p q n : ws_head p = S n -> ws_head (p ++ q) = S n.
Proof.
  destruct p as [|b [|c [|d r]]]; cbn [ws_head app]; try discriminate.
  - destruct (ws1 b); [trivial | discriminate].
  - destruct (ws1 b); [trivial|]. destruct (ws2 b c); [|discriminate].
    destruct q; trivial.
  - trivial.
Qed.

Lemma ws_head_take k bs : ws_head bs = 0%nat -> ws_head (take k bs) = 0%nat.
Proof.
  intros H. destruct (ws_head (take k bs)) as [|n] eqn:E; [reflexivity|].
  apply (ws_head_prefix _ (drop k bs)) in E. rewrite take_drop in E. congruence.
Qed.

Lemma strip_fuel (hd_ws : list Z -> nat) n :
  hd_ws [] = 0%nat -> (forall bs, (hd_ws bs <= length bs)%nat) ->
  forall m bs, (length bs <= n)%nat -> (length bs <= m)%nat ->
               strip hd_ws n bs = strip hd_ws m bs.
Proof.
  intros Hnil Hle. induction n as [|n IH]; intros m bs Hn Hm.
  - destruct bs; [|simpl in Hn; lia]. destruct m; cbn [strip]; rewrite ?Hnil; reflexivity.
  - cbn [strip]. destruct (hd_ws bs) as [|k] eqn:E.
    + destruct m; cbn [strip]; rewrite ?E; reflexivity.
    + pose proof (Hle bs) as Hk. destruct m; [lia|]. cbn [strip]. rewrite E.
      apply IH; rewrite length_drop; lia.
Qed.

Lemma strip_done (hd_ws : list Z -> nat) n :
  hd_ws [] = 0%nat -> (forall bs, (hd_ws bs <= length bs)%nat) ->
  forall bs, (length bs <= n)%nat -> hd_ws (strip hd_ws n bs) = 0%nat.
Proof.
  intros Hnil Hle. induction n as [|n IH]; intros bs Hn.
  - destruct bs; [exact Hnil | simpl in Hn; lia].
  - cbn [strip]. destruct (hd_ws bs) as [|k] eqn:E; [exact E|].
    apply IH. pose proof (Hle bs). rewrite length_drop. lia.
Qed.

Lemma strip_drop (hd_ws : list Z -> nat) n : forall bs, exists j, strip hd_ws n bs = drop j bs.
Proof.
  induction n as [|n IH]; intros bs; [exists 0%nat; reflexivity|].
  cbn [strip]. destruct (hd_ws bs) as [|k]; [exists 0%nat; reflexivity|].
  destruct (IH (drop (S k) bs)) as [j Hj]. exists (S k + j)%nat.
  rewrite Hj, drop_drop. reflexivity.
Qed.

Lemma trim_bytes_take_drop bs :
  exists j k, trim_bytes bs = take k (drop j bs) /\ ws_head (drop j bs) = 0%nat
              /\ ws_last (rev (trim_bytes bs)) = 0%nat.
Proof.
  unfold trim_bytes. cbv zeta.
  destruct (strip_drop ws_head (length bs) bs) as [j Hj].
  pose proof (strip_done ws_head (length bs) eq_refl ws_head_le bs (le_n _)) as Hhead.
  rewrite Hj in *.
  destruct (strip_drop ws_last (length (drop j bs)) (rev (drop j bs))) as [k Hk].
  pose proof (strip_done ws_last (length (drop j bs)) eq_refl ws_last_le (rev (drop j bs))) as Hlast.
  rewrite length_rev in Hlast. specialize (Hlast (le_n _)).
  exists j, (length (drop j bs) - k)%nat. rewrite rev_involutive. split; [|split; assumption].
  rewrite Hk, skipn_rev, rev_involutive. reflexivity.
Qed.

Lemma trim_bytes_idempotent bs : trim_bytes (trim_bytes bs) = trim_bytes bs.
Proof.
  destruct (trim_bytes_take_drop bs) as (j & k & Ht & Hhead & Hlast).
  assert (H0 : ws_head (trim_bytes bs) = 0%nat) by (rewrite Ht; apply ws_head_take, Hhead).
  unfold trim_bytes at 1. cbv zeta.
  rewrite (strip_nothing ws_head _ _ H0), (strip_nothing ws_last _ _ Hlast).
  apply rev_involutive.
Qed.

Lemma bytes_of_string_bytes s : Forall is_byte (bytes_of_string s).
Proof.
  unfold bytes_of_string, utf8. apply Forall_map, Forall_forall. intros a _.
  unfold is_byte, byte_of_ascii. pose proof (N_ascii_bounded a). lia.
Qed.

Lemma bytes_of_string_of_bytes bs :
  Forall is_byte bs -> bytes_of_string (string_of_bytes bs) = bs.
Proof.
  intros Hb. unfold bytes_of_string, string_of_bytes, utf8.
  rewrite list_ascii_of_string_of_list_ascii, map_map.
  induction Hb as [|b bs [Hlo Hhi] _ IH]; [reflexivity|]. cbn [map]. rewrite IH. f_equal.
  unfold byte_of_ascii. rewrite N_ascii_embedding by lia. lia.
Qed.

Lemma trim_bytes_bytes bs : Forall is_byte bs -> Forall is_byte (trim_bytes bs).
Proof.
  intros Hb. destruct (trim_bytes_take_drop bs) as (j & k & -> & _).
  apply Forall_take, Forall_drop, Hb.
Qed.

Lemma bytes_of_trim s : bytes_of_string (trim s) = trim_bytes (bytes_of_string s).
Proof. apply bytes_of_string_of_bytes, trim_bytes_bytes, bytes_of_string_bytes. Qed.

Lemma trim_idempotent s : trim (trim s) = trim s.
Proof.
  change (trim (trim s)) with (string_of_bytes (trim_bytes (bytes_of_string (trim s)))).
  rewrite bytes_of_trim, trim_bytes_idempotent. reflexivity.
Qed.

Lemma append_cons c (a b : string) : String c a ++ b = String c (a ++ b).
Proof. reflexivity. Qed.

Lemma append_nil (b : string) : EmptyString ++ b = b.
Proof. reflexivity. Qed.

Lemma bytes_of_string_app a b :
  bytes_of_string (a ++ b) = (bytes_of_string a ++ bytes_of_string b)%list.
Proof.
  unfold bytes_of_string, utf8. induction a as [|c a IH]; [reflexivity|].
  rewrite append_cons. cbn [list_ascii_of_string map app]. rewrite IH. reflexivity.
Qed.

Lemma ws2_CR b : ws2 b 13 = false.
Proof. apply bool_decide_eq_false_2. lia. Qed.

Lemma ws3_CR b c : ws3 b c 13 = false.
Proof.
  unfold ws3. apply orb_false_iff. split; apply bool_decide_eq_false_2; [|lia].
  intros H. repeat (apply elem_of_cons in H as [H | H]; [discriminate H|]). inversion H.
Qed.

Lemma ws_head_snoc_CR bs : bs <> [] -> ws_head (bs ++ [13]) = ws_head bs.
Proof.
  intros Hne. destruct bs as [|b [|c [|d r]]]; [congruence|..]; cbn [ws_head app].
  - rewrite ws2_CR. reflexivity.
  - rewrite ws3_CR. reflexivity.
  - reflexivity.
Qed.

Lemma strip_head_snoc_CR n : forall bs,
  (length bs <= n)%nat ->
  strip ws_head (S n) (bs ++ [13])
  = match strip ws_head n bs with
    | [] => []
    | b1 => (b1 ++ [13])%list
    end.
Proof.
  induction n as [|n IH]; intros bs Hn.
  - destruct bs; [reflexivity | simpl in Hn; lia].
  - destruct bs as [|b bs]; [reflexivity|].
    cbn [strip]. rewrite ws_head_snoc_CR by discriminate.
    pose proof (ws_head_le (b :: bs)) as Hle.
    destruct (ws_head (b :: bs)) as [|k] eqn:E; [reflexivity|].
    rewrite drop_app_le by lia.
    change (match ws_head (drop (S k) (b :: bs) ++ [13]) with
            | 0%nat => (drop (S k) (b :: bs) ++ [13])%list
            | S n0 => strip ws_head n (drop (S n0) (drop (S k) (b :: bs) ++ [13]))
            end) with (strip ws_head (S n) (drop (S k) (b :: bs) ++ [13])).
    apply IH. rewrite length_drop. simpl in *. lia.
Qed.

Lemma trim_bytes_snoc_CR bs : trim_bytes (bs ++ [13]) = trim_bytes bs.
Proof.
  unfold trim_bytes. cbv zeta. rewrite length_app. cbn [length].
  replace (length bs + 1)%nat with (S (length bs)) by lia.
  rewrite strip_head_snoc_CR by lia.
  destruct (strip ws_head (length bs) bs) as [|b b1] eqn:E; [reflexivity|].
  rewrite length_app, rev_app_distr. change (rev [13]) with [13]. cbn [length app].
  replace (S (length b1) + 1)%nat with (S (S (length b1))) by lia.
  change (strip ws_last (S (S (length b1))) (13 :: rev (b :: b1)))
    with (strip ws_last (S (length b1)) (rev (b :: b1))).
  reflexivity.
Qed.

Lemma trim_snoc_CR s : trim (s ++ String CRc EmptyString) = trim s.
Proof.
  change (trim (s ++ String CRc EmptyString))
    with (string_of_bytes (trim_bytes (bytes_of_string (s ++ String CRc EmptyString)))).
  rewrite bytes_of_string_app. change (bytes_of_string (String CRc EmptyString)) with [13].
  rewrite trim_bytes_snoc_CR. reflexivity.
Qed.

Lemma split_on_not_nil sep s : split_on sep s <> [].
Proof.
  destruct s as [|c r]; cbn [split_on]; [discriminate|].
  destruct (Ascii.eqb c sep); [discriminate|]. unfold prepend. destruct (split_on sep r); discriminate.
Qed.

Lemma prepend_app c l1 l2 : l1 <> [] -> prepend c (l1 ++ l2) = (prepend c l1 ++ l2)%list.
Proof. destruct l1; [congruence | reflexivity]. Qed.

Lemma split_on_app sep a b :
  split_on sep (a ++ String sep b) = (split_on sep a ++ split_on sep b)%list.
Proof.
  induction a as [|c a IH]; rewrite ?append_nil, ?append_cons; cbn [split_on].
  - rewrite Ascii.eqb_refl. reflexivity.
  - rewrite IH. destruct (Ascii.eqb c sep); [reflexivity|].
    apply prepend_app, split_on_not_nil.
Qed.

Lemma Forall2_prepend c l1 l2 :
  Forall2 up_to_CR l1 l2 -> Forall2 up_to_CR (prepend c l1) (prepend c l2).
Proof.
  intros H. destruct H as [|h1 h2 t1 t2 [-> | ->] Ht]; cbn [prepend].
  - constructor; [left; reflexivity | constructor].
  - constructor; [left; reflexivity | exact Ht].
  - constructor; [right; reflexivity | exact Ht].
Qed.

Lemma map_trim_up_to_CR l1 l2 : Forall2 up_to_CR l1 l2 -> map trim l1 = map trim l2.
Proof.
  induction 1 as [|h1 h2 t1 t2 [-> | ->] _ IH]; cbn [map]; rewrite ?trim_snoc_CR, ?IH;
    reflexivity.
Qed.

(** The pieces of the two ways of cutting differ by a carriage return at
    the end of a piece. *)
Lemma split_lines_split_on n : forall s,
  (String.length s <= n)%nat -> Forall2 up_to_CR (split_lines s) (split_on LFc s).
Proof.
  induction n as [|n IH]; intros s Hn.
  - destruct s; [|simpl in Hn; lia]. constructor; [left; reflexivity | constructor].
  - destruct s as [|c r]; [constructor; [left; reflexivity | constructor]|].
    cbn [String.length] in Hn. cbn [split_lines split_on].
    destruct (Ascii.eqb c LFc) eqn:Ec.
    + constructor; [left; reflexivity | apply IH; lia].
    + destruct (Ascii.eqb c CRc) eqn:Er; [|apply Forall2_prepend, IH; lia].
      destruct r as [|c' r']; [apply Forall2_prepend, IH; simpl; lia|].
      destruct (Ascii.eqb c' LFc) eqn:Ec'; [|apply Forall2_prepend, IH; lia].
      apply Ascii.eqb_eq in Er. subst c. cbn [split_on]. rewrite Ec'. cbn [prepend].
      constructor; [right; reflexivity|]. apply IH. cbn [String.length] in Hn. lia.
Qed.

Lemma lines_of_split_on buf :
  lines_of buf
  = List.filter (fun s => negb (String.eqb s EmptyString)) (map trim (split_on LFc buf)).
Proof.
  unfold lines_of. f_equal.
  apply map_trim_up_to_CR, (split_lines_split_on (String.length buf)), le_n.
Qed.

Lemma split_on_snoc_CR a :
  Forall2 up_to_CR (split_on LFc a) (split_on LFc (a ++ String CRc EmptyString)).
Proof.
  induction a as [|c a IH]; rewrite ?append_nil, ?append_cons; cbn [split_on].
  - change (Ascii.eqb CRc LFc) with false. cbn [prepend].
    constructor; [right; reflexivity | constructor].
  - destruct (Ascii.eqb c LFc); [constructor; [left; reflexivity | exact IH]|].
    apply Forall2_prepend, IH.
Qed.

Lemma lines_of_snoc_CR a : lines_of (a ++ String CRc EmptyString) = lines_of a.
Proof.
  rewrite !lines_of_split_on. f_equal. symmetry. apply map_trim_up_to_CR, split_on_snoc_CR.
Qed.

Lemma lines_of_app a b :
  lines_of (a ++ String LFc b) = (lines_of a ++ lines_of b)%list.
Proof. rewrite !lines_of_split_on, split_on_app, map_app, List.filter_app. reflexivity. Qed.

Lemma split_on_no_sep sep s piece :
  piece ∈ split_on sep s -> sep ∉ list_ascii_of_string piece.
Proof.
  revert piece. induction s as [|c r IH]; intros piece Hin; cbn [split_on] in Hin.
  - apply list_elem_of_singleton in Hin as ->. intros H. inversion H.
  - destruct (Ascii.eqb c sep) eqn:Ec.
    + apply elem_of_cons in Hin as [-> | Hin]; [intros H; inversion H | apply IH, Hin].
    + unfold prepend in Hin. destruct (split_on sep r) as [|h t] eqn:Es.
      * apply list_elem_of_singleton in Hin as ->. cbn [list_ascii_of_string].
        intros H. apply elem_of_cons in H as [-> | H]; [|inversion H].
        rewrite Ascii.eqb_refl in Ec. discriminate.
      * apply elem_of_cons in Hin as [-> | Hin].
        -- cbn [list_ascii_of_string]. intros H. apply elem_of_cons in H as [-> | H].
           ++ rewrite Ascii.eqb_refl in Ec. discriminate.
           ++ apply (IH h); [left | exact H].
        -- apply IH. right. exact Hin.
Qed.

Lemma trim_sublist s : forall b, b ∈ bytes_of_string (trim s) -> b ∈ bytes_of_string s.
Proof.
  intros b. rewrite bytes_of_trim.
  destruct (trim_bytes_take_drop (bytes_of_string s)) as (j & k & -> & _).
  apply sublist_subseteq. etransitivity; [apply sublist_take | apply sublist_drop].
Qed.

(** X10: the data handler cuts a buffer into lines. Every line it hands on
    is non-empty, holds no line feed, and is trimmed: it starts and ends
    with no white space. *)
Theorem lines_of_framing buf line :
  line ∈ lines_of buf ->
  line <> EmptyString
  /\ trim line = line
  /\ byte_of_ascii LFc ∉ bytes_of_string line.
Proof.
  rewrite lines_of_split_on. intros Hin. apply list_elem_of_In, filter_In in Hin as [Hin Hne].
  apply in_map_iff in Hin as (piece & <- & Hpiece).
  split; [|split].
  - intros E. rewrite E in Hne. discriminate.
  - apply trim_idempotent.
  - intros Hlf. apply trim_sublist in Hlf.
    unfold bytes_of_string, utf8 in Hlf. apply list_elem_of_fmap in Hlf as (a & Ha & Hin).
    assert (a = LFc) as ->.
    { unfold byte_of_ascii in Ha. apply N2Z.inj in Ha.
      rewrite <- (ascii_N_embedding a), <- Ha. reflexivity. }
    apply (split_on_no_sep LFc buf piece); [apply list_elem_of_In, Hpiece | exact Hin].
Qed.

Lemma lines_of_framing_witness :
  let buf := "  $IsLoaded: true " ++ String CRc (String LFc (String LFc "hello")) in
  lines_of buf = ["$IsLoaded: true"; "hello"]
  /\ trim "$IsLoaded: true" = "$IsLoaded: true".
Proof.
  intros buf.
  assert (H : lines_of buf = ["$IsLoaded: true"; "hello"]) by (vm_compute; reflexivity).
  split; [exact H|].
  apply (lines_of_framing buf "$IsLoaded: true"). rewrite H. left.
Defined.

Lemma onData_app JSON_parse secret t id l1 l2 : forall st,
  onData JSON_parse secret t id (l1 ++ l2) st
  = match onData JSON_parse secret t id l1 st with
    | Normal st1 => onData JSON_parse secret t id l2 st1
    | Throw e => Throw e
    end.
Proof.
  induction l1 as [|msg l1 IH]; intros st; cbn [app onData]; [reflexivity|].
  destruct (onLine JSON_parse secret t id msg st); [apply IH | reflexivity].
Qed.

(** X11: a carriage return before a line feed makes no difference, and a
    buffer may be cut at any line feed: handling the text before the line
    feed and then the text after it, at the same instant, is handling the
    whole buffer; when the first part throws, so does the whole. *)
Theorem onBuffer_cut JSON_parse secret t id a b st :
  lines_of (a ++ String CRc (String LFc b)) = lines_of (a ++ String LFc b)
  /\ lines_of (a ++ String LFc b) = (lines_of a ++ lines_of b)%list
  /\ onBuffer JSON_parse secret t id (a ++ String LFc b) st
     = match onBuffer JSON_parse secret t id a st with
       | Normal st1 => onBuffer JSON_parse secret t id b st1
       | Throw e => Throw e
       end.
Proof.
  split; [|split].
  - replace (a ++ String CRc (String LFc b))
      with ((a ++ String CRc EmptyString) ++ String LFc b).
    + rewrite !lines_of_app, lines_of_snoc_CR. reflexivity.
    + clear. induction a as [|c a IH]; [reflexivity|]. rewrite !append_cons, IH.
      reflexivity.
  - apply lines_of_app.
  - unfold onBuffer. rewrite lines_of_app. apply onData_app.
Qed.

(** ** The .env file *)

Lemma split_on_none sep s : sep ∉ list_ascii_of_string s -> split_on sep s = [s].
Proof.
  induction s as [|c r IH]; [reflexivity|]. cbn [list_ascii_of_string split_on].
  intros Hnot. apply not_elem_of_cons in Hnot as [Hne Hnot].
  rewrite (proj2 (Ascii.eqb_neq c sep)) by congruence. rewrite IH by assumption. reflexivity.
Qed.

Lemma join_with_cons sep p q r :
  join_with sep (p :: q :: r) = p ++ sep ++ join_with sep (q :: r).
Proof. reflexivity. Qed.

Lemma join_with_prepend sep c l :
  l <> [] -> join_with sep (prepend c l) = String c (join_with sep l).
Proof. destruct l as [|h [|h' t]]; [congruence | reflexivity..]. Qed.

Lemma join_split_on sep s : join_with (String sep EmptyString) (split_on sep s) = s.
Proof.
  induction s as [|c r IH]; [reflexivity|]. cbn [split_on].
  pose proof (split_on_not_nil sep r) as Hne.
  destruct (Ascii.eqb c sep) eqn:E.
  - apply Ascii.eqb_eq in E. subst c. destruct (split_on sep r) as [|h t]; [congruence|].
    rewrite join_with_cons, IH. reflexivity.
  - rewrite join_with_prepend, IH by assumption. reflexivity.
Qed.

Lemma list_ascii_app a b :
  list_ascii_of_string (a ++ b) = (list_ascii_of_string a ++ list_ascii_of_string b)%list.
Proof.
  induction a as [|c a IH]; [reflexivity|]. rewrite append_cons.
  cbn [list_ascii_of_string app]. rewrite IH. reflexivity.
Qed.

Lemma split_join sep ls :
  ls <> [] -> Forall (fun l => sep ∉ list_ascii_of_string l) ls ->
  split_on sep (join_with (String sep EmptyString) ls) = ls.
Proof.
  intros Hne Hall. induction Hall as [|p ls Hp Hall IH]; [congruence|].
  destruct ls as [|q r]; [apply split_on_none, Hp|].
  rewrite join_with_cons, append_cons, append_nil, split_on_app, IH by discriminate.
  rewrite (split_on_none sep p Hp). reflexivity.
Qed.

Lemma assign_fresh key value obj :
  key ∉ map fst obj -> assign key value obj = (obj ++ [(key, value)])%list.
Proof.
  induction obj as [|[k v] r IH]; [reflexivity|]. cbn [map fst assign app].
  intros Hnot. apply not_elem_of_cons in Hnot as [Hne Hnot].
  rewrite (proj2 (String.eqb_neq key k)) by assumption. rewrite IH by assumption. reflexivity.
Qed.

Lemma parseEnvLine_entry env kv :
  clean_entry kv -> parseEnvLine env (env_line kv) = assign (fst kv) (snd kv) env.
Proof.
  destruct kv as [key value]. unfold clean_entry, env_line. cbn [fst snd].
  intros (Hkey & Hproto & Hhash & Heq & _ & _ & Htrim).
  unfold parseEnvLine. cbv zeta. rewrite Htrim.
  assert (Hline : String.eqb (key ++ "=" ++ value) EmptyString = false).
  { destruct key; [congruence | reflexivity]. }
  assert (Hstarts : startsWith (key ++ "=" ++ value) "#" = false).
  { destruct key as [|c key]; [congruence|]. rewrite append_cons.
    unfold startsWith in *. cbn [String.prefix] in *.
    destruct (ascii_dec "#" c); [|reflexivity]. destruct key; discriminate Hhash. }
  rewrite Hline, Hstarts. cbn [negb andb].
  change ("=" ++ value) with (String "=" value).
  rewrite split_on_app, (split_on_none _ _ Heq). cbn [app].
  rewrite (proj2 (String.eqb_neq key EmptyString)) by assumption.
  pose proof (split_on_not_nil "=" value) as Hne.
  destruct (split_on "=" value) as [|h t] eqn:E; [congruence|]. rewrite <- E.
  replace (0 <? length (split_on "=" value))%nat with true by (rewrite E; reflexivity).
  cbn [negb andb]. rewrite join_split_on. unfold obj_set.
  rewrite (proj2 (String.eqb_neq key "__proto__")) by assumption. reflexivity.
Qed.

Lemma fold_parseEnvLine_entries entries : forall env,
  Forall clean_entry entries -> NoDup (map fst env ++ map fst entries) ->
  fold_left parseEnvLine (map env_line entries) env
  = (env ++ entries)%list.
Proof.
  induction entries as [|kv entries IH]; intros env Hclean Hnd; cbn [map fold_left].
  - rewrite app_nil_r. reflexivity.
  - inversion Hclean as [|? ? Hkv Hrest]; subst.
    rewrite (parseEnvLine_entry env kv Hkv). cbn [map] in Hnd.
    rewrite assign_fresh.
    + rewrite IH; [rewrite <- app_assoc; destruct kv; reflexivity | exact Hrest |].
      rewrite map_app. cbn [map]. rewrite <- app_assoc. exact Hnd.
    + apply NoDup_app in Hnd as (_ & Hdisj & _). intros Hin. apply (Hdisj _ Hin). left.
Qed.

Lemma clean_entry_line kv :
  clean_entry kv -> LFc ∉ list_ascii_of_string (env_line kv).
Proof.
  intros (_ & _ & _ & _ & Hk & Hv & _). unfold env_line. rewrite !list_ascii_app, !elem_of_app.
  intros [H | [H | H]]; [exact (Hk H) | | exact (Hv H)].
  apply list_elem_of_singleton in H. discriminate.
Qed.

(** X12: what [writeEnvFile] writes, [parseEnvFile] reads back: for entries
    with distinct keys, each of which makes a line of the file (a key that
    is not empty, not a comment and without an equals sign, no line feed,
    no white space at the ends of the line), parsing the written text gives
    the entries again, in their order. The value may be empty and may hold
    equals signs. *)
Theorem env_round_trip entries :
  Forall clean_entry entries -> NoDup (map fst entries) ->
  parseEnvFile (Some (writeEnvFile entries)) = entries.
Proof.
  intros Hclean Hnd. unfold parseEnvFile, writeEnvFile.
  change LF with (String LFc EmptyString). rewrite split_join.
  - cbn [fold_left]. change (parseEnvLine [] "# Authentication credentials (hashed passwords)")
      with (@nil (string * string)).
    rewrite fold_left_app, fold_parseEnvLine_entries by assumption. reflexivity.
  - discriminate.
  - constructor; [vm_compute; intros H; repeat (apply elem_of_cons in H as [H | H]; [discriminate H|]); inversion H|].
    apply Forall_app. split.
    + apply Forall_map. eapply Forall_impl; [exact Hclean|]. intros kv. apply clean_entry_line.
    + constructor; [|constructor]. intros H. inversion H.
Qed.

Lemma env_round_trip_witness :
  Forall clean_entry example_env /\ NoDup (map fst example_env)
  /\ parseEnvFile (Some (writeEnvFile example_env)) = example_env.
Proof.
  assert (Hclean : Forall clean_entry example_env).
  { repeat constructor; cbn [fst snd]; try discriminate; try (vm_compute; reflexivity);
      intros H; vm_compute in H;
      repeat (apply elem_of_cons in H as [H | H]; [discriminate H|]); inversion H. }
  assert (Hnd : NoDup (map fst example_env)).
  { apply NoDup_ListNoDup. repeat constructor; cbn; intuition discriminate. }
  split; [exact Hclean | split; [exact Hnd|]].
  apply env_round_trip; assumption.
Defined.

(** ** The users *)

Lemma lookup_prop_assign key value obj k :
  lookup_prop k (assign key value obj)
  = if String.eqb k key then Some value else lookup_prop k obj.
Proof.
  induction obj as [|[k' v'] r IH]; cbn [assign lookup_prop].
  - destruct (String.eqb k key); reflexivity.
  - destruct (String.eqb key k') eqn:E; cbn [lookup_prop].
    + apply String.eqb_eq in E. subst k'. destruct (String.eqb k key); reflexivity.
    + rewrite IH. destruct (String.eqb k k') eqn:E'; [|reflexivity].
      apply String.eqb_eq in E'. subst k'. rewrite String.eqb_sym, E. reflexivity.
Qed.

Lemma obj_set_keeps key value obj k :
  is_Some (lookup_prop k obj) -> is_Some (lookup_prop k (obj_set key value obj)).
Proof.
  unfold obj_set. destruct (String.eqb key "__proto__"); [trivial|].
  rewrite lookup_prop_assign. destruct (String.eqb k key); [eauto | trivial].
Qed.

Lemma loadUser_keeps env users key k :
  is_Some (lookup_prop k users) -> is_Some (lookup_prop k (loadUser env users key)).
Proof.
  intros H. unfold loadUser. cbv zeta. repeat case_match; try exact H.
  apply obj_set_keeps, H.
Qed.

Lemma fold_loadUser_keeps env keys k : forall users,
  is_Some (lookup_prop k users) ->
  is_Some (lookup_prop k (fold_left (loadUser env) keys users)).
Proof.
  induction keys as [|key keys IH]; intros users H; [exact H|].
  cbn [fold_left]. apply IH, loadUser_keeps, H.
Qed.

Lemma fold_loadUser_none env keys : forall users,
  (forall key hash,
     key ∈ keys -> endsWith key "_USERNAME" = true ->
     lookup_prop (replace key "_USERNAME" EmptyString ++ "_PASSWORD_HASH") env = Some hash ->
     hash = EmptyString) ->
  fold_left (loadUser env) keys users = users.
Proof.
  induction keys as [|key keys IH]; intros users Hnone; [reflexivity|]. cbn [fold_left].
  assert (Hkey : loadUser env users key = users).
  { unfold loadUser. cbv zeta. destruct (endsWith key "_USERNAME") eqn:E; [|reflexivity].
    destruct (lookup_prop _ env) as [hash|] eqn:Eh; [|reflexivity].
    rewrite (Hnone key hash (list_elem_of_here _ _) E Eh). reflexivity. }
  rewrite Hkey. apply IH. intros k h Hin. apply Hnone. right. exact Hin.
Qed.

(** X13: the table of users is never empty. When the .env file is missing,
    or no key ending in [_USERNAME] has a non-empty [_PASSWORD_HASH] beside
    it, the table is the two hard-coded users; as soon as one key has, with
    a name other than [__proto__], the table holds that name and is made of
    the users of the file alone. *)
Theorem loadUsers_fallback content :
  let env := parseEnvFile content in
  loadUsers content <> []
  /\ loadUsers None = hardcoded_users
  /\ ((forall key hash,
         key ∈ map fst env -> endsWith key "_USERNAME" = true ->
         lookup_prop (replace key "_USERNAME" EmptyString ++ "_PASSWORD_HASH") env = Some hash ->
         hash = EmptyString) ->
      loadUsers content = hardcoded_users)
  /\ (forall key hash name,
        lookup_prop key env = Some name -> endsWith key "_USERNAME" = true ->
        lookup_prop (replace key "_USERNAME" EmptyString ++ "_PASSWORD_HASH") env = Some hash ->
        hash <> EmptyString -> name <> "__proto__" ->
        is_Some (lookup_prop name (loadUsers content))
        /\ loadUsers content = fold_left (loadUser env) (map fst env) []).
Proof.
  intros env. split_and!.
  - unfold loadUsers. cbv zeta. fold env.
    destruct (fold_left (loadUser env) (map fst env) []); [discriminate|].
    cbn [length Nat.eqb]. discriminate.
  - reflexivity.
  - intros Hnone. unfold loadUsers. cbv zeta. fold env.
    rewrite (fold_loadUser_none env (map fst env) [] Hnone). reflexivity.
  - intros key hash name Hname Hends Hhash Hne Hproto.
    assert (Hin : key ∈ map fst env).
    { destruct (lookup_prop_Some_elem key env) as (x & _ & Hx).
      - destruct (decide (key ∈ map fst env)) as [H | H]; [exact H|].
        apply lookup_prop_None in H. congruence.
      - apply list_elem_of_fmap. exists (key, x). split; [reflexivity | exact Hx]. }
    apply list_elem_of_split in Hin as (l1 & l2 & Hl).
    assert (Hsome : is_Some (lookup_prop name (fold_left (loadUser env) (map fst env) []))).
    { rewrite Hl, fold_left_app. cbn [fold_left]. apply fold_loadUser_keeps.
      unfold loadUser at 1. cbv zeta. rewrite Hends, Hhash, Hname.
      rewrite (proj2 (String.eqb_neq hash EmptyString)) by assumption.
      change (default EmptyString (Some name)) with name. unfold obj_set. rewrite (proj2 (String.eqb_neq name "__proto__")) by assumption.
      rewrite lookup_prop_assign, String.eqb_refl. eauto. }
    unfold loadUsers. cbv zeta. fold env.
    destruct (fold_left (loadUser env) (map fst env) []) as [|u us] eqn:E.
    + destruct Hsome as [x Hx]. discriminate Hx.
    + cbn [length Nat.eqb]. split; [exact Hsome | reflexivity].
Qed.

Lemma loadUsers_fallback_witness :
  let content := Some (writeEnvFile example_env) in
  lookup_prop "USER1_USERNAME" (parseEnvFile content) = Some "alice"
  /\ loadUsers content = [("alice", "$2b$12$abcdefghijklmnopqrstuv")]
  /\ loadUsers (Some "USER1_USERNAME=alice") = hardcoded_users.
Proof.
  intros content.
  assert (H1 : lookup_prop "USER1_USERNAME" (parseEnvFile content) = Some "alice")
    by (vm_compute; reflexivity).
  assert (H2 : endsWith "USER1_USERNAME" "_USERNAME" = true) by (vm_compute; reflexivity).
  assert (H3 : lookup_prop (replace "USER1_USERNAME" "_USERNAME" EmptyString ++ "_PASSWORD_HASH")
                 (parseEnvFile content) = Some "$2b$12$abcdefghijklmnopqrstuv")
    by (vm_compute; reflexivity).
  destruct (loadUsers_fallback content) as (_ & _ & _ & Hpair).
  destruct (Hpair _ _ _ H1 H2 H3 ltac:(discriminate) ltac:(discriminate)) as [_ Husers].
  split; [exact H1 | split].
  - rewrite Husers. vm_compute. reflexivity.
  - apply (loadUsers_fallback (Some "USER1_USERNAME=alice")).
    intros key hash Hin _ Hhash. vm_compute in Hin.
    apply list_elem_of_singleton in Hin. subst key. vm_compute in Hhash. discriminate.
Defined.

(** ** Sessions *)

Lemma hex_encode_chars bs c :
  Forall is_byte bs -> c = ";"%char \/ c = "="%char -> c ∉ list_ascii_of_string (hex_encode bs).
Proof.
  intros Hb Hc. induction Hb as [|b bs Hb _ IH]; [intros H; inversion H|].
  pose proof (byte_cases
    (fun b => negb (Ascii.eqb (hex_digit (Z.shiftr b 4)) ";")
              && negb (Ascii.eqb (hex_digit (Z.shiftr b 4)) "=")
              && negb (Ascii.eqb (hex_digit (Z.land b 15)) ";")
              && negb (Ascii.eqb (hex_digit (Z.land b 15)) "="))) as H.
  cbv beta in H. specialize (H ltac:(vm_compute; reflexivity) b Hb).
  apply andb_true_iff in H as [H H4]. apply andb_true_iff in H as [H H3].
  apply andb_true_iff in H as [H1 H2].
  apply negb_true_iff, Ascii.eqb_neq in H1, H2, H3, H4.
  cbn [hex_encode list_ascii_of_string]. intros Hin.
  apply elem_of_cons in Hin as [-> | Hin]; [destruct Hc; congruence|].
  apply elem_of_cons in Hin as [-> | Hin]; [destruct Hc; congruence|].
  exact (IH Hin).
Qed.

Lemma startsWith_app p s : startsWith (p ++ s) p = true.
Proof.
  unfold startsWith. induction p as [|c p IH].
  - destruct s; reflexivity.
  - rewrite append_cons. cbn [String.prefix]. destruct (ascii_dec c c); [exact IH | congruence].
Qed.

Lemma session_id_of_cookie bytes :
  Forall is_byte bytes -> session_id_of (session_cookie (hex_encode bytes)) = Some (hex_encode bytes).
Proof.
  intros Hb. set (sid := hex_encode bytes). unfold session_id_of, session_cookie.
  assert (Hne : String.eqb ("sessionId=" ++ sid) EmptyString = false)
    by (rewrite append_cons; reflexivity).
  rewrite Hne. unfold find_session_cookie.
  assert (Hsplit : split_on ";" ("sessionId=" ++ sid) = ["sessionId=" ++ sid]).
  { apply split_on_none. rewrite list_ascii_app. intros Hin. apply elem_of_app in Hin as [Hin | Hin].
    - vm_compute in Hin. repeat (apply elem_of_cons in Hin as [Hin | Hin]; [discriminate Hin|]).
      inversion Hin.
    - apply (hex_encode_chars bytes ";" Hb); [left; reflexivity | exact Hin]. }
  rewrite Hsplit. cbn [List.find].
  assert (Htrim : trim ("sessionId=" ++ sid) = "sessionId=" ++ sid).
  { apply trim_graphic. rewrite bytes_of_string_app. apply Forall_app. split.
    - repeat constructor.
    - apply hex_encode_graphic, Hb. }
  rewrite Htrim, startsWith_app.
  change ("sessionId=" ++ sid) with ("sessionId" ++ String "=" sid).
  rewrite split_on_app.
  rewrite (split_on_none "=" sid) by (apply hex_encode_chars; [exact Hb | right; reflexivity]).
  reflexivity.
Qed.

Lemma assign_values (P : string -> Prop) key value obj :
  P value -> Forall (fun kv => P (snd kv)) obj -> Forall (fun kv => P (snd kv)) (assign key value obj).
Proof.
  intros Hv. induction 1 as [|[k v] r Hkv Hr IH]; cbn [assign]; [repeat constructor; exact Hv|].
  destruct (String.eqb key k); constructor; assumption.
Qed.

Lemma loadUsers_hashes content :
  Forall (fun kv => snd kv <> EmptyString) (loadUsers content).
Proof.
  unfold loadUsers. cbv zeta.
  assert (Hfold : forall env keys users,
            Forall (fun kv => snd kv <> EmptyString) users ->
            Forall (fun kv => snd kv <> EmptyString) (fold_left (loadUser env) keys users)).
  { intros env keys. induction keys as [|key keys IH]; intros users Hu; [exact Hu|].
    cbn [fold_left]. apply IH. unfold loadUser. cbv zeta.
    destruct (endsWith key "_USERNAME"); [|exact Hu].
    destruct (lookup_prop _ env) as [hash|]; [|exact Hu].
    destruct (String.eqb hash EmptyString) eqn:E; [exact Hu|].
    unfold obj_set. destruct (String.eqb _ "__proto__"); [exact Hu|].
    apply (assign_values (fun h => h <> EmptyString)); [|exact Hu].
    apply String.eqb_neq, E. }
  case_match; [repeat constructor; discriminate|].
  apply Hfold. constructor.
Qed.

Lemma lookup_prop_elem {A : Type} key (x : A) props :
  lookup_prop key props = Some x -> (key, x) ∈ props.
Proof.
  induction props as [|[k v] r IH]; cbn [lookup_prop]; [discriminate|].
  destruct (String.eqb key k) eqn:E.
  - intros [= ->]. apply String.eqb_eq in E. subst k. left.
  - intros H. right. apply IH, H.
Qed.

(** X14: a session from login to logout. A login with the name of a user of
    the table and a password that [bcrypt.compare] accepts for the stored
    hash answers 200, sets the cookie [sessionId=<id>] and stores the
    session under the id drawn. With that cookie the status request answers
    200 with the user name, as often as it is asked; the logout request
    removes the session, after which the status request answers 401. *)
Theorem session_round_trip bcrypt_compare content bytes username password hash sessions :
  Forall is_byte bytes ->
  lookup_prop username (loadUsers content) = Some hash ->
  bcrypt_compare password hash = true ->
  let sessionId := hex_encode bytes in
  let cookie := session_cookie sessionId in
  let logged_in := <[sessionId := username]> sessions in
  handleApiRequest bcrypt_compare content sessionId (login_request username password) sessions
  = Some ({| res_status := 200;
             res_set_cookie :=
               Some ("sessionId=" ++ sessionId ++ "; HttpOnly; Path=/; Max-Age=86400");
             res_body := user_data username |}, logged_in)
  /\ (forall content' sessionId',
        handleApiRequest bcrypt_compare content' sessionId' (status_request cookie) logged_in
        = Some ({| res_status := 200; res_set_cookie := None; res_body := user_data username |},
                logged_in))
  /\ (forall content' sessionId',
        handleApiRequest bcrypt_compare content' sessionId' (logout_request cookie) logged_in
        = Some ({| res_status := 200;
                   res_set_cookie := Some "sessionId=; HttpOnly; Path=/; Max-Age=0";
                   res_body := success |}, delete sessionId sessions))
  /\ (forall content' sessionId',
        handleApiRequest bcrypt_compare content' sessionId' (status_request cookie)
          (delete sessionId sessions)
        = Some ({| res_status := 401; res_set_cookie := None;
                   res_body := error_body "Not authenticated" |}, delete sessionId sessions)).
Proof.
  intros Hb Huser Hok sessionId cookie logged_in.
  pose proof (session_id_of_cookie bytes Hb) as Hid. fold sessionId cookie in Hid.
  assert (Hhash : String.eqb hash EmptyString = false).
  { apply String.eqb_neq. pose proof (loadUsers_hashes content) as Hall.
    rewrite Forall_forall in Hall. apply (Hall (username, hash)), lookup_prop_elem, Huser. }
  split_and!.
  - unfold handleApiRequest, login_request. cbn [req_method req_pathname req_body].
    change (String.eqb "POST" "OPTIONS") with false.
    change (String.eqb "/api/auth/login" "/api/auth/login" && String.eqb "POST" "POST") with true.
    cbv iota zeta. rewrite Huser, Hhash, Hok. reflexivity.
  - intros content' sessionId'. unfold handleApiRequest, status_request.
    cbn [req_method req_pathname req_cookie].
    change (String.eqb "GET" "OPTIONS") with false.
    change (String.eqb "/api/auth/status" "/api/auth/login" && String.eqb "GET" "POST") with false.
    change (String.eqb "/api/auth/status" "/api/auth/logout" && String.eqb "GET" "POST")
      with false.
    change (String.eqb "/api/auth/status" "/api/auth/status" && String.eqb "GET" "GET") with true.
    cbv iota zeta. unfold getSessionFromCookie. rewrite Hid.
    unfold logged_in. rewrite lookup_insert_eq. reflexivity.
  - intros content' sessionId'. unfold handleApiRequest, logout_request.
    cbn [req_method req_pathname req_cookie].
    change (String.eqb "POST" "OPTIONS") with false.
    change (String.eqb "/api/auth/logout" "/api/auth/login" && String.eqb "POST" "POST")
      with false.
    change (String.eqb "/api/auth/logout" "/api/auth/logout" && String.eqb "POST" "POST")
      with true.
    cbv iota zeta. unfold getSessionFromCookie. rewrite Hid.
    unfold logged_in. rewrite lookup_insert_eq, delete_insert_eq. reflexivity.
  - intros content' sessionId'. unfold handleApiRequest, status_request.
    cbn [req_method req_pathname req_cookie].
    change (String.eqb "GET" "OPTIONS") with false.
    change (String.eqb "/api/auth/status" "/api/auth/login" && String.eqb "GET" "POST") with false.
    change (String.eqb "/api/auth/status" "/api/auth/logout" && String.eqb "GET" "POST")
      with false.
    change (String.eqb "/api/auth/status" "/api/auth/status" && String.eqb "GET" "GET") with true.
    cbv iota zeta. unfold getSessionFromCookie. rewrite Hid, lookup_delete_eq. reflexivity.
Qed.

Lemma session_round_trip_witness :
  let sessionId := hex_encode example_random in
  Forall is_byte example_random
  /\ lookup_prop "admin" (loadUsers None)
     = Some "$2b$12$YjgksSv2iJyckrok0TbAwu6zQcnreHBfmn2/6UDE13GYoiz1M8Hbm"
  /\ example_compare "password123" "$2b$12$YjgksSv2iJyckrok0TbAwu6zQcnreHBfmn2/6UDE13GYoiz1M8Hbm"
     = true
  /\ handleApiRequest example_compare None EmptyString (status_request (session_cookie sessionId))
       (<[sessionId := "admin"]> ∅)
     = Some ({| res_status := 200; res_set_cookie := None; res_body := user_data "admin" |},
             <[sessionId := "admin"]> ∅).
Proof.
  intros sessionId.
  assert (H1 : Forall is_byte example_random).
  { apply Forall_forall. intros b Hin. apply list_elem_of_In, repeat_spec in Hin. subst b.
    unfold is_byte. lia. }
  assert (H2 : lookup_prop "admin" (loadUsers None)
               = Some "$2b$12$YjgksSv2iJyckrok0TbAwu6zQcnreHBfmn2/6UDE13GYoiz1M8Hbm")
    by reflexivity.
  assert (H3 : example_compare "password123"
                 "$2b$12$YjgksSv2iJyckrok0TbAwu6zQcnreHBfmn2/6UDE13GYoiz1M8Hbm" = true)
    by reflexivity.
  destruct (session_round_trip example_compare None example_random "admin" "password123" _ ∅
              H1 H2 H3) as (_ & Hstatus & _).
  split; [exact H1 | split; [exact H2 | split; [exact H3|]]].
  apply Hstatus.
Defined.

(** X15: the session store gains an entry only by a login: the request is a
    POST to [/api/auth/login], the name it carries is a user of the table
    and [bcrypt.compare] accepts the password for the stored hash; the entry
    is the name under the id drawn. No other request, and no login that
    answers anything but 200, adds or changes a session. *)
Theorem sessions_only_by_login bcrypt_compare content sessionId req sessions res sessions' id name :
  handleApiRequest bcrypt_compare content sessionId req sessions = Some (res, sessions') ->
  sessions' !! id = Some name ->
  sessions !! id = Some name
  \/ (id = sessionId /\ res_status res = 200
      /\ req_method req = "POST" /\ req_pathname req = "/api/auth/login"
      /\ exists password hash,
           req_body req = Some (name, password)
           /\ lookup_prop name (loadUsers content) = Some hash
           /\ bcrypt_compare password hash = true).
Proof.
  unfold handleApiRequest. cbv zeta. intros Hrun Hlook.
  destruct (String.eqb (req_method req) "OPTIONS"); [left; congruence|].
  destruct (String.eqb (req_pathname req) "/api/auth/login" && String.eqb (req_method req) "POST")
    eqn:Elogin.
  - apply andb_true_iff in Elogin as [Epath Emethod].
    apply String.eqb_eq in Epath, Emethod.
    destruct (req_body req) as [[username password]|] eqn:Ebody; [|left; congruence].
    destruct (lookup_prop username (loadUsers content)) as [hash|] eqn:Euser.
    + destruct (negb (String.eqb hash EmptyString) && bcrypt_compare password hash) eqn:Eok;
        [|left; congruence].
      apply andb_true_iff in Eok as [_ Eok]. injection Hrun as <- <-.
      destruct (decide (id = sessionId)) as [-> | Hne].
      * rewrite lookup_insert_eq in Hlook. injection Hlook as ->. right.
        split_and!; try reflexivity; try assumption. exists password, hash.
        split_and!; [reflexivity | assumption..].
      * rewrite lookup_insert_ne in Hlook by congruence. left. exact Hlook.
    + destruct (bool_decide (username ∈ Object_prototype_names)); [discriminate|].
      left. congruence.
  - destruct (String.eqb (req_pathname req) "/api/auth/logout"
              && String.eqb (req_method req) "POST").
    + injection Hrun as _ <-. left.
      destruct (getSessionFromCookie (req_cookie req) sessions); [|exact Hlook].
      destruct (session_id_of (req_cookie req)) as [sid|]; [|exact Hlook].
      apply lookup_delete_Some in Hlook as [_ Hlook]. exact Hlook.
    + destruct (String.eqb (req_pathname req) "/api/auth/status"
                && String.eqb (req_method req) "GET").
      * destruct (getSessionFromCookie (req_cookie req) sessions); left; congruence.
      * left. congruence.
Qed.

Lemma sessions_only_by_login_witness :
  let sessionId := hex_encode example_random in
  exists res,
    handleApiRequest example_compare None sessionId (login_request "admin" "password123") ∅
    = Some (res, <[sessionId := "admin"]> ∅)
    /\ (<[sessionId := "admin"]> ∅ : gmap string string) !! sessionId = Some "admin"
    /\ res_status res = 200.
Proof.
  intros sessionId.
  destruct (handleApiRequest example_compare None sessionId (login_request "admin" "password123") ∅)
    as [[res s']|] eqn:Hrun; [|exfalso; vm_compute in Hrun; discriminate].
  assert (Hs : s' = <[sessionId := "admin"]> ∅).
  { unfold handleApiRequest, login_request in Hrun. cbn in Hrun. injection Hrun as _ <-.
    reflexivity. }
  subst s'. exists res.
  assert (Hlook : (<[sessionId := "admin"]> ∅ : gmap string string) !! sessionId = Some "admin")
    by apply lookup_insert_eq.
  split; [reflexivity | split; [exact Hlook|]].
  destruct (sessions_only_by_login _ _ _ _ _ _ _ _ _ Hrun Hlook) as [Hold | (_ & Hstatus & _)].
  - rewrite lookup_empty in Hold. discriminate.
  - exact Hstatus.
Defined.

(** ** The legacy protocol *)

Lemma lookup_prop_set_prop key x props k :
  lookup_prop k (set_prop key x props)
  = if String.eqb k key then Some x else lookup_prop k props.
Proof.
  induction props as [|[k' v'] r IH]; cbn [set_prop lookup_prop].
  - destruct (String.eqb k key); reflexivity.
  - destruct (String.eqb key k') eqn:E; cbn [lookup_prop].
    + apply String.eqb_eq in E. subst k'. destruct (String.eqb k key); reflexivity.
    + rewrite IH. destruct (String.eqb k k') eqn:E'; [|reflexivity].
      apply String.eqb_eq in E'. subst k'. rewrite String.eqb_sym, E. reflexivity.
Qed.

Lemma get_prop_own v key x : lookup_prop key (own_props v) = Some x -> get_prop v key = x.
Proof. intros H. unfold get_prop. rewrite H. reflexivity. Qed.

Lemma get_prop_set_same key x props : get_prop (JObj false (set_prop key x props)) key = x.
Proof.
  apply get_prop_own. cbn [own_props]. rewrite lookup_prop_set_prop, String.eqb_refl. reflexivity.
Qed.

Lemma keys_set_prop key x props k :
  k ∈ map fst (set_prop key x props) <-> k = key \/ k ∈ map fst props.
Proof.
  induction props as [|[k' v'] r IH]; cbn [set_prop map fst].
  - rewrite list_elem_of_singleton, elem_of_nil. tauto.
  - destruct (String.eqb key k') eqn:E; cbn [map fst]; rewrite !elem_of_cons.
    + apply String.eqb_eq in E. subst k'. tauto.
    + rewrite IH. tauto.
Qed.

Lemma NoDup_only {A : Type} (a : A) (l : list A) :
  NoDup l -> (forall x, x ∈ l <-> x = a) -> l = [a].
Proof.
  intros Hnd Hel. destruct l as [|x l]; [exfalso; apply (elem_of_nil a), Hel; reflexivity|].
  assert (x = a) as -> by (apply Hel; left).
  destruct l as [|y l]; [reflexivity|]. exfalso.
  assert (y = a) as -> by (apply Hel; right; left).
  apply NoDup_cons in Hnd as [Hnot _]. apply Hnot. left.
Qed.

(** One field set on a copy of the cached state: the states differ at most
    on that field. *)
Lemma changed_keys_set_prop cache field x :
  well_formed cache = true ->
  changed_keys cache (JObj false (set_prop field x (own_props cache)))
  = if deepCompare (get_prop cache field) x then [] else [field].
Proof.
  intros Hwf. set (new := JObj false (set_prop field x (own_props cache))).
  destruct (changed_keys_spec cache new) as [Hnd Hel].
  assert (Hother : forall key, key <> field ->
            key ∈ Object_keys cache \/ key ∈ Object_keys new ->
            deepCompare (get_prop cache key) (get_prop new key) = true).
  { intros key Hne Hin.
    assert (Hold : key ∈ Object_keys cache).
    { destruct Hin as [Hin | Hin]; [exact Hin|]. unfold new, Object_keys in Hin.
      cbn [own_props] in Hin. apply keys_set_prop in Hin as [-> | Hin]; [congruence | exact Hin]. }
    destruct (lookup_prop_Some_elem key (own_props cache) Hold) as (y & Hy & Hyin).
    rewrite (get_prop_own cache key y Hy).
    rewrite (get_prop_own new key y).
    - apply deepCompare_refl. pose proof (own_props_well_formed cache Hwf) as Hall.
      rewrite Forall_forall in Hall. apply (Hall (key, y) Hyin).
    - unfold new. cbn [own_props]. rewrite lookup_prop_set_prop.
      rewrite (proj2 (String.eqb_neq key field)) by assumption. exact Hy. }
  assert (Hfield : get_prop new field = x) by apply get_prop_set_same.
  destruct (deepCompare (get_prop cache field) x) eqn:Hd.
  - destruct (changed_keys cache new) as [|k ks]; [reflexivity|]. exfalso.
    assert (Hin : k ∈ k :: ks) by left. apply Hel in Hin as [Hin Hdiff].
    destruct (decide (k = field)) as [-> | Hne]; [rewrite Hfield in Hdiff|
      rewrite (Hother k Hne Hin) in Hdiff]; congruence.
  - apply NoDup_only; [exact Hnd|]. intros key. rewrite Hel. split.
    + intros [Hin Hdiff]. destruct (decide (key = field)) as [-> | Hne]; [reflexivity|].
      rewrite (Hother key Hne Hin) in Hdiff. discriminate.
    + intros ->. split; [|rewrite Hfield; exact Hd].
      right. unfold new, Object_keys. cbn [own_props]. apply keys_set_prop. left. reflexivity.
Qed.

Lemma prefix_empty s : String.prefix EmptyString s = true.
Proof. destruct s; reflexivity. Qed.

Lemma startsWith_other p q rest :
  startsWith p q = false -> startsWith q p = false -> startsWith (p ++ rest) q = false.
Proof.
  unfold startsWith. revert q. induction p as [|c p IH]; intros q H1 H2.
  - rewrite prefix_empty in H2. discriminate.
  - destruct q as [|d q]; [rewrite prefix_empty in H1; discriminate|].
    rewrite append_cons. cbn [String.prefix] in *.
    destruct (ascii_dec d c) as [E | Hne]; [|reflexivity]. subst d.
    destruct (ascii_dec c c); [|congruence]. apply IH; assumption.
Qed.

Lemma legacy_flag_message t id prefix field rest st :
  (prefix, field) ∈ legacy_flags ->
  startsWith (prefix ++ rest) "$HandshakeResponse:" = false
  /\ convertLegacyToJson t id (prefix ++ rest) st
     = legacy_message t "status_update" None
         (JObj false (set_prop field (legacy_flag (prefix ++ rest))
                        (own_props (default default_status (clientStateCache st !! id))))) None.
Proof.
  intros Hin. unfold legacy_flags in Hin. unfold convertLegacyToJson. cbv zeta.
  repeat (apply elem_of_cons in Hin as [[= -> ->] | Hin];
          [rewrite !startsWith_other by reflexivity; rewrite startsWith_app;
           split; reflexivity|]).
  inversion Hin.
Qed.

Lemma deepCompare_JBool x b : deepCompare x (JBool b) = true <-> x = JBool b.
Proof.
  destruct x as [| |b'|q|s|a props].
  1-5: rewrite deepCompare_primitive by discriminate; cbn [strict_equals];
       try (split; [discriminate | congruence]).
  - split; [intros H; apply Bool.eqb_prop in H; congruence|].
    intros [= ->]. apply Bool.eqb_reflx.
  - rewrite deepCompare_JObj_prim by discriminate. split; [discriminate | congruence].
Qed.

(** X16: a legacy flag line ([$IsLoaded:], [$IsLogged:] or
    [$IsScriptRunning:]) of an authenticated client whose state is cached is
    handled as a status update that sets that one field on a copy of the
    cached state. When the cached field already is the reported boolean, no
    [status_update_json] is published; otherwise exactly one is, whose
    [changes] hold that field alone, and the cache takes the new state. *)
Theorem legacy_flag_line JSON_parse secret t id st prefix field rest cache :
  (prefix, field) ∈ legacy_flags ->
  isClientAuthenticated id st = true ->
  JSON_parse (prefix ++ rest) = None ->
  clientStateCache st !! id = Some cache ->
  well_formed cache = true ->
  let line := prefix ++ rest in
  let flag := legacy_flag line in
  let status := JObj false (set_prop field flag (own_props cache)) in
  exists st',
    onLine JSON_parse secret t id line st = Normal st'
    /\ (get_prop cache field = flag ->
        st' = addClientLog id "[Status update - no changes detected]" st)
    /\ (get_prop cache field <> flag ->
        status_update_json id status (JObj false [(field, flag)]) (toISOString t) (toISOString t)
          ∈ published st'
        /\ count_events (is_status_update_json id) (published st')
           = S (count_events (is_status_update_json id) (published st))
        /\ clientStateCache st' !! id = Some status).
Proof.
  intros Hin Hauth Hparse Hcache Hwf line flag status.
  destruct (legacy_flag_message t id prefix field rest st Hin) as [Hprefix Hmessage].
  fold line in Hparse, Hprefix, Hmessage.
  unfold onLine. rewrite Hprefix, Hauth, Hparse. cbn [negb]. cbv zeta.
  rewrite Hmessage, Hcache.
  change (default default_status (Some cache)) with cache. fold flag status.
  rewrite processJsonMessage_status_update by reflexivity.
  cbn [legacy_message m_status m_timestamp m_clientName updateClientName].
  eexists. split; [reflexivity|].
  assert (Hkeys : changed_keys (cached id st) status
                  = if deepCompare (get_prop cache field) flag then [] else [field]).
  { unfold cached. rewrite Hcache. apply changed_keys_set_prop, Hwf. }
  assert (Hbool : deepCompare (get_prop cache field) flag = true <-> get_prop cache field = flag).
  { unfold flag, legacy_flag. apply deepCompare_JBool. }
  split.
  - intros Hsame. apply Hbool in Hsame. rewrite Hsame in Hkeys.
    apply handleStatusUpdate_unchanged; [reflexivity | exact Hkeys].
  - intros Hdiff.
    assert (Hd : deepCompare (get_prop cache field) flag = false).
    { apply not_true_is_false. intros E. apply Hdiff, Hbool, E. }
    rewrite Hd in Hkeys.
    destruct (handleStatusUpdate_changed t id status (Some (toISOString t)) st eq_refl)
      as (Hc & _ & _ & Hpub & Hcount).
    { rewrite Hkeys. discriminate. }
    rewrite Hkeys in Hpub. unfold changes_of in Hpub. cbn [map] in Hpub.
    assert (Hget : get_prop status field = flag) by apply get_prop_set_same.
    rewrite Hget in Hpub.
    split; [|split; [exact Hcount|]].
    + replace (or_else (Some (toISOString t)) (toISOString t)) with (toISOString t) in Hpub;
        [exact Hpub|].
      unfold or_else. destruct (String.eqb (toISOString t) EmptyString); reflexivity.
    + rewrite Hc, lookup_insert_eq. reflexivity.
Qed.

Lemma legacy_flag_line_witness :
  ("$IsLoaded:", "loaded") ∈ legacy_flags
  /\ isClientAuthenticated example_id st_full_status = true
  /\ clientStateCache st_full_status !! example_id = Some (full_status false false)
  /\ well_formed (full_status false false) = true
  /\ exists st',
       onLine (fun _ => None) default_HANDSHAKE_SECRET (clock_s 4) example_id "$IsLoaded: TRUE"
         st_full_status = Normal st'
       /\ clientStateCache st' !! example_id = Some (full_status true false).
Proof.
  assert (H1 : ("$IsLoaded:", "loaded") ∈ legacy_flags) by left.
  assert (H2 : isClientAuthenticated example_id st_full_status = true) by (vm_compute; reflexivity).
  assert (H3 : clientStateCache st_full_status !! example_id = Some (full_status false false))
    by (vm_compute; reflexivity).
  assert (H4 : well_formed (full_status false false) = true) by (vm_compute; reflexivity).
  destruct (legacy_flag_line (fun _ => None) default_HANDSHAKE_SECRET (clock_s 4) example_id
              st_full_status "$IsLoaded:" "loaded" " TRUE" (full_status false false)
              H1 H2 eq_refl H3 H4) as (st' & Hrun & _ & Hdiff).
  split; [exact H1 | split; [exact H2 | split; [exact H3 | split; [exact H4|]]]].
  exists st'. split; [exact Hrun|].
  destruct Hdiff as (_ & _ & Hc); [vm_compute; discriminate|].
  rewrite Hc. vm_compute. reflexivity.
Defined.

(** X17: a [$Heartbeat] line, or a JSON message of type [heartbeat] without
    a client name, from an authenticated client stamps the client with the
    time of arrival and publishes nothing; a pass of the heartbeat monitor
    up to 30 s later leaves the client as it is. *)
Theorem heartbeat_keeps_alive JSON_parse secret t t' id line st :
  isClientAuthenticated id st = true ->
  startsWith line "$HandshakeResponse:" = false ->
  (JSON_parse line = None /\ line = "$Heartbeat"
   \/ exists jsonData, JSON_parse line = Some jsonData
                       /\ m_type jsonData = Some "heartbeat" /\ m_clientName jsonData = None) ->
  now t' - now t <= HEARTBEAT_TIMEOUT ->
  let st1 := set_clientLastHeartbeat <[id := now t]> st in
  onLine JSON_parse secret t id line st = Normal st1
  /\ published st1 = published st
  /\ client_entries id (heartbeatMonitor t' st1) = client_entries id st1
  /\ disconnects id (heartbeatMonitor t' st1) = disconnects id st.
Proof.
  intros Hauth Hprefix Hline Htime st1.
  assert (Hrun : onLine JSON_parse secret t id line st = Normal st1).
  { unfold onLine. rewrite Hprefix, Hauth. cbn [negb].
    destruct Hline as [[Hparse ->] | (jsonData & Hparse & Hty & Hname)]; rewrite Hparse.
    - reflexivity.
    - unfold processJsonMessage. cbv zeta. rewrite Hty, Hname. reflexivity. }
  split; [exact Hrun | split; [reflexivity|]].
  change (disconnects id st) with (disconnects id st1).
  assert (Hfresh : isClientAuthenticated id st1 = false
                   \/ now t' - default 0 (clientLastHeartbeat st1 !! id) <= HEARTBEAT_TIMEOUT).
  { right. unfold st1. fields. rewrite lookup_insert_eq. exact Htime. }
  clearbody st1. unfold heartbeatMonitor.
  destruct (decide (id ∈ tcpClients st1)) as [Hin | Hout].
  - destruct (elements_split id (tcpClients st1) Hin) as (l1 & l2 & -> & Hnot1 & Hnot2).
    rewrite fold_left_app. cbn [fold_left].
    destruct (heartbeatVisit_fold_other t' id l1 st1 Hnot1) as [He1 Hd1].
    rewrite <- (entries_authenticated _ _ _ He1),
      <- (entries_clientLastHeartbeat _ _ _ He1) in Hfresh.
    rewrite (heartbeatVisit_fresh t' _ id Hfresh).
    destruct (heartbeatVisit_fold_other t' id l2 (fold_left (heartbeatVisit t') l1 st1) Hnot2)
      as [He2 Hd2].
    rewrite He2, Hd2. split; assumption.
  - apply heartbeatVisit_fold_other. rewrite elem_of_elements. exact Hout.
Qed.


Lemma heartbeat_keeps_alive_witness :
  isClientAuthenticated example_id st_example_run = true
  /\ startsWith "$Heartbeat" "$HandshakeResponse:" = false
  /\ now (clock_s 50) - now (clock_s 20) <= HEARTBEAT_TIMEOUT
  /\ onLine (fun _ => None) default_HANDSHAKE_SECRET (clock_s 20) example_id "$Heartbeat"
       st_example_run
     = Normal (set_clientLastHeartbeat <[example_id := 20000]> st_example_run)
  /\ client_entries example_id
       (heartbeatMonitor (clock_s 50)
          (set_clientLastHeartbeat <[example_id := 20000]> st_example_run))
     = client_entries example_id
         (set_clientLastHeartbeat <[example_id := 20000]> st_example_run).
Proof.
  assert (H1 : isClientAuthenticated example_id st_example_run = true) by (vm_compute; reflexivity).
  assert (H2 : startsWith "$Heartbeat" "$HandshakeResponse:" = false) by reflexivity.
  assert (H3 : now (clock_s 50) - now (clock_s 20) <= HEARTBEAT_TIMEOUT)
    by (vm_compute; discriminate).
  destruct (heartbeat_keeps_alive (fun _ => None) default_HANDSHAKE_SECRET (clock_s 20)
              (clock_s 50) example_id "$Heartbeat" st_example_run H1 H2
              (or_introl (conj eq_refl eq_refl)) H3) as (Hrun & _ & Hkeep & _).
  split; [exact H1 | split; [exact H2 | split; [exact H3 | split; [exact Hrun | exact Hkeep]]]].
Defined.

(** ** No entry without a socket *)

Lemma entries_accounted id st st' :
  client_entries id st' = client_entries id st -> accounted id st -> accounted id st'.
Proof.
  intros He [Hin | Hev]; [left | right; exact (entries_evicted _ _ _ He Hev)].
  unfold client_entries in He. injection He as H1 _.
  eapply bool_decide_eq_true. rewrite H1. eapply bool_decide_eq_true. exact Hin.
Qed.

Lemma tcpClients_processJsonMessage t k jsonData st :
  tcpClients (processJsonMessage t k jsonData st) = tcpClients st.
Proof.
  assert (Hname : tcpClients (updateClientName k (m_clientName jsonData) st) = tcpClients st).
  { unfold updateClientName. repeat case_match; reflexivity. }
  assert (Hif : forall field changes st0,
            tcpClients (update_if_changed k field changes st0) = tcpClients st0).
  { intros. unfold update_if_changed. case_match; reflexivity. }
  unfold processJsonMessage. cbv zeta. rewrite <- Hname.
  generalize (updateClientName k (m_clientName jsonData) st). intros st0.
  repeat case_match; try reflexivity.
  - unfold handleStatusUpdate. cbv zeta. repeat case_match; try reflexivity.
    unfold addClientLog, broadcastToBrowsers. fields. rewrite !Hif. reflexivity.
  - unfold handleUsernameResponse. cbv zeta. repeat case_match; reflexivity.
Qed.

Lemma tcpClients_sendUsernameRequest t k st :
  tcpClients (sendUsernameRequest t k st).1 = tcpClients st.
Proof. unfold sendUsernameRequest. cbv zeta. case_match; reflexivity. Qed.

Lemma registered_pending id st :
  accounted id st -> is_Some (pendingHandshakes st !! id) -> id ∈ tcpClients st.
Proof.
  intros [Hin | Hev] [h Hh]; [exact Hin|].
  destruct Hev as (_ & _ & _ & _ & Hp & _). congruence.
Qed.

Lemma registered_authenticated id st :
  accounted id st -> isClientAuthenticated id st = true -> id ∈ tcpClients st.
Proof.
  intros Hacc Ha. apply (registered_pending id st Hacc). unfold isClientAuthenticated in Ha.
  destruct (pendingHandshakes st !! id); [eauto | discriminate].
Qed.

Lemma registered_poller id st :
  accounted id st -> is_Some (clientUsernameStatus st !! id) -> id ∈ tcpClients st.
Proof.
  intros [Hin | Hev] [h Hh]; [exact Hin|].
  destruct Hev as (_ & _ & _ & _ & _ & _ & Hp). congruence.
Qed.

Lemma accounted_addClientLog id k msg st : accounted id st -> accounted id (addClientLog k msg st).
Proof. exact (fun H => H). Qed.

Lemma accounted_evict id t msg st :
  accounted id
    (broadcastToBrowsers (client_disconnect id)
       (cleanupClient id (socket_destroy id (addMasterLog t msg (Some id) st)))).
Proof. right. apply (reject_outcome t msg id st). Qed.

Lemma accounted_processHandshakeResponse secret t id response st st' ok :
  processHandshakeResponse secret t id response st = Normal (st', ok) ->
  accounted id st -> accounted id st'.
Proof.
  unfold processHandshakeResponse. cbv zeta. intros Hrun Hacc.
  destruct (pendingHandshakes st !! id) as [h|] eqn:Hp.
  - case_decide.
    + injection Hrun as <- _. apply accounted_evict.
    + destruct (isValidHandshakeResponse (challenge h) response secret) as [[]|];
        [| |discriminate]; injection Hrun as <- _; [|apply accounted_evict].
      left.
      match goal with |- context [startUsernameChecker id ?s] =>
        destruct (startUsernameChecker_fields id s) as (_ & H2 & _)
      end.
      rewrite H2. apply (registered_pending id st Hacc). rewrite Hp. eauto.
  - injection Hrun as <- _. exact Hacc.
Qed.

Lemma accounted_onLine JSON_parse secret t id msg st st' :
  onLine JSON_parse secret t id msg st = Normal st' -> accounted id st -> accounted id st'.
Proof.
  unfold onLine. cbv zeta. intros Hrun Hacc.
  destruct (startsWith msg "$HandshakeResponse:").
  - destruct (processHandshakeResponse secret t id _ st) as [[st1 ok]|] eqn:Hp; [|discriminate].
    injection Hrun as <-. eapply accounted_processHandshakeResponse; eassumption.
  - destruct (isClientAuthenticated id st) eqn:Ha; cbn [negb] in Hrun.
    + pose proof (registered_authenticated id st Hacc Ha) as Hin.
      destruct (JSON_parse msg); injection Hrun as <-; left;
        rewrite tcpClients_processJsonMessage; exact Hin.
    + injection Hrun as <-. exact Hacc.
Qed.

Lemma accounted_onData JSON_parse secret t id lines : forall st st',
  onData JSON_parse secret t id lines st = Normal st' -> accounted id st -> accounted id st'.
Proof.
  induction lines as [|msg rest IH]; intros st st' Hrun Hacc; cbn [onData] in Hrun.
  - injection Hrun as <-. exact Hacc.
  - destruct (onLine JSON_parse secret t id msg st) as [st1|] eqn:Hl; [|discriminate].
    apply (IH st1 st' Hrun). eapply accounted_onLine; eassumption.
Qed.

Lemma accounted_usernameCheckerTick t id st :
  accounted id st -> accounted id (usernameCheckerTick t id st).
Proof.
  intros Hacc. unfold usernameCheckerTick. cbv zeta.
  destruct (clientUsernameStatus st !! id) as [status|] eqn:Hs; [|exact Hacc].
  assert (Hin : id ∈ tcpClients st) by (apply (registered_poller id st Hacc); rewrite Hs; eauto).
  destruct (checker status); cbn [negb]; [|exact Hacc].
  destruct (hasUsername status); [left; exact Hin|].
  destruct (requestSent status); cbn [negb]; [exact Hacc|].
  pose proof (tcpClients_sendUsernameRequest t id st) as Hsend.
  destruct (sendUsernameRequest t id st) as [st1 sent]. cbn [fst] in Hsend.
  destruct sent; left; [change (id ∈ tcpClients st1)|]; rewrite Hsend; exact Hin.
Qed.

Lemma accounted_onObserverMessage t data id st :
  accounted id st -> accounted id (onObserverMessage t data st).
Proof.
  intros Hacc.
  assert (Hsame : tcpClients (onObserverMessage t data st) = tcpClients st
                  /\ clientNames (onObserverMessage t data st) = clientNames st
                  /\ clientStatus (onObserverMessage t data st) = clientStatus st
                  /\ clientLastHeartbeat (onObserverMessage t data st) = clientLastHeartbeat st
                  /\ pendingHandshakes (onObserverMessage t data st) = pendingHandshakes st
                  /\ clientStateCache (onObserverMessage t data st) = clientStateCache st
                  /\ clientUsernameStatus (onObserverMessage t data st) = clientUsernameStatus st).
  { destruct data as [k message|k|]; unfold onObserverMessage; cbv zeta.
    - case_match; split_and!; reflexivity.
    - destruct (bool_decide (k ∈ tcpClients st) && isClientAuthenticated k st);
        [|split_and!; reflexivity].
      unfold sendUsernameRequest. cbv zeta.
      destruct (negb (bool_decide (k ∈ tcpClients st)) || negb (isClientAuthenticated k st));
        split_and!; reflexivity.
    - split_and!; reflexivity. }
  destruct Hsame as (H1 & H2 & H3 & H4 & H5 & H6 & H7).
  unfold accounted, evicted. rewrite H1, H2, H3, H4, H5, H6, H7. exact Hacc.
Qed.

Lemma accounted_heartbeatVisit t st k id :
  accounted id st -> accounted id (heartbeatVisit t st k).
Proof.
  intros Hacc. destruct (decide (k = id)) as [-> | Hne].
  - unfold heartbeatVisit. case_match; [apply accounted_evict | exact Hacc].
  - exact (entries_accounted id st _ (entries_heartbeatVisit t st k id Hne) Hacc).
Qed.

Lemma accounted_handshakeVisit t st k h id :
  accounted id st -> accounted id (handshakeVisit t st (k, h)).
Proof.
  intros Hacc. destruct (decide (k = id)) as [-> | Hne].
  - unfold handshakeVisit. case_match; [|exact Hacc]. cbv zeta. right.
    apply evicted_broadcast, cleanupClient_evicted.
  - exact (entries_accounted id st _ (entries_handshakeVisit t st k h id Hne) Hacc).
Qed.

Lemma accounted_fold {A : Type} (f : State -> A -> State) id (l : list A) :
  (forall st x, accounted id st -> accounted id (f st x)) ->
  forall st, accounted id st -> accounted id (fold_left f l st).
Proof. intros Hf. induction l as [|x l IH]; intros st Ha; cbn [fold_left]; auto. Qed.

Lemma accounted_handle JSON_parse secret t e id st st' :
  handle JSON_parse secret t e st = Normal st' -> accounted id st -> accounted id st'.
Proof.
  intros Hrun Hacc.
  assert (Hother : forall k, addressed_to e = Some k -> k <> id -> accounted id st').
  { intros k Hk Hne.
    exact (entries_accounted id st st' (entries_handle _ _ _ _ _ _ _ _ Hk Hne Hrun) Hacc). }
  destruct e as [c r|c lines|c|c err|c| | |c|data]; cbn [handle] in Hrun.
  - destruct (decide (c = id)) as [-> | Hne]; [|exact (Hother c eq_refl Hne)].
    injection Hrun as <-. left. unfold onConnection, startHandshake, addMasterLog, addClientLog,
      socket_write, broadcastToBrowsers. fields. apply elem_of_union_l, elem_of_singleton.
    reflexivity.
  - destruct (decide (c = id)) as [-> | Hne]; [|exact (Hother c eq_refl Hne)].
    eapply accounted_onData; eassumption.
  - destruct (decide (c = id)) as [-> | Hne]; [|exact (Hother c eq_refl Hne)].
    injection Hrun as <-. right. apply onClose_disconnects.
  - injection Hrun as <-. exact Hacc.
  - destruct (decide (c = id)) as [-> | Hne]; [|exact (Hother c eq_refl Hne)].
    injection Hrun as <-. unfold handshakeTimeout.
    destruct (pendingHandshakes st !! id) as [[ch ts []]|]; try exact Hacc.
    apply accounted_evict.
  - injection Hrun as <-. unfold heartbeatMonitor.
    apply accounted_fold; [|exact Hacc]. intros st0 k. apply accounted_heartbeatVisit.
  - injection Hrun as <-. unfold handshakeSweep.
    apply accounted_fold; [|exact Hacc]. intros st0 [k h]. apply accounted_handshakeVisit.
  - destruct (decide (c = id)) as [-> | Hne]; [|exact (Hother c eq_refl Hne)].
    injection Hrun as <-. apply accounted_usernameCheckerTick, Hacc.
  - injection Hrun as <-. apply accounted_onObserverMessage, Hacc.
Qed.

Lemma accounted_run JSON_parse secret id trace : forall st st',
  run JSON_parse secret trace st = Normal st' -> accounted id st -> accounted id st'.
Proof.
  induction trace as [|[t e] rest IH]; intros st st' Hrun Hacc; cbn [run] in Hrun.
  - injection Hrun as <-. exact Hacc.
  - destruct (handle JSON_parse secret t e st) as [st1|] eqn:Hh; [|discriminate].
    apply (IH st1 st' Hrun). eapply accounted_handle; eassumption.
Qed.

(** X18: in every state the server reaches from its start, a client whose
    socket is not registered has no name, no status, no heartbeat, no
    handshake, no cached state and no username status: whatever the events
    and their order, these maps hold entries for registered clients only.
    (The log is the one map that can hold more: the close handler can
    leave one behind.)
    In particular an authenticated client is a registered one. *)
Theorem no_entry_without_socket JSON_parse secret trace st id :
  run JSON_parse secret trace initial_state = Normal st ->
  (id ∉ tcpClients st -> evicted id st)
  /\ (isClientAuthenticated id st = true -> id ∈ tcpClients st).
Proof.
  intros Hrun.
  assert (Hacc : accounted id st).
  { apply (accounted_run JSON_parse secret id trace initial_state st Hrun).
    right. unfold evicted, initial_state. fields. rewrite !lookup_empty.
    split_and!; try reflexivity. apply not_elem_of_empty. }
  split.
  - intros Hout. destruct Hacc as [Hin | Hev]; [contradiction | exact Hev].
  - apply registered_authenticated, Hacc.
Qed.

Lemma no_entry_without_socket_witness :
  run (fun _ => None) default_HANDSHAKE_SECRET
    (example_trace ++ [(clock_s 40, EHeartbeatMonitor)])%list initial_state
  = Normal (heartbeatMonitor (clock_s 40) st_example_run)
  /\ (example_id ∉ tcpClients (heartbeatMonitor (clock_s 40) st_example_run))
  /\ evicted example_id (heartbeatMonitor (clock_s 40) st_example_run).
Proof.
  assert (Hrun : run (fun _ => None) default_HANDSHAKE_SECRET
                   (example_trace ++ [(clock_s 40, EHeartbeatMonitor)])%list initial_state
                 = Normal (heartbeatMonitor (clock_s 40) st_example_run))
    by (vm_compute; reflexivity).
  assert (Hout : example_id ∉ tcpClients (heartbeatMonitor (clock_s 40) st_example_run)).
  { assert (Hb : bool_decide (example_id ∈ tcpClients (heartbeatMonitor (clock_s 40) st_example_run))
                 = false) by (vm_compute; reflexivity).
    apply bool_decide_eq_false_1 in Hb. exact Hb. }
  split; [exact Hrun | split; [exact Hout|]].
  exact (proj1 (no_entry_without_socket _ _ _ _ example_id Hrun) Hout).
Defined.

(** ** The handshake sweep, further *)

Lemma handshakeVisit_fold_entries t id (l : list (string * Handshake)) : forall st,
  id ∉ l.*1 -> client_entries id (fold_left (handshakeVisit t) l st) = client_entries id st.
Proof.
  induction l as [|[k h] l IH]; intros st Hnotin; [reflexivity|].
  rewrite fmap_cons, not_elem_of_cons in Hnotin. destruct Hnotin as [Hne Hnotin].
  cbn [fold_left fst] in *. rewrite IH by assumption.
  apply entries_handshakeVisit. congruence.
Qed.

Lemma handshakeVisit_spared t st id h :
  authenticated h = true \/ now t - timestamp h <= HANDSHAKE_TIMEOUT ->
  handshakeVisit t st (id, h) = st.
Proof.
  intros [Ha | Hyoung]; unfold handshakeVisit.
  - rewrite Ha. reflexivity.
  - rewrite bool_decide_eq_false_2 by lia. rewrite andb_false_r. reflexivity.
Qed.

(** X19: one pass of the handshake sweep leaves alone every client that is
    authenticated, whose challenge is at most HANDSHAKE_TIMEOUT old, or that
    has no handshake at all: what the server holds for it is unchanged and
    no [client_disconnect] is published for it, whatever the sweep does to
    other clients. *)
Theorem handshake_sweep_spares t id st :
  (pendingHandshakes st !! id = None
   \/ exists h, pendingHandshakes st !! id = Some h
                /\ (authenticated h = true \/ now t - timestamp h <= HANDSHAKE_TIMEOUT)) ->
  client_entries id (handshakeSweep t st) = client_entries id st
  /\ disconnects id (handshakeSweep t st) = disconnects id st.
Proof.
  unfold handshakeSweep. intros [Hnone | (h & Hp & Hspare)].
  - assert (Hnot : id ∉ (map_to_list (pendingHandshakes st)).*1).
    { intros Hin. apply list_elem_of_fmap in Hin as ([k h] & -> & Hin).
      apply elem_of_map_to_list in Hin. cbn [fst] in Hnone. congruence. }
    split; [apply handshakeVisit_fold_entries | apply handshakeVisit_fold_other]; exact Hnot.
  - pose proof (NoDup_fst_map_to_list (pendingHandshakes st)) as Hnd.
    apply elem_of_map_to_list in Hp.
    apply list_elem_of_split in Hp as (l1 & l2 & Hl). rewrite Hl in *.
    rewrite fmap_app, fmap_cons in Hnd. cbn [fst] in Hnd.
    apply NoDup_app in Hnd as (_ & Hdisj & Hnd2).
    apply NoDup_cons in Hnd2 as [Hnot2 _].
    assert (Hnot1 : id ∉ l1.*1).
    { intros Hin. apply (Hdisj id Hin). left. }
    rewrite fold_left_app. cbn [fold_left]. rewrite (handshakeVisit_spared t _ id h Hspare).
    rewrite (handshakeVisit_fold_entries t id l2 _ Hnot2),
      (handshakeVisit_fold_entries t id l1 _ Hnot1).
    rewrite (proj1 (handshakeVisit_fold_other t id l2 _ Hnot2)),
      (proj1 (handshakeVisit_fold_other t id l1 _ Hnot1)).
    split; reflexivity.
Qed.

Lemma handshake_sweep_spares_witness :
  let h := {| challenge := example_challenge; timestamp := 0; authenticated := false |} in
  pendingHandshakes st_connected !! example_id = Some h
  /\ now (clock_s 10) - timestamp h <= HANDSHAKE_TIMEOUT
  /\ client_entries example_id (handshakeSweep (clock_s 10) st_connected)
     = client_entries example_id st_connected.
Proof.
  intros h.
  assert (H1 : pendingHandshakes st_connected !! example_id = Some h) by (vm_compute; reflexivity).
  assert (H2 : now (clock_s 10) - timestamp h <= HANDSHAKE_TIMEOUT) by (vm_compute; discriminate).
  split; [exact H1 | split; [exact H2|]].
  apply (handshake_sweep_spares (clock_s 10) example_id st_connected).
  right. exists h. split; [exact H1 | right; exact H2].
Defined.

(** ** The master log, further *)

Lemma substring_split s : forall i k,
  String.substring 0 i s ++ String.substring i k s ++ substring_from (i + k) s = s.
Proof.
  induction s as [|c s IH]; intros i k.
  - destruct i, k; reflexivity.
  - destruct i as [|i].
    + destruct k as [|k]; [reflexivity|]. cbn [String.substring Nat.add substring_from].
      rewrite append_nil, append_cons. f_equal. pose proof (IH 0%nat k) as H.
      replace (String.substring 0 0 s) with EmptyString in H by (destruct s; reflexivity).
      exact H.
    + cbn [String.substring Nat.add substring_from]. rewrite append_cons. f_equal. apply IH.
Qed.

Lemma replace_first_literal_same s search : replace_first_literal s search search = s.
Proof.
  unfold replace_first_literal. destruct (String.index 0 search s) as [i|] eqn:E; [|reflexivity].
  apply index_correct1 in E.
  pose proof (substring_split s i (String.length search)) as H. rewrite E in H. exact H.
Qed.

(** X20: the entry that [addMasterLog] stores and publishes for a client
    whose display name holds no dollar sign is the bracketed time and the
    message with the first occurrence of the client id replaced by the name,
    letter for letter. For a client that still goes by its id, and for a
    message that does not hold the id, that is the message itself. *)
Theorem master_log_entry t msg id name st :
  id <> EmptyString -> name <> EmptyString ->
  clientNames st !! id = Some name -> has_dollar name = false ->
  let entry := "[" ++ toLocaleTimeString t ++ "] " ++ replace_first_literal msg id name in
  masterLog (addMasterLog t msg (Some id) st) = push_shift (masterLog st) entry
  /\ published (addMasterLog t msg (Some id) st) = (published st ++ [master_log entry])%list
  /\ (name = id \/ String.index 0 id msg = None ->
      entry = "[" ++ toLocaleTimeString t ++ "] " ++ msg).
Proof.
  intros Hid Hname Hlook Hplain entry.
  destruct (addMasterLog_plain_name t msg id name st Hid Hname Hlook Hplain) as [H1 H2].
  split; [exact H1 | split; [exact H2|]].
  intros [-> | Hnone]; unfold entry.
  - rewrite replace_first_literal_same. reflexivity.
  - unfold replace_first_literal. rewrite Hnone. reflexivity.
Qed.

Lemma master_log_entry_witness :
  example_id <> EmptyString /\ "Alice" <> EmptyString
  /\ clientNames st_example_run !! example_id = Some "Alice"
  /\ has_dollar "Alice" = false
  /\ last (masterLog (addMasterLog (clock_s 20) "Client timeout: 10.0.0.5:4000 (10.0.0.5:4000)"
                        (Some example_id) st_example_run))
     = Some "[18:00:20] Client timeout: Alice (10.0.0.5:4000)".
Proof.
  assert (H1 : example_id <> EmptyString) by discriminate.
  assert (H2 : "Alice" <> EmptyString) by discriminate.
  assert (H3 : clientNames st_example_run !! example_id = Some "Alice") by (vm_compute; reflexivity).
  assert (H4 : has_dollar "Alice" = false) by reflexivity.
  destruct (master_log_entry (clock_s 20) "Client timeout: 10.0.0.5:4000 (10.0.0.5:4000)"
              example_id "Alice" st_example_run H1 H2 H3 H4) as (Hlog & _).
  split; [exact H1 | split; [exact H2 | split; [exact H3 | split; [exact H4|]]]].
  rewrite Hlog. vm_compute. reflexivity.
Defined.

(** ** Authenticated clients have answered their challenge *)

Lemma processHandshakeResponse_pending secret t id response st st' ok h' :
  processHandshakeResponse secret t id response st = Normal (st', ok) ->
  pendingHandshakes st' !! id = Some h' ->
  exists h, pendingHandshakes st !! id = Some h
            /\ challenge h = challenge h' /\ timestamp h = timestamp h'.
Proof.
  unfold processHandshakeResponse. cbv zeta. intros Hrun Hp'.
  destruct (pendingHandshakes st !! id) as [h|] eqn:Hp.
  - case_decide.
    + injection Hrun as <- _. exfalso.
      destruct (reject_outcome t ("Handshake response too late from " ++ id) id st)
        as ((_ & _ & _ & _ & He & _) & _).
      cbv zeta in He. congruence.
    + destruct (isValidHandshakeResponse (challenge h) response secret) as [[]|];
        [| |discriminate]; injection Hrun as <- _.
      * exists h. split; [reflexivity|].
        match type of Hp' with context [startUsernameChecker id ?s] =>
          destruct (startUsernameChecker_fields id s) as (_ & _ & _ & _ & _ & H6 & _)
        end.
        rewrite H6 in Hp'. revert Hp'. unfold addMasterLog, socket_write, broadcastToBrowsers.
        fields. rewrite lookup_insert_eq. intros [= <-]. split; reflexivity.
      * exfalso.
        destruct (reject_outcome t ("Handshake failed for " ++ id ++ " - invalid response") id st)
          as ((_ & _ & _ & _ & He & _) & _).
        cbv zeta in He. congruence.
  - injection Hrun as <- _. exfalso.
    change (pendingHandshakes st !! id = Some h') in Hp'. congruence.
Qed.

Lemma onLine_pending JSON_parse secret t id msg st st' h' :
  onLine JSON_parse secret t id msg st = Normal st' ->
  pendingHandshakes st' !! id = Some h' ->
  exists h, pendingHandshakes st !! id = Some h
            /\ challenge h = challenge h' /\ timestamp h = timestamp h'.
Proof.
  unfold onLine. cbv zeta. intros Hrun Hp'.
  destruct (startsWith msg "$HandshakeResponse:").
  - destruct (processHandshakeResponse secret t id _ st) as [[st1 ok]|] eqn:Hp; [|discriminate].
    injection Hrun as <-. eapply processHandshakeResponse_pending; eassumption.
  - destruct (negb (isClientAuthenticated id st)).
    + injection Hrun as <-. exists h'. split; [exact Hp' | split; reflexivity].
    + destruct (JSON_parse msg); injection Hrun as <-;
        rewrite pendingHandshakes_processJsonMessage in Hp';
        exists h'; (split; [exact Hp' | split; reflexivity]).
Qed.

Lemma onData_pending JSON_parse secret t id lines : forall st st' h',
  onData JSON_parse secret t id lines st = Normal st' ->
  pendingHandshakes st' !! id = Some h' ->
  exists h, pendingHandshakes st !! id = Some h
            /\ challenge h = challenge h' /\ timestamp h = timestamp h'.
Proof.
  induction lines as [|msg rest IH]; intros st st' h' Hrun Hp'; cbn [onData] in Hrun.
  - injection Hrun as <-. exists h'. split; [exact Hp' | split; reflexivity].
  - destruct (onLine JSON_parse secret t id msg st) as [st1|] eqn:Hl; [|discriminate].
    destruct (IH st1 st' h' Hrun Hp') as (h1 & Hp1 & Hc1 & Ht1).
    destruct (onLine_pending _ _ _ _ _ _ _ _ Hl Hp1) as (h & Hp & Hc & Ht).
    exists h. split; [exact Hp | split; congruence].
Qed.

Lemma pending_heartbeatVisit t st k id h :
  pendingHandshakes (heartbeatVisit t st k) !! id = Some h -> pendingHandshakes st !! id = Some h.
Proof.
  destruct (decide (k = id)) as [-> | Hne].
  - unfold heartbeatVisit. case_match; [|trivial]. cbv zeta. intros Hp. exfalso.
    destruct (reject_outcome t ("Client timeout: " ++ id) id st)
      as ((_ & _ & _ & _ & He & _) & _).
    cbv zeta in He. congruence.
  - pose proof (entries_heartbeatVisit t st k id Hne) as He. unfold client_entries in He.
    injection He as _ _ _ _ _ _ -> _ _. trivial.
Qed.

Lemma pending_handshakeVisit t st k h0 id h :
  pendingHandshakes (handshakeVisit t st (k, h0)) !! id = Some h ->
  pendingHandshakes st !! id = Some h.
Proof.
  destruct (decide (k = id)) as [-> | Hne].
  - unfold handshakeVisit. case_match; [|trivial]. cbv zeta. intros Hp. exfalso.
    match type of Hp with pendingHandshakes ?s !! _ = _ =>
      assert (He : evicted id s) by apply evicted_broadcast, cleanupClient_evicted
    end.
    destruct He as (_ & _ & _ & _ & He & _). congruence.
  - pose proof (entries_handshakeVisit t st k h0 id Hne) as He. unfold client_entries in He.
    injection He as _ _ _ _ _ _ He _ _. intros Hp. rewrite <- He. exact Hp.
Qed.

Lemma pending_fold {A : Type} (f : State -> A -> State) id h (l : list A) :
  (forall st x, pendingHandshakes (f st x) !! id = Some h -> pendingHandshakes st !! id = Some h) ->
  forall st, pendingHandshakes (fold_left f l st) !! id = Some h ->
             pendingHandshakes st !! id = Some h.
Proof.
  intros Hf. induction l as [|x l IH]; intros st Hp; cbn [fold_left] in Hp; [exact Hp|].
  apply IH in Hp. apply Hf in Hp. exact Hp.
Qed.

(** Where a handshake record comes from: the state before, with the same
    challenge and time stamp, or the connection that the event is. *)
Lemma handle_pending JSON_parse secret t e id st st' h' :
  handle JSON_parse secret t e st = Normal st' ->
  pendingHandshakes st' !! id = Some h' ->
  (exists h, pendingHandshakes st !! id = Some h
             /\ challenge h = challenge h' /\ timestamp h = timestamp h')
  \/ (exists random32, e = EConnection id random32
                       /\ challenge h' = generateChallenge random32 /\ timestamp h' = now t).
Proof.
  intros Hrun Hp'.
  assert (Hsame : pendingHandshakes st !! id = Some h' ->
                  exists h, pendingHandshakes st !! id = Some h
                            /\ challenge h = challenge h' /\ timestamp h = timestamp h').
  { intros Hp. exists h'. split; [exact Hp | split; reflexivity]. }
  assert (Hother : forall k, addressed_to e = Some k -> k <> id ->
                             pendingHandshakes st !! id = Some h').
  { intros k Hk Hne. pose proof (entries_handle _ _ _ _ _ _ _ _ Hk Hne Hrun) as He.
    unfold client_entries in He. injection He as _ _ _ _ _ _ He _ _. congruence. }
  destruct e as [c r|c lines|c|c err|c| | |c|data]; cbn [handle] in Hrun.
  - destruct (decide (c = id)) as [-> | Hne]; [|left; exact (Hsame (Hother c eq_refl Hne))].
    right. injection Hrun as <-. exists r. split; [reflexivity|].
    pose proof (onConnection_starts_handshake t id r st) as Hc. cbv zeta in Hc.
    destruct Hc as [Hc _]. rewrite Hc in Hp'. injection Hp' as <-. split; reflexivity.
  - left. destruct (decide (c = id)) as [-> | Hne]; [|exact (Hsame (Hother c eq_refl Hne))].
    eapply onData_pending; eassumption.
  - left. destruct (decide (c = id)) as [-> | Hne]; [|exact (Hsame (Hother c eq_refl Hne))].
    injection Hrun as <-. exfalso.
    destruct (proj1 (onClose_disconnects t id st)) as (_ & _ & _ & _ & He & _). congruence.
  - left. injection Hrun as <-. exact (Hsame Hp').
  - left. destruct (decide (c = id)) as [-> | Hne]; [|exact (Hsame (Hother c eq_refl Hne))].
    injection Hrun as <-. clear Hsame Hother. revert Hp'. unfold handshakeTimeout. cbv zeta.
    destruct (pendingHandshakes st !! id) as [[ch ts []]|] eqn:Hp; intros Hp'.
    + exists h'. split; [rewrite <- Hp; exact Hp' | split; reflexivity].
    + exfalso. destruct (reject_outcome t ("Handshake timeout for " ++ id) id st)
        as ((_ & _ & _ & _ & He & _) & _).
      cbv zeta in He. congruence.
    + rewrite Hp in Hp'. discriminate Hp'.
  - left. injection Hrun as <-. apply Hsame. unfold heartbeatMonitor in Hp'.
    apply (pending_fold (heartbeatVisit t) id h') in Hp'; [exact Hp'|].
    intros st0 k. apply pending_heartbeatVisit.
  - left. injection Hrun as <-. apply Hsame. unfold handshakeSweep in Hp'.
    apply (pending_fold (handshakeVisit t) id h') in Hp'; [exact Hp'|].
    intros st0 [k h0]. apply pending_handshakeVisit.
  - left. injection Hrun as <-. rewrite pendingHandshakes_usernameCheckerTick in Hp'.
    exact (Hsame Hp').
  - left. injection Hrun as <-. rewrite pendingHandshakes_onObserverMessage in Hp'.
    exact (Hsame Hp').
Qed.

Lemma issued_app trace1 trace2 id h :
  issued trace1 id h -> issued (trace1 ++ trace2) id h.
Proof.
  intros (t0 & r & Hin & Hc & Ht). exists t0, r. split; [|split; assumption].
  apply elem_of_app. left. exact Hin.
Qed.

Lemma answered_app secret trace1 trace2 id :
  answered secret trace1 id -> answered secret (trace1 ++ trace2) id.
Proof.
  intros (t0 & r & t & lines & line & H1 & H2 & Hrest). exists t0, r, t, lines, line.
  split; [apply elem_of_app; left; exact H1|]. split; [apply elem_of_app; left; exact H2|].
  exact Hrest.
Qed.

Lemma run_answered JSON_parse secret rest : forall done st st',
  (forall id h, pendingHandshakes st !! id = Some h -> issued done id h) ->
  (forall id, isClientAuthenticated id st = true -> answered secret done id) ->
  run JSON_parse secret rest st = Normal st' ->
  (forall id h, pendingHandshakes st' !! id = Some h -> issued (done ++ rest) id h)
  /\ (forall id, isClientAuthenticated id st' = true -> answered secret (done ++ rest) id).
Proof.
  induction rest as [|[t e] rest IH]; intros done st st' Hissued Hanswered Hrun; cbn [run] in Hrun.
  - injection Hrun as <-. rewrite app_nil_r. split; assumption.
  - destruct (handle JSON_parse secret t e st) as [st1|] eqn:Hh; [|discriminate].
    replace (done ++ (t, e) :: rest)%list with ((done ++ [(t, e)]) ++ rest)%list
      by (rewrite <- app_assoc; reflexivity).
    apply (IH (done ++ [(t, e)])%list st1 st'); [| |exact Hrun].
    + intros id h1 Hp1.
      destruct (handle_pending _ _ _ _ _ _ _ _ Hh Hp1)
        as [(h & Hp & Hc & Ht) | (r & -> & Hc & Ht)].
      * destruct (Hissued id h Hp) as (t0 & r & Hin & Hc0 & Ht0). exists t0, r.
        split; [apply elem_of_app; left; exact Hin | split; congruence].
      * exists t, r. split; [|split; assumption].
        apply elem_of_app. right. left.
    + intros id Ha1. destruct (isClientAuthenticated id st) eqn:Ha.
      * apply answered_app, Hanswered, Ha.
      * destruct (handle_authenticates _ _ _ _ _ _ _ Hh Ha Ha1)
          as (lines & line & h & -> & Hin & Hprefix & Hp & Htime & Hvalid).
        destruct (Hissued id h Hp) as (t0 & r & Hconn & Hc & Ht).
        exists t0, r, t, lines, line. rewrite Hc in Hvalid. rewrite Ht in Htime.
        split; [apply elem_of_app; left; exact Hconn|].
        split; [apply elem_of_app; right; left|].
        split; [exact Hin | split; [exact Hprefix | split; [exact Htime | exact Hvalid]]].
Qed.

Lemma initial_pending id : pendingHandshakes initial_state !! id = None.
Proof. apply lookup_empty. Qed.

(** X21: in every state the server reaches from its start, an
    authenticated client has answered a challenge of the server: the trace
    holds a connection of that client and, at most HANDSHAKE_TIMEOUT after
    it, data of that client with a [$HandshakeResponse:] line whose response
    verifies against the challenge drawn at that connection. *)
Theorem authenticated_clients_answered JSON_parse secret trace st id :
  run JSON_parse secret trace initial_state = Normal st ->
  isClientAuthenticated id st = true ->
  answered secret trace id.
Proof.
  intros Hrun Ha.
  destruct (run_answered JSON_parse secret trace [] initial_state st) as [_ H]; [| |exact Hrun|].
  - intros k h Hp. rewrite initial_pending in Hp. discriminate.
  - intros k Hk. unfold isClientAuthenticated in Hk. rewrite initial_pending in Hk.
    discriminate.
  - exact (H id Ha).
Qed.

Lemma authenticated_clients_answered_witness :
  run (fun _ => None) default_HANDSHAKE_SECRET example_trace initial_state = Normal st_example_run
  /\ isClientAuthenticated example_id st_example_run = true
  /\ answered default_HANDSHAKE_SECRET example_trace example_id.
Proof.
  assert (H1 : run (fun _ => None) default_HANDSHAKE_SECRET example_trace initial_state
               = Normal st_example_run) by (vm_compute; reflexivity).
  assert (H2 : isClientAuthenticated example_id st_example_run = true) by (vm_compute; reflexivity).
  split; [exact H1 | split; [exact H2|]].
  exact (authenticated_clients_answered _ _ _ _ _ H1 H2).
Defined.

(** ** A response of the wrong length *)

(** X22: a [$HandshakeResponse:] line whose trimmed response does not
    decode to 32 bytes, from a client whose handshake is pending and not
    out of time (authenticated or not), makes the line handler throw the
    RangeError of [crypto.timingSafeEqual]; nothing catches it, so the data
    handler throws on a buffer that reaches that line, and so does the run
    of the server. *)
Theorem malformed_response_throws JSON_parse secret t id msg st h :
  startsWith msg "$HandshakeResponse:" = true ->
  pendingHandshakes st !! id = Some h ->
  now t - timestamp h <= HANDSHAKE_TIMEOUT ->
  length (Buffer_from_hex (trim (substring_from (String.length "$HandshakeResponse:") msg)))
  <> 32%nat ->
  let error := RangeError "ERR_CRYPTO_TIMING_SAFE_EQUAL_LENGTH" in
  onLine JSON_parse secret t id msg st = Throw error
  /\ (forall rest, handle JSON_parse secret t (EData id (msg :: rest)) st = Throw error)
  /\ (forall rest trace, run JSON_parse secret ((t, EData id (msg :: rest)) :: trace) st
                         = Throw error).
Proof.
  intros Hprefix Hp Htime Hlen error.
  assert (Hline : onLine JSON_parse secret t id msg st = Throw error).
  { unfold onLine. rewrite Hprefix. unfold processHandshakeResponse. rewrite Hp.
    rewrite decide_False by lia. unfold isValidHandshakeResponse. rewrite expected_buffer.
    rewrite timingSafeEqual_length_mismatch; [reflexivity|].
    rewrite hmac_sha256_length. exact Hlen. }
  split; [exact Hline|].
  assert (Hdata : forall rest, handle JSON_parse secret t (EData id (msg :: rest)) st = Throw error).
  { intros rest. cbn [handle onData]. rewrite Hline. reflexivity. }
  split; [exact Hdata|].
  intros rest trace. cbn [run]. rewrite Hdata. reflexivity.
Qed.

Lemma malformed_response_throws_witness :
  let h := {| challenge := example_challenge; timestamp := 0; authenticated := false |} in
  startsWith "$HandshakeResponse:" "$HandshakeResponse:" = true
  /\ pendingHandshakes st_connected !! example_id = Some h
  /\ now (clock_s 1) - timestamp h <= HANDSHAKE_TIMEOUT
  /\ length (Buffer_from_hex
               (trim (substring_from (String.length "$HandshakeResponse:") "$HandshakeResponse:")))
     <> 32%nat
  /\ run (fun _ => None) default_HANDSHAKE_SECRET
       [(clock_s 1, EData example_id ["$HandshakeResponse:"; "$Heartbeat"]);
        (clock_s 2, EHeartbeatMonitor)] st_connected
     = Throw (RangeError "ERR_CRYPTO_TIMING_SAFE_EQUAL_LENGTH").
Proof.
  intros h.
  assert (H1 : startsWith "$HandshakeResponse:" "$HandshakeResponse:" = true) by reflexivity.
  assert (H2 : pendingHandshakes st_connected !! example_id = Some h) by (vm_compute; reflexivity).
  assert (H3 : now (clock_s 1) - timestamp h <= HANDSHAKE_TIMEOUT) by (vm_compute; discriminate).
  assert (H4 : length (Buffer_from_hex
                         (trim (substring_from (String.length "$HandshakeResponse:")
                                  "$HandshakeResponse:"))) <> 32%nat)
    by (vm_compute; discriminate).
  split; [exact H1 | split; [exact H2 | split; [exact H3 | split; [exact H4|]]]].
  destruct (malformed_response_throws (fun _ => None) default_HANDSHAKE_SECRET (clock_s 1)
              example_id "$HandshakeResponse:" st_connected h H1 H2 H3 H4) as (_ & _ & Hrun).
  exact (Hrun ["$Heartbeat"] [(clock_s 2, EHeartbeatMonitor)]).
Defined.
